(** * NPG-Lite firmware: acquisition loop, command handler, connection
      handler and battery estimator

    A shallow embedding of the firmware's C sources (main.c, gatt.c, gap.c,
    neopixel.c) and the properties its design document states about them.

    Conventions.
    - C integers are [Z]; a conversion to an unsigned type is written out
      ([uint8_t], [uint16_t]); [/] on C integers is [Z.quot].
    - [float] and [double] are IEEE-754 binary32 and binary64, computed
      with the reference operations of [SpecFloat] (round to nearest even).
    - Arrays are lists indexed from 0; an access outside a local array is
      undefined behaviour and makes the enclosing function return [None].
    - A call into the platform (wireless host, ADC driver, LED strip, log)
      is recorded in a trace; what the platform answers is an argument. *)

From Stdlib Require Import ZArith List Lia Bool String Ascii.
From Stdlib Require Import Floats.SpecFloat.
From Stdlib Require Import QArith Qround.
From stdpp Require Import base option list.

Open Scope Z_scope.

(** ** C integer types and libc *)

Definition uint8_t (x : Z) : Z := x mod 256.
Definition uint16_t (x : Z) : Z := x mod 65536.

(** The largest [int] of the target, whose [int] has 32 bits. *)
Definition INT_MAX : Z := 2147483647.

(** The line feed that ends a format string. *)
Definition newline : string := String "010"%char EmptyString.

(** A string literal as the bytes of a C string, without the terminator. *)
Fixpoint bytes_of_string (s : string) : list Z :=
  match s with
  | EmptyString => []
  | String c s' => Z.of_nat (nat_of_ascii c) :: bytes_of_string s'
  end.

(** [toupper] in the C locale. *)
Definition toupper (c : Z) : Z :=
  if (97 <=? c) && (c <=? 122) then c - 32 else c.

(** [strncmp s1 s2 n]: at most [n] characters are compared, and the
    comparison stops after a terminator.  A list that ends stands for a
    string whose next byte is the terminator. *)
Fixpoint strncmp (s1 s2 : list Z) (n : nat) : Z :=
  match n with
  | O => 0
  | S n' =>
      let c1 := hd 0 s1 in
      let c2 := hd 0 s2 in
      if c1 =? c2
      then if c1 =? 0 then 0 else strncmp (tl s1) (tl s2) n'
      else c1 - c2
  end.

(** [for (int i = 0; i < n; i++) body], threading the loop state. *)
Definition for_loop {S : Type} (n : nat) (body : Z -> S -> S) (s : S) : S :=
  fold_left (fun acc i => body (Z.of_nat i) acc) (seq 0 n) s.

(** ** Floating point *)

Module Float.
Definition float := spec_float.

Definition prec32 : Z := 24.
Definition emax32 : Z := 128.
Definition prec64 : Z := 53.
Definition emax64 : Z := 1024.

(** Conversions: integer to [double] and to [float] (exact below 2^53 and
    2^24, rounded above), [double] to [float]. *)
Definition double_of_int (n : Z) : float := binary_normalize prec64 emax64 n 0 false.
Definition float_of_int (n : Z) : float := binary_normalize prec32 emax32 n 0 false.
Definition float_of_double (x : float) : float :=
  match x with
  | S754_finite s m e => binary_round prec32 emax32 s m e
  | _ => x
  end.

(** The decimal constant [num/den] as a [double]: the correctly rounded
    quotient of two integers that are doubles themselves. *)
Definition double_lit (num den : Z) : float :=
  SFdiv prec64 emax64 (double_of_int num) (double_of_int den).
(** The same constant stored in a [float] object. *)
Definition float_lit (num den : Z) : float := float_of_double (double_lit num den).

Definition dmul := SFmul prec64 emax64.
Definition ddiv := SFdiv prec64 emax64.
Definition dsub := SFsub prec64 emax64.

Definition fadd := SFadd prec32 emax32.
Definition fsub := SFsub prec32 emax32.
Definition fmul := SFmul prec32 emax32.
Definition fdiv := SFdiv prec32 emax32.

(** [x < y], [x <= y]; both are false on a NaN. *)
Definition flt := SFltb.
Definition fle := SFleb.

(** Conversion to an integer type truncates toward zero. *)
Definition trunc (x : float) : Z :=
  match x with
  | S754_finite s m e =>
      let a := match e with
               | Z0 => Zpos m
               | Zpos p => Zpos m * 2 ^ Zpos p
               | Zneg p => Zpos m / 2 ^ Zpos p
               end in
      if s then - a else a
  | _ => 0
  end.

(** A value of the [float] type. *)
Definition is_float (x : float) : Prop := valid_binary prec32 emax32 x = true.
End Float.

(** ** The platform: calls made, answers received *)

Inductive color_t := RED | YELLOW | GREEN | CYAN | BLUE | MAGENTA.

Definition hue (c : color_t) : Z :=
  match c with
  | RED => 240 | YELLOW => 180 | GREEN => 120
  | CYAN => 60 | BLUE => 0 | MAGENTA => 300
  end.

Inductive esp_log_level_t := ESP_LOG_ERROR | ESP_LOG_INFO | ESP_LOG_DEBUG.

(** One call into the platform.  A log call keeps its format string and its
    integer arguments. *)
Inductive call :=
  | led_strip_show (pixel_num : Z) (color : color_t) (brightness : Z)
  | esp_log (level : esp_log_level_t) (tag fmt : string) (args : list Z)
  | ble_hs_mbuf_from_flat (flat : list Z)
  | ble_gatts_notify_custom (conn attr : Z) (om : list Z)
  | os_mbuf_append (data : list Z)
  | nimble_port_stop
  | adc_continuous_stop
  | ble_gap_adv_set_fields
  | ble_gap_adv_start (itvl_min_ms itvl_max_ms : Z)
  | ble_gap_conn_find (conn : Z)
  | ble_gap_update_params (conn itvl_min itvl_max latency supervision_timeout : Z)
  | vTaskDelay (ms : Z).

Definition ESP_LOGE := esp_log ESP_LOG_ERROR.
Definition ESP_LOGI := esp_log ESP_LOG_INFO.

Definition ESP_OK : Z := 0.

(** ** neopixel.c *)

Module Neopixel.
Definition NUM_NEOPIXEL : Z := 6.
Definition TAG : string := "NEOPIXEL".

(** [set_pixel]: the guard on the pixel number, then the update of the
    strip, which is output only. *)
Definition set_pixel (pixel_num : Z) (color : color_t) (brightness : Z) : list call :=
  if (pixel_num >? NUM_NEOPIXEL - 1) || (pixel_num <? 0)
  then [ESP_LOGE TAG "Pixel Num should be between 0 to 5 for NPG-LITE!" []]
  else [led_strip_show pixel_num color brightness].
End Neopixel.

(** ** Shared state *)

(** The globals of gap.c together with the locals of [adc_conv_task] that
    live across its cycles. *)
Record device := mk_device {
  streaming : bool;
  conn_handle : Z;
  data_char_handle : Z;
  control_char_handle : Z;
  counter : Z;
  chords_packet : list Z;
}.

Definition set_streaming (b : bool) (d : device) : device :=
  mk_device b (conn_handle d) (data_char_handle d) (control_char_handle d)
            (counter d) (chords_packet d).

Definition set_conn_handle (h : Z) (d : device) : device :=
  mk_device (streaming d) h (data_char_handle d) (control_char_handle d)
            (counter d) (chords_packet d).

Definition set_acquisition (c : Z) (pkt : list Z) (d : device) : device :=
  mk_device (streaming d) (conn_handle d) (data_char_handle d)
            (control_char_handle d) c pkt.

(** ** gap.c *)

Module Gap.
Definition TAG : string := "GAP".

(** What the wireless host answers during one GAP event: the results of
    its calls and the integer fields of the connection descriptor that
    [ble_gap_conn_find] fills. *)
Record gap_env := mk_gap_env {
  conn_find_rc : Z;
  desc_conn_handle : Z;
  desc_our_id_addr_type : Z;
  desc_peer_id_addr_type : Z;
  desc_conn_itvl : Z;
  desc_conn_latency : Z;
  desc_supervision_timeout : Z;
  desc_encrypted : Z;
  desc_authenticated : Z;
  desc_bonded : Z;
  update_params_rc : Z;
  adv_set_fields_rc : Z;
  adv_start_rc : Z;
}.

Inductive ble_gap_event :=
  | BLE_GAP_EVENT_CONNECT (status conn : Z)
  | BLE_GAP_EVENT_DISCONNECT (reason : Z)
  | BLE_GAP_EVENT_ADV_COMPLETE
  | BLE_GAP_EVENT_SUBSCRIBE (attr_handle cur_notify cur_indicate : Z)
  | BLE_GAP_EVENT_MTU (value : Z)
  | BLE_GAP_EVENT_OTHER.

(** [start_advertising]: the advertising data is set first; advertising
    is started with a 500 ms to 510 ms interval once the host took the
    data. *)
Definition start_advertising (env : gap_env) : list call :=
  ble_gap_adv_set_fields ::
  (if adv_set_fields_rc env =? 0
   then
     ble_gap_adv_start 500 510 ::
     (if adv_start_rc env =? 0
      then [ESP_LOGI TAG "BLE Advertising started" []]
      else [ESP_LOGE TAG "Error starting advertising; rc=%d" [adv_start_rc env]])
   else [ESP_LOGE TAG "Error setting advertising data; rc=%d" [adv_set_fields_rc env]]).

(** [print_conn_desc]: four logs of the fields of the descriptor; the two
    addresses are printed as strings and are not among the integer
    arguments. *)
Definition print_conn_desc (env : gap_env) : list call :=
  [ ESP_LOGI TAG "connection handle: %d" [desc_conn_handle env];
    ESP_LOGI TAG "device id address: type=%d, value=%s" [desc_our_id_addr_type env];
    ESP_LOGI TAG "peer id address: type=%d, value=%s" [desc_peer_id_addr_type env];
    ESP_LOGI TAG
      ("conn_itvl=%d, conn_latency=%d, supervision_timeout=%d, "
       ++ "encrypted=%d, authenticated=%d, bonded=%d" ++ newline)%string
      [desc_conn_itvl env; desc_conn_latency env; desc_supervision_timeout env;
       desc_encrypted env; desc_authenticated env; desc_bonded env] ].

(** [gap_event_handler]: the new state, the calls made and the value
    returned. *)
Definition gap_event_handler (d : device) (event : ble_gap_event) (env : gap_env)
  : device * list call * Z :=
  match event with
  | BLE_GAP_EVENT_CONNECT status conn =>
      let log := ESP_LOGI TAG "Connection established. Status: %s" [] in
      if status =? 0 then
        if negb (conn_find_rc env =? 0) then
          (d,
           [log; ble_gap_conn_find conn;
            ESP_LOGE TAG "failed to find connection by handle, error code: %d" [conn_find_rc env]],
           conn_find_rc env)
        else
          let upd := ble_gap_update_params conn (desc_conn_itvl env) (desc_conn_itvl env)
                                           3 (desc_supervision_timeout env) in
          let calls := [log; ble_gap_conn_find conn] ++ Neopixel.set_pixel 0 GREEN 10
                       ++ print_conn_desc env ++ [upd] in
          if negb (update_params_rc env =? 0) then
            (set_conn_handle conn d,
             calls ++ [ESP_LOGE TAG "failed to update connection parameters, error code: %d"
                                [update_params_rc env]],
             update_params_rc env)
          else (set_conn_handle conn d, calls, update_params_rc env)
      else (d, log :: start_advertising env, 0)
  | BLE_GAP_EVENT_DISCONNECT reason =>
      (set_streaming false d,
       Neopixel.set_pixel 0 RED 10
         ++ [ESP_LOGI TAG "Disconnected. Reason: %d" [reason]]
         ++ start_advertising env,
       0)
  | BLE_GAP_EVENT_ADV_COMPLETE =>
      (d, ESP_LOGI TAG "Advertise complete" [] :: start_advertising env, 0)
  | BLE_GAP_EVENT_SUBSCRIBE attr_handle cur_notify cur_indicate =>
      (d,
       (if attr_handle =? data_char_handle d
        then [ESP_LOGI TAG "Data Characteristic Subscribe: Notify=%d, Indicate=%d"
                       [cur_notify; cur_indicate]]
        else [])
       ++
       (if attr_handle =? control_char_handle d
        then [ESP_LOGI TAG "Control Characteristic Subscribe: Notify=%d, Indicate=%d"
                       [cur_notify; cur_indicate]]
        else []),
       0)
  | BLE_GAP_EVENT_MTU value =>
      (d, [ESP_LOGI TAG "MTU updated to %d" [value]], 0)
  | BLE_GAP_EVENT_OTHER => (d, [], 0)
  end.
End Gap.

(** ** gatt.c *)

Module Gatt.
Definition TAG : string := "GATT".

Inductive ble_gatt_access_op :=
  | BLE_GATT_ACCESS_OP_READ_CHR
  | BLE_GATT_ACCESS_OP_WRITE_CHR
  | BLE_GATT_ACCESS_OP_READ_DSC
  | BLE_GATT_ACCESS_OP_WRITE_DSC.

(** The access context: the operation and the buffer [om]; [om_len] is
    the length of [om_data]. *)
Record ble_gatt_access_ctxt := mk_ctxt {
  op : ble_gatt_access_op;
  om_data : list Z;
}.

Definition om_len (ctxt : ble_gatt_access_ctxt) : nat := length (om_data ctxt).

(** What the wireless host answers during one access: whether a buffer
    could be allocated, and the results of the notification and of the
    append. *)
Record host_env := mk_host_env {
  om_alloc : bool;
  notify_rc : Z;
  append_rc : Z;
}.

(** *** The local array [cmd_buffer] *)

(** One access to [cmd_buffer], by index. *)
Inductive access := Load (i : nat) | Store (i : nat).

Definition index_of (a : access) : nat :=
  match a with Load i => i | Store i => i end.

Definition load (buf : list Z) (i : nat) : option Z := buf !! i.

Definition store (buf : list Z) (i : nat) (c : Z) : option (list Z) :=
  if decide (i < length buf)%nat then Some (<[i := c]> buf) else None.

(** [memcpy (buf, src, n)]. *)
Definition memcpy (buf src : list Z) (n : nat) : option (list Z) :=
  if bool_decide (n <= length buf)%nat && bool_decide (n <= length src)%nat
  then Some (take n src ++ drop n buf)
  else None.

(** [for (i = 0; i < n - i0; i++) buf[i0 + i] = toupper (buf[i0 + i])]. *)
Fixpoint uppercase_from (buf : list Z) (i0 n : nat) : option (list Z) :=
  match n with
  | O => Some buf
  | S n' =>
      c ← load buf i0;
      buf' ← store buf i0 (toupper c);
      uppercase_from buf' (S i0) n'
  end.

(** The command buffer as the handler prepares it: declared with 20
    zeroes, filled with at most 19 bytes of the payload, upper-cased over
    [om_len] positions and terminated at position [om_len]. *)
Definition cmd_buffer_of (ctxt : ble_gatt_access_ctxt) : option (list Z) :=
  let cmd_buffer := replicate 20 0 in
  let copy_len := if (om_len ctxt <? 19)%nat then om_len ctxt else 19%nat in
  cmd_buffer ← memcpy cmd_buffer (om_data ctxt) copy_len;
  cmd_buffer ← uppercase_from cmd_buffer 0 (om_len ctxt);
  store cmd_buffer (om_len ctxt) 0.

(** The indices of [cmd_buffer] the preparation goes through, in order:
    the copy, the upper-casing loop, the terminator. *)
Definition cmd_buffer_accesses (ctxt : ble_gatt_access_ctxt) : list access :=
  let copy_len := if (om_len ctxt <? 19)%nat then om_len ctxt else 19%nat in
  map Store (seq 0 copy_len)
  ++ flat_map (fun i => [Load i; Store i]) (seq 0 (om_len ctxt))
  ++ [Store (om_len ctxt)].

(** *** The access callback *)

(** Hand [response] to the host and notify it on the characteristic. *)
Definition notify_response (conn attr : Z) (response : list Z) (env : host_env) : list call :=
  ble_hs_mbuf_from_flat response ::
  (if om_alloc env
   then ble_gatts_notify_custom conn attr response ::
        (if negb (notify_rc env =? 0)
         then [ESP_LOGE TAG "Failed to notify control response, rc=%d" [notify_rc env]]
         else [])
   else []).

Definition status_string (d : device) : string :=
  if streaming d then "RUNNING"%string else "STOPPED"%string.

(** The command decoded from the prepared buffer: the new state, the
    calls made before the response is sent, and the response. *)
Definition decode (d : device) (cmd_buffer : list Z) : device * list call * string :=
  if strncmp cmd_buffer (bytes_of_string "START") 5 =? 0 then
    (set_streaming true d,
     Neopixel.set_pixel 0 BLUE 10
       ++ [ESP_LOGI TAG "Command: START received, streaming started." []],
     "RUNNING"%string)
  else if strncmp cmd_buffer (bytes_of_string "STOP") 4 =? 0 then
    (set_streaming false d,
     Neopixel.set_pixel 0 GREEN 10
       ++ [ESP_LOGI TAG "Command: STOP received, streaming stopped." []],
     "STOPPED"%string)
  else if strncmp cmd_buffer (bytes_of_string "WHORU") 5 =? 0 then
    (d, [ESP_LOGI TAG "Command: WHORU received." []], "NPG-LITE"%string)
  else if strncmp cmd_buffer (bytes_of_string "STATUS") 6 =? 0 then
    (d, [ESP_LOGI TAG "Command: STATUS received." []], status_string d)
  else
    (d, [], "UNKNOWN COMMAND"%string).

(** [gatt_svr_chr_access_cb]: the new state, the calls made and the value
    returned; [None] when [cmd_buffer] is accessed outside its bounds.
    The parameter [conn] is the callback's own [conn_handle]. *)
Definition gatt_svr_chr_access_cb (d : device) (conn attr_handle : Z)
    (ctxt : ble_gatt_access_ctxt) (env : host_env) : option (device * list call * Z) :=
  match op ctxt with
  | BLE_GATT_ACCESS_OP_WRITE_CHR =>
      cmd_buffer ← cmd_buffer_of ctxt;
      let '(d', calls, response) := decode d cmd_buffer in
      Some (d',
            calls ++ notify_response conn attr_handle (bytes_of_string response) env,
            0)
  | BLE_GATT_ACCESS_OP_READ_CHR =>
      if attr_handle =? control_char_handle d
      then Some (d, [os_mbuf_append (bytes_of_string (status_string d))], append_rc env)
      else Some (d, [], 0)
  | _ => Some (d, [], 0)
  end.
End Gatt.

(** ** main.c *)

Module Main.
Import Float.

Definition TAG : string := "NPG-IDF".

Definition SAMPLING_RATE : Z := 250.
Definition PACKET_LEN : Z := 25.
(** 3 BioAmp channels, 1 battery channel. *)
Definition NUM_CHANNELS : Z := 4.
Definition SAMPLE_SIZE : Z := (NUM_CHANNELS - 1) * 2 + 1.
Definition PACKET_SIZE : Z := PACKET_LEN * SAMPLE_SIZE.

(** The width of one conversion result on the target of the build
    (esp32c6): a 32-bit little-endian word whose 12 low bits are the
    [type2.data] field. *)
Definition SOC_ADC_DIGI_RESULT_BYTES : Z := 4.
Definition CONV_FRAME_SIZE : Z := NUM_CHANNELS * PACKET_LEN * SOC_ADC_DIGI_RESULT_BYTES.

(** [MAP (X)], which C computes in [int]: this is the macro wherever the
    product is an [int], and the task passes nothing above 8190. *)
Definition MAP (X : Z) : Z := Z.quot (X * 4095) 3329.

(** [result[off]] and the [type2.data] field of the result stored at
    [&result[off]]. *)
Definition result_byte (result : list Z) (off : Z) : Z :=
  default 0 (result !! Z.to_nat off).

Definition type2_data (result : list Z) (off : Z) : Z :=
  Z.land
    (Z.lor (Z.lor (result_byte result off)
                  (Z.shiftl (result_byte result (off + 1)) 8))
           (Z.lor (Z.shiftl (result_byte result (off + 2)) 16)
                  (Z.shiftl (result_byte result (off + 3)) 24)))
    4095.

(** *** The battery estimator *)

Record batt_point_t := mk_batt_point { voltage : float; percent : Z }.

Definition batt_table : list batt_point_t :=
  [ mk_batt_point (float_lit 327 100) 0;  mk_batt_point (float_lit 361 100) 5;
    mk_batt_point (float_lit 369 100) 10; mk_batt_point (float_lit 371 100) 15;
    mk_batt_point (float_lit 373 100) 20; mk_batt_point (float_lit 375 100) 25;
    mk_batt_point (float_lit 377 100) 30; mk_batt_point (float_lit 379 100) 35;
    mk_batt_point (float_lit 380 100) 40; mk_batt_point (float_lit 382 100) 45;
    mk_batt_point (float_lit 384 100) 50; mk_batt_point (float_lit 385 100) 55;
    mk_batt_point (float_lit 387 100) 60; mk_batt_point (float_lit 391 100) 65;
    mk_batt_point (float_lit 395 100) 70; mk_batt_point (float_lit 398 100) 75;
    mk_batt_point (float_lit 402 100) 80; mk_batt_point (float_lit 408 100) 85;
    mk_batt_point (float_lit 411 100) 90; mk_batt_point (float_lit 415 100) 95;
    mk_batt_point (float_lit 420 100) 100 ].

Definition batt_table_len : Z := Z.of_nat (length batt_table).

Definition batt_first : batt_point_t := mk_batt_point (float_lit 327 100) 0.
Definition batt_last : batt_point_t := mk_batt_point (float_lit 420 100) 100.

(** [float voltage = (battery_reading / 4095.0) * 3.3 - 0.14], computed in
    [double] and stored in a [float]. *)
Definition battery_voltage (battery_reading : Z) : float :=
  float_of_double
    (dsub (dmul (ddiv (double_of_int battery_reading) (double_of_int 4095))
                (double_lit 33 10))
          (double_lit 14 100)).

(** [(uint8_t)(p1 + (voltage - v1) * (p2 - p1) / (v2 - v1))]. *)
Definition interpolate (a b : batt_point_t) (v : float) : Z :=
  uint8_t (trunc (fadd (float_of_int (percent a))
                       (fdiv (fmul (fsub v (voltage a))
                                   (float_of_int (percent b - percent a)))
                             (fsub (voltage b) (voltage a))))).

(** The loop over the segments of the table: the first segment that holds
    the voltage gives the percentage; [percent] keeps its initial 0 when
    there is none. *)
Fixpoint interpolation_loop (table : list batt_point_t) (v : float) : Z :=
  match table with
  | a :: (b :: _) as rest =>
      if fle (voltage a) v && fle v (voltage b)
      then interpolate a b v
      else interpolation_loop rest v
  | _ => 0
  end.

Definition battery_percent (v : float) : Z :=
  if flt v (voltage (hd batt_first batt_table)) then
    percent (hd batt_first batt_table)
  else if flt (voltage (List.last batt_table batt_last)) v then
    percent (List.last batt_table batt_last)
  else interpolation_loop batt_table v.

(** [battery_check]: the calls made; no variable of the program is
    written. *)
Definition battery_check (battery_reading : Z) : list call :=
  let percent := battery_percent (battery_voltage battery_reading) in
  if percent <? 5 then
    Neopixel.set_pixel 5 RED 10
      ++ [ nimble_port_stop;
           adc_continuous_stop;
           ESP_LOGE "NPG-IDF" "Low Battery, please charge device before use" [] ]
  else [].

(** *** The acquisition task *)

(** What [adc_continuous_read] returns, and what the wireless host answers
    when the packet is sent. *)
Record cycle_env := mk_cycle_env {
  ret : Z;
  size_ret : Z;
  result : list Z;
  om_alloc : bool;
  notify_rc : Z;
}.

(** The variables the two loops of a cycle write. *)
Record cycle_locals := mk_locals {
  l_packet : list Z;
  l_counter : Z;
  l_battery_reading : Z;
}.

(** [chords_packet[j][col] = v], the array being flat in memory. *)
Definition packet_store (pkt : list Z) (j col v : Z) : list Z :=
  <[Z.to_nat (j * SAMPLE_SIZE + col) := v]> pkt.

(** The body of the loop over the channels of tick [j]. *)
Definition channel_body (result : list Z) (j i : Z) (s : cycle_locals) : cycle_locals :=
  let data := type2_data result ((i + j * NUM_CHANNELS) * SOC_ADC_DIGI_RESULT_BYTES) in
  if i <? 3 then
    let adc_reading := uint16_t (MAP data) in
    mk_locals
      (packet_store
         (packet_store (l_packet s) j (1 + i * 2) (Z.land (Z.shiftr adc_reading 8) 255))
         j (2 + i * 2) (Z.land adc_reading 255))
      (l_counter s) (l_battery_reading s)
  else
    let adc_reading := uint16_t (MAP (data * 2)) in
    mk_locals (l_packet s) (l_counter s) (l_battery_reading s + adc_reading).

(** The body of the loop over the ticks. *)
Definition tick_body (result : list Z) (j : Z) (s : cycle_locals) : cycle_locals :=
  let s1 := mk_locals (packet_store (l_packet s) j 0 (l_counter s))
                      (uint8_t (l_counter s + 1)) (l_battery_reading s) in
  for_loop (Z.to_nat NUM_CHANNELS) (channel_body result j) s1.

Definition build_packet (result : list Z) (d : device) : cycle_locals :=
  for_loop (Z.to_nat PACKET_LEN) (tick_body result)
           (mk_locals (chords_packet d) (counter d) 0).

(** Hand the packet to the host and notify it on the data
    characteristic. *)
Definition send_packet (d : device) (pkt : list Z) (env : cycle_env) : list call :=
  ble_hs_mbuf_from_flat (take (Z.to_nat PACKET_SIZE) pkt) ::
  (if om_alloc env
   then ble_gatts_notify_custom (conn_handle d) (data_char_handle d)
                                (take (Z.to_nat PACKET_SIZE) pkt) ::
        (if negb (notify_rc env =? 0)
         then [ESP_LOGE TAG "Notification failed, rc=%d" [notify_rc env]]
         else [])
   else []).

(** One pass through the body of [while (streaming)], after the wait for
    the conversion-complete signal. *)
Definition adc_cycle (d : device) (env : cycle_env) : device * list call :=
  if (ret env =? ESP_OK) && (size_ret env =? CONV_FRAME_SIZE) then
    let s := build_packet (result env) d in
    let battery_reading := Z.quot (l_battery_reading s) PACKET_LEN in
    (set_acquisition (l_counter s) (l_packet s) d,
     battery_check battery_reading ++ send_packet d (l_packet s) env)
  else
    (d, [ESP_LOGE "adc_conv_task" "Corrupted reading from adc, size_ret:%d" [size_ret env]]).

(** One turn of the task from the test of [while (streaming)], with the
    state as it is at the test: when the flag is set, the wait for the
    signal and one pass through the body; when it is not, the 100 ms
    delay of the outer loop.  The other task is taken not to write the
    state between the test and the end of the pass; [Tasks] below lets it
    run in between. *)
Definition adc_conv_task_step (d : device) (env : cycle_env) : device * list call :=
  if streaming d then adc_cycle d env else (d, [vTaskDelay 100]).

(** The state when [app_main] has started the two tasks: the handles are
    those the host registered. *)
Definition boot (data_handle control_handle : Z) : device :=
  mk_device false 0 data_handle control_handle 0 (replicate (Z.to_nat PACKET_SIZE) 0).
End Main.

(** ** The device as a whole *)

(** The two tasks, and what makes them run: a conversion-complete signal
    for the acquisition task, a GAP event or an access to a
    characteristic for the host task.  In [step] each is run to
    completion, and the turn of the acquisition task is the whole of
    [adc_conv_task_step], the test of the flag included: no event of the
    host falls between the test and the signal.  [Tasks.step] below
    separates the two. *)
Inductive task := adc_conv_task | nimble_host_task.

Inductive input :=
  | wake_acquisition (env : Main.cycle_env)
  | gap_event (event : Gap.ble_gap_event) (env : Gap.gap_env)
  | gatt_access (conn attr_handle : Z) (ctxt : Gatt.ble_gatt_access_ctxt) (env : Gatt.host_env).

Definition task_of (i : input) : task :=
  match i with
  | wake_acquisition _ => adc_conv_task
  | _ => nimble_host_task
  end.

Definition step (d : device) (i : input) : option (device * list call) :=
  match i with
  | wake_acquisition env => Some (Main.adc_conv_task_step d env)
  | gap_event event env =>
      let '(d', calls, _) := Gap.gap_event_handler d event env in Some (d', calls)
  | gatt_access conn attr_handle ctxt env =>
      '(d', calls, _) ← Gatt.gatt_svr_chr_access_cb d conn attr_handle ctxt env;
      Some (d', calls)
  end.

(** A run: the final state and the calls made, each with its task. *)
Fixpoint run (d : device) (inputs : list input) : option (device * list (task * call)) :=
  match inputs with
  | [] => Some (d, [])
  | i :: rest =>
      '(d', calls) ← step d i;
      '(d'', trace) ← run d' rest;
      Some (d'', map (pair (task_of i)) calls ++ trace)
  end.

(** ** Vocabulary of the properties *)

(** The flat buffers a list of calls hands to the host, and the
    notifications it asks for. *)
Definition flats (calls : list call) : list (list Z) :=
  flat_map (fun c => match c with ble_hs_mbuf_from_flat b => [b] | _ => [] end) calls.

Definition notifications (calls : list call) : list (Z * Z * list Z) :=
  flat_map (fun c => match c with
                     | ble_gatts_notify_custom conn attr om => [(conn, attr, om)]
                     | _ => []
                     end) calls.

(** The data packets of a trace: the flat buffers the acquisition task
    handed to the host, in order. *)
Definition calls_of (t : task) (trace : list (task * call)) : list call :=
  flat_map (fun tc => match fst tc, t with
                      | adc_conv_task, adc_conv_task => [snd tc]
                      | nimble_host_task, nimble_host_task => [snd tc]
                      | _, _ => []
                      end) trace.

Definition packets (trace : list (task * call)) : list (list Z) :=
  flats (calls_of adc_conv_task trace).


(** Byte [i] of a buffer. *)
Definition byte_at (pkt : list Z) (i : Z) : Z := default 0 (pkt !! Z.to_nat i).

(** The raw code of channel [i] at tick [j] of a conversion frame. *)
Definition raw (result : list Z) (j i : Z) : Z :=
  Main.type2_data result ((i + j * Main.NUM_CHANNELS) * Main.SOC_ADC_DIGI_RESULT_BYTES).

(** A value clamped to 16 bits. *)
Definition clamp16 (v : Z) : Z := Z.min v 65535.

Definition high_byte (v : Z) : Z := Z.land (Z.shiftr v 8) 255.
Definition low_byte (v : Z) : Z := Z.land v 255.

(** Row [j] of a packet as the two loops write it, and the first [n] rows
    of a cycle that starts with the counter at [c]. *)
Definition packet_row (result : list Z) (seq_no : Z) (j : Z) : list Z :=
  [ seq_no;
    high_byte (uint16_t (Main.MAP (raw result j 0))); low_byte (uint16_t (Main.MAP (raw result j 0)));
    high_byte (uint16_t (Main.MAP (raw result j 1))); low_byte (uint16_t (Main.MAP (raw result j 1)));
    high_byte (uint16_t (Main.MAP (raw result j 2))); low_byte (uint16_t (Main.MAP (raw result j 2))) ].

Definition packet_rows (result : list Z) (c : Z) (n : nat) : list Z :=
  flat_map (fun j => packet_row result ((c + Z.of_nat j) mod 256) (Z.of_nat j)) (seq 0 n).

(** The variables of the device hold values of their C types: the counter
    is a [uint8_t], the packet buffer has [PACKET_SIZE] bytes. *)
Definition well_typed (d : device) : Prop :=
  0 <= counter d < 256 /\ length (chords_packet d) = Z.to_nat Main.PACKET_SIZE.

(** A read the acquisition task accepts. *)
Definition frame_ok (env : Main.cycle_env) : Prop :=
  Main.ret env = ESP_OK /\ Main.size_ret env = Main.CONV_FRAME_SIZE.

(** The battery percentage a cycle computes from its frame. *)
Abbreviation cycle_percent d env :=
  (Main.battery_percent
     (Main.battery_voltage
        (Z.quot (Main.l_battery_reading (Main.build_packet (Main.result env) d))
                Main.PACKET_LEN))) (only parsing).

(** A write of [data] to a characteristic. *)
Definition write_of (data : list Z) : Gatt.ble_gatt_access_ctxt :=
  Gatt.mk_ctxt Gatt.BLE_GATT_ACCESS_OP_WRITE_CHR data.

(** The upper-cased payload starts with the command [cmd]. *)
Definition uppercased_prefix (cmd : string) (data : list Z) : Prop :=
  take (String.length cmd) (map toupper data) = bytes_of_string cmd.

(** ** Sample inputs *)

(** One conversion result as the driver stores it: the 12 bits of [data],
    then the channel number. *)
Definition sample_word (data channel : Z) : list Z :=
  [ data mod 256; Z.lor (data / 256) (Z.shiftl (channel mod 8) 5); channel / 8; 0 ].

(** A frame of 25 ticks whose three signal channels ramp and whose battery
    channel reads [batt]. *)
Definition sample_frame (batt : Z) : list Z :=
  flat_map (fun j => sample_word (100 + 150 * Z.of_nat j) 0
                     ++ sample_word (4095 - 3 * Z.of_nat j) 1
                     ++ sample_word (7 * Z.of_nat j) 2
                     ++ sample_word batt 6)
           (seq 0 25).

Definition sample_read (batt : Z) : Main.cycle_env :=
  Main.mk_cycle_env ESP_OK Main.CONV_FRAME_SIZE (sample_frame batt) true 0.

(** A read that returns one byte less than a frame. *)
Definition short_read : Main.cycle_env :=
  Main.mk_cycle_env ESP_OK (Main.CONV_FRAME_SIZE - 1) (sample_frame 2000) true 0.

Definition sample_device : device := Main.boot 12 14.
Definition streaming_device : device := set_streaming true (set_conn_handle 1 sample_device).

Definition host_ok : Gatt.host_env := Gatt.mk_host_env true 0 0.
Definition gap_ok : Gap.gap_env := Gap.mk_gap_env 0 1 0 1 24 0 400 0 0 0 0 0 0.


(** ** The two tasks, interleaved *)

Module Tasks.

(** Where the acquisition task stands while the other task runs: at the
    test of [while (streaming)], or in [ulTaskNotifyTake], which it
    reaches only through a test that found the flag set. *)
Inductive location := at_test | in_wait.

(** The state of the whole: the variables of the program, the place of
    the acquisition task and what the program has asked of the platform:
    sampling runs from the [adc_continuous_start] of the task until
    [adc_continuous_stop], the host until [nimble_port_stop]. *)
Record system := mk_system {
  dev : device;
  acquisition : location;
  sampling : bool;
  host_running : bool;
}.

Definition set_dev (d : device) (s : system) : system :=
  mk_system d (acquisition s) (sampling s) (host_running s).

(** The state when the acquisition task reaches its loop. *)
Definition boot (data_handle control_handle : Z) : system :=
  mk_system (Main.boot data_handle control_handle) at_test true true.

(** What happens next: the acquisition task evaluates the test of
    [while (streaming)], or an input arrives.  Here [wake_acquisition] is
    the signal alone, with what the platform answers during the pass that
    the signal starts. *)
Inductive moment :=
  | flag_test
  | arrival (i : input).

Definition task_of_moment (m : moment) : task :=
  match m with
  | flag_test => adc_conv_task
  | arrival i => task_of i
  end.

Definition stops_sampling (calls : list call) : bool :=
  existsb (fun c => match c with adc_continuous_stop => true | _ => false end) calls.

Definition stops_host (calls : list call) : bool :=
  existsb (fun c => match c with nimble_port_stop => true | _ => false end) calls.

(** One moment.  The test sends the task into the wait when the flag is
    set and into the 100 ms delay when it is not.  The signal ends the
    wait and the body runs, whatever the flag has become since the test;
    a signal that does not find the task in the wait is kept by the
    kernel until the task waits, which a later signal stands for.  An
    event or an access is handled where the acquisition task stands. *)
Definition step (s : system) (m : moment) : option (system * list call) :=
  match m with
  | flag_test =>
      match acquisition s with
      | at_test =>
          if streaming (dev s)
          then Some (mk_system (dev s) in_wait (sampling s) (host_running s), [])
          else Some (s, [vTaskDelay 100])
      | in_wait => Some (s, [])
      end
  | arrival (wake_acquisition env) =>
      match acquisition s with
      | in_wait =>
          let '(d', calls) := Main.adc_cycle (dev s) env in
          Some (mk_system d' at_test
                          (sampling s && negb (stops_sampling calls))
                          (host_running s && negb (stops_host calls)),
                calls)
      | at_test => Some (s, [])
      end
  | arrival (gap_event event env) =>
      let '(d', calls, _) := Gap.gap_event_handler (dev s) event env in
      Some (set_dev d' s, calls)
  | arrival (gatt_access conn attr_handle ctxt env) =>
      '(d', calls, _) ← Gatt.gatt_svr_chr_access_cb (dev s) conn attr_handle ctxt env;
      Some (set_dev d' s, calls)
  end.

(** A run: the final state and the calls made, each with its task. *)
Fixpoint run (s : system) (ms : list moment) : option (system * list (task * call)) :=
  match ms with
  | [] => Some (s, [])
  | m :: rest =>
      '(s', calls) ← step s m;
      '(s'', trace) ← run s' rest;
      Some (s'', map (pair (task_of_moment m)) calls ++ trace)
  end.



(** The run of [run] as an interleaving: the task tests its flag just
    before each signal. *)
Definition schedule (inputs : list input) : list moment :=
  flat_map (fun i => match i with
                     | wake_acquisition _ => [flag_test; arrival i]
                     | _ => [arrival i]
                     end) inputs.
End Tasks.







(** ** Vocabulary of the battery estimator *)

(** Rounding of a quotient of integers to 24 digits, as the operations
    of the [float] type do it; the voltages of the table in units of
    their last place. *)

(** Position of [A/b] between two integers. *)
Definition loc_code (A b : Z) : location :=
  if A mod b =? 0 then loc_Exact else loc_Inexact (Z.compare (2 * (A mod b)) b).

(** [A/b] rounded to the nearest integer, ties to even. *)
Definition rnd (A b : Z) : Z := round_nearest_even (A / b) (loc_code A b).

(** The record the shifts work on, for [A/b]. *)
Definition record_of (A b : Z) : shr_record := shr_record_of_loc (A / b) (loc_code A b).

(** The float of mantissa [m], between 2^23 and 2^24, and exponent [e]. *)
Definition pack (m e : Z) : spec_float :=
  if m =? 2 ^ 24 then S754_finite false (Z.to_pos (2 ^ 23)) (e + 1)
  else S754_finite false (Z.to_pos m) e.

(** [a/b] lies in the binade whose unit is [2^(-t)]. *)
Definition binade (a b t : Z) : Prop := 2 ^ 23 * b <= a * 2 ^ t < 2 ^ 24 * b.

(** The float nearest to [a/b], for [a/b] in that binade. *)
Definition RN (a b t : Z) : spec_float := pack (rnd (a * 2 ^ t) b) (- t).

(** The float of the positive integer [N], below 2^24, counted in units
    of [2^e0]. *)
Definition canon (N e0 : Z) : spec_float := binary_normalize 24 128 N e0 false.

(** The interpolation with the two differences already computed. *)
Definition interp_float (pa : Z) (dv dK : spec_float) : spec_float :=
  Float.fadd (Float.float_of_int pa)
             (Float.fdiv (Float.fmul dv (Float.float_of_int 5)) dK).

(** Mantissa and exponent of a finite float. *)
Definition mantissa (x : spec_float) : Z :=
  match x with S754_finite _ m _ => Zpos m | _ => 0 end.
Definition exponent (x : spec_float) : Z :=
  match x with S754_finite _ _ e => e | _ => 0 end.

(** A positive normal float of the binades [2,4) and [4,8). *)
Definition in_range (x : spec_float) : bool :=
  match x with
  | S754_finite false m e =>
      (2 ^ 23 <=? Zpos m) && (Zpos m <? 2 ^ 24) && (-22 <=? e) && (e <=? -21)
  | _ => false
  end.

(** The value of [x] in units of [2^e0]. *)
Definition units (e0 : Z) (x : spec_float) : Z := mantissa x * 2 ^ (exponent x - e0).

(** How far [v] is above the anchor [a], in units of the last place of
    the anchor; the width of a segment in these units. *)
Definition above (a : Main.batt_point_t) (v : spec_float) : Z :=
  units (exponent (Main.voltage a)) v
  - units (exponent (Main.voltage a)) (Main.voltage a).

Definition seg_K (a b : Main.batt_point_t) : Z := above a (Main.voltage b).

(** The result of the code on the voltage [k] units above the lower
    anchor of the segment. *)
Definition seg_T (a b : Main.batt_point_t) (k : Z) : Z :=
  Float.trunc (interp_float (Main.percent a)
                            (canon k (exponent (Main.voltage a)))
                            (canon (seg_K a b) (exponent (Main.voltage a)))).

(** What is computed once for each segment of the table: both anchors
    are in range and in order, the segment is narrow enough for [5 * k]
    to be exact, the percentages are 5 apart, and the lower anchor gets
    its own percentage. *)
Definition seg_check (a b : Main.batt_point_t) : bool :=
  in_range (Main.voltage a) && in_range (Main.voltage b)
  && (exponent (Main.voltage a) <=? exponent (Main.voltage b))
  && (0 <? seg_K a b) && (5 * seg_K a b <? 2 ^ 24)
  && ((Main.percent a =? 0) || ((4 <=? Main.percent a) && (Main.percent a <=? 95)))
  && (Main.percent b =? Main.percent a + 5)
  && (seg_T a b 0 =? Main.percent a).

(** The pairs of adjacent anchors. *)
Fixpoint segments (table : list Main.batt_point_t)
  : list (Main.batt_point_t * Main.batt_point_t) :=
  match table with
  | a :: (b :: _) as rest => (a, b) :: segments rest
  | _ => []
  end.

(** The check on every segment of a table. *)
Fixpoint chain_check (table : list Main.batt_point_t) : bool :=
  match table with
  | a :: (b :: _) as rest => seg_check a b && chain_check rest
  | _ => true
  end.

(** [batt_table[0]] and [batt_table[batt_table_len - 1]]. *)
Definition lowest_anchor : Main.batt_point_t := hd Main.batt_first Main.batt_table.
Definition highest_anchor : Main.batt_point_t := List.last Main.batt_table Main.batt_last.

(** The rational number a float stands for. *)
Definition to_Q (x : spec_float) : Q :=
  match x with
  | S754_finite s m e =>
      match e with
      | Z0 => inject_Z (cond_Zopp s (Zpos m))
      | Zpos p => inject_Z (cond_Zopp s (Zpos m) * 2 ^ Zpos p)
      | Zneg p => Qmake (cond_Zopp s (Zpos m)) (2 ^ p)%positive
      end
  | _ => 0%Q
  end.

(** The linear interpolation of the percentages of [a] and [b] at [v], as
    a rational number. *)
Definition linear_interpolation (a b : Main.batt_point_t) (v : spec_float) : Q :=
  (inject_Z (Main.percent a)
   + inject_Z (Main.percent b - Main.percent a)
     * (to_Q v - to_Q (Main.voltage a))
     / (to_Q (Main.voltage b) - to_Q (Main.voltage a)))%Q.

(** ** neopixel.c: the colour of a pixel *)

Definition uint32_t (x : Z) : Z := x mod 4294967296.

Module Pixels.
Import Float.

(** The constant [num/den] written with the suffix [f]: rounded once, to
    [float]. *)
Definition float_const (num den : Z) : float := fdiv (float_of_int num) (float_of_int den).

(** Conversion of a [float] to [uint32_t]: toward zero, and undefined
    when the integral part is not a value of the type. *)
Definition to_uint32 (x : float) : option Z :=
  match x with
  | S754_nan | S754_infinity _ => None
  | _ => if (0 <=? trunc x) && (trunc x <? 4294967296) then Some (trunc x) else None
  end.

(** [led_strip_hsv2rgb]: the values stored through [r], [g] and [b].  The
    three parameters are [uint32_t], and so is the arithmetic on them. *)
Definition led_strip_hsv2rgb (h s v : Z) : option (Z * Z * Z) :=
  let h := h mod 360 in
  rgb_max ← to_uint32 (fmul (float_of_int v) (float_const 255 100));
  rgb_min ← to_uint32 (fdiv (float_of_int (uint32_t (rgb_max * uint32_t (100 - s))))
                            (float_of_int 100));
  let i := h / 60 in
  let diff := h mod 60 in
  let rgb_adj := uint32_t (uint32_t (rgb_max - rgb_min) * diff) / 60 in
  Some (match i with
        | 0 => (rgb_max, uint32_t (rgb_min + rgb_adj), rgb_min)
        | 1 => (uint32_t (rgb_max - rgb_adj), rgb_max, rgb_min)
        | 2 => (rgb_min, rgb_max, uint32_t (rgb_min + rgb_adj))
        | 3 => (rgb_min, uint32_t (rgb_max - rgb_adj), rgb_max)
        | 4 => (uint32_t (rgb_min + rgb_adj), rgb_min, rgb_max)
        | _ => (rgb_max, rgb_min, uint32_t (rgb_max - rgb_adj))
        end).

(** [set_pixel], what it does to the static array [pixels]: nothing for
    a pixel number that is refused, three stores for the others. *)
Definition set_pixel (pixels : list Z) (pixel_num : Z) (color : color_t) (brightness : Z)
  : option (list Z) :=
  if (pixel_num >? Neopixel.NUM_NEOPIXEL - 1) || (pixel_num <? 0) then Some pixels
  else
    '(color_r, color_g, color_b) ← led_strip_hsv2rgb (hue color) 100 brightness;
    pixels ← Gatt.store pixels (Z.to_nat (pixel_num * 3 + 0)) (uint8_t color_g);
    pixels ← Gatt.store pixels (Z.to_nat (pixel_num * 3 + 1)) (uint8_t color_b);
    Gatt.store pixels (Z.to_nat (pixel_num * 3 + 2)) (uint8_t color_r).
End Pixels.

(** The three bytes of a pixel in one of the named colours, at the level
    [m], in the order of the array. *)
Definition color_bytes (color : color_t) (m : Z) : list Z :=
  match color with
  | RED => [0; m; 0]
  | YELLOW => [m; m; 0]
  | GREEN => [m; 0; 0]
  | CYAN => [m; 0; m]
  | BLUE => [0; 0; m]
  | MAGENTA => [0; m; m]
  end.

(** The values [0 .. n-1]. *)
Definition below (n : nat) : list Z := map Z.of_nat (seq 0 n).

(** ** gap.c: the address of the device *)

Module GapAddr.

(** The digit of [n], below 16, in upper-case hexadecimal. *)
Definition hex_digit (n : Z) : Z := if n <? 10 then 48 + n else 55 + n.

(** [%02X] on a [uint8_t]: two digits. *)
Definition format_02X (b : Z) : list Z := [hex_digit (b / 16); hex_digit (b mod 16)].

(** [sprintf (buf, ...)] for an output [s]: the characters and the
    terminator are stored from the start of [buf]. *)
Definition sprintf (buf s : list Z) : option (list Z) :=
  if (length s + 1 <=? length buf)%nat
  then Some (s ++ 0 :: drop (length s + 1) buf)
  else None.

(** [format_addr (addr_str, addr)]: the six bytes of [addr], two digits
    each, with colons between them. *)
Definition format_addr (addr_str addr : list Z) : option (list Z) :=
  a0 ← addr !! 0%nat; a1 ← addr !! 1%nat; a2 ← addr !! 2%nat;
  a3 ← addr !! 3%nat; a4 ← addr !! 4%nat; a5 ← addr !! 5%nat;
  sprintf addr_str
    (format_02X a0 ++ 58 :: format_02X a1 ++ 58 :: format_02X a2 ++ 58 ::
     format_02X a3 ++ 58 :: format_02X a4 ++ 58 :: format_02X a5).

(** What the host answers to [adv_init]: the results of its three calls
    and the address it copies into [addr_val]. *)
Record adv_env := mk_adv_env {
  ensure_addr_rc : Z;
  infer_auto_rc : Z;
  copy_addr_rc : Z;
  addr_val : list Z;
}.

(** [adv_init]: the calls made; the address is logged as the string
    [format_addr] leaves in [addr_str]. *)
Definition adv_init (env : adv_env) (genv : Gap.gap_env) : option (list call) :=
  if negb (ensure_addr_rc env =? 0) then
    Some [ESP_LOGE Gap.TAG "device does not have any available bt address!" []]
  else if negb (infer_auto_rc env =? 0) then
    Some [ESP_LOGE Gap.TAG "failed to infer address type, error code: %d" [infer_auto_rc env]]
  else if negb (copy_addr_rc env =? 0) then
    Some [ESP_LOGE Gap.TAG "failed to copy device address, error code: %d" [copy_addr_rc env]]
  else
    addr_str ← format_addr (replicate 18 0) (addr_val env);
    Some (ESP_LOGI Gap.TAG "device address: %s" addr_str :: Gap.start_advertising genv).
End GapAddr.

(** A character of an address string: a digit, a letter from A to F or a
    colon. *)
Definition is_addr_char (c : Z) : Prop := 48 <= c <= 58 \/ 65 <= c <= 70.

(** ** gatt.c: the registration of the attributes *)

Module GattInit.

(** An identifier: its type (16, 32 or 128) and the bytes of its value. *)
Record ble_uuid_t := mk_uuid { uuid_type : Z; uuid_value : list Z }.

Definition BLE_UUID_TYPE_128 : Z := 128.

Definition svc_uuid : ble_uuid_t :=
  mk_uuid BLE_UUID_TYPE_128
    [75; 145; 49; 195; 201; 197; 204; 143; 158; 69; 181; 31; 1; 194; 175; 79].

Definition data_char_uuid : ble_uuid_t :=
  mk_uuid BLE_UUID_TYPE_128
    [168; 38; 27; 54; 7; 234; 245; 183; 136; 70; 225; 54; 62; 72; 181; 190].

Definition control_char_uuid : ble_uuid_t :=
  mk_uuid BLE_UUID_TYPE_128
    [251; 52; 155; 95; 128; 0; 0; 128; 0; 16; 0; 0; 1; 255; 0; 0].

(** The test [ble_uuid_cmp (a, b) == 0]: the two identifiers have the
    same type and the same value. *)
Definition ble_uuid_eq (a b : ble_uuid_t) : bool :=
  (uuid_type a =? uuid_type b) && bool_decide (uuid_value a = uuid_value b).

(** What the host registers: a service, a characteristic with its
    definition and value handles, a descriptor, or something else. *)
Inductive ble_gatt_register_ctxt :=
  | BLE_GATT_REGISTER_OP_SVC (uuid : ble_uuid_t) (handle : Z)
  | BLE_GATT_REGISTER_OP_CHR (uuid : ble_uuid_t) (def_handle val_handle : Z)
  | BLE_GATT_REGISTER_OP_DSC (uuid : ble_uuid_t) (handle : Z)
  | BLE_GATT_REGISTER_OP_OTHER.

Definition set_data_char_handle (h : Z) (d : device) : device :=
  mk_device (streaming d) (conn_handle d) h (control_char_handle d)
            (counter d) (chords_packet d).

Definition set_control_char_handle (h : Z) (d : device) : device :=
  mk_device (streaming d) (conn_handle d) (data_char_handle d) h
            (counter d) (chords_packet d).

Definition ESP_LOGD := esp_log ESP_LOG_DEBUG.

(** [gatt_svr_register_cb]: the new state and the calls made; the
    identifier that the debug logs print is not among their arguments. *)
Definition gatt_svr_register_cb (d : device) (ctxt : ble_gatt_register_ctxt)
  : device * list call :=
  match ctxt with
  | BLE_GATT_REGISTER_OP_SVC uuid handle =>
      (d, [ESP_LOGD Gatt.TAG "registered service %s with handle %d" [handle]])
  | BLE_GATT_REGISTER_OP_CHR uuid def_handle val_handle =>
      let '(d1, c1) :=
        if ble_uuid_eq uuid data_char_uuid
        then (set_data_char_handle val_handle d,
              [ESP_LOGI Gatt.TAG "data_char_handle: %d" [val_handle]])
        else (d, []) in
      let '(d2, c2) :=
        if ble_uuid_eq uuid control_char_uuid
        then (set_control_char_handle val_handle d1,
              [ESP_LOGI Gatt.TAG "control_char_handle: %d" [val_handle]])
        else (d1, []) in
      (d2, c1 ++ c2
           ++ [ESP_LOGD Gatt.TAG "registered characteristic %s with handle %d" [def_handle]])
  | BLE_GATT_REGISTER_OP_DSC uuid handle =>
      (d, [ESP_LOGD Gatt.TAG "registered descriptor %s with handle %d" [handle]])
  | BLE_GATT_REGISTER_OP_OTHER => (d, [])
  end.

(** The state after the host has registered a list of attributes. *)
Definition register_all (d : device) (regs : list ble_gatt_register_ctxt) : device :=
  fold_left (fun d ctxt => fst (gatt_svr_register_cb d ctxt)) regs d.

(** The value handle of the last registration of the characteristic
    [uuid] in a list, if there is one. *)
Definition registered_handle (uuid : ble_uuid_t) (regs : list ble_gatt_register_ctxt)
  : option Z :=
  fold_left (fun acc ctxt =>
               match ctxt with
               | BLE_GATT_REGISTER_OP_CHR u _ val_handle =>
                   if ble_uuid_eq u uuid then Some val_handle else acc
               | _ => acc
               end) regs None.
End GattInit.

(** ** Vocabulary of the further properties *)

(** A write whose upper-cased payload starts with START. *)
Definition is_start_write (i : input) : Prop :=
  match i with
  | gatt_access _ _ ctxt _ =>
      Gatt.op ctxt = Gatt.BLE_GATT_ACCESS_OP_WRITE_CHR
      /\ uppercased_prefix "START" (Gatt.om_data ctxt)
  | _ => False
  end.

(** A moment that is no write of START. *)
Definition no_start (m : Tasks.moment) : Prop :=
  match m with
  | Tasks.arrival i => ~ is_start_write i
  | Tasks.flag_test => True
  end.

(** The task in its wait although the flag is clear: a STOP has arrived
    after its test. *)
Definition stopped_in_wait : Tasks.system :=
  Tasks.mk_system (set_conn_handle 1 sample_device) Tasks.in_wait true true.

(** The events on which the handler starts advertising again. *)
Definition ends_link_or_attempt (event : Gap.ble_gap_event) : Prop :=
  match event with
  | Gap.BLE_GAP_EVENT_CONNECT status _ => status <> 0
  | Gap.BLE_GAP_EVENT_DISCONNECT _ => True
  | Gap.BLE_GAP_EVENT_ADV_COMPLETE => True
  | _ => False
  end.

(** A byte. *)
Definition is_byte (b : Z) : Prop := 0 <= b < 256.

(** A session without START: connection, STATUS, a wake-up, STOP in lower
    case, a wake-up, link loss. *)
Definition quiet_session : list input :=
  [ gap_event (Gap.BLE_GAP_EVENT_CONNECT 0 1) gap_ok;
    gatt_access 1 14 (write_of (bytes_of_string "STATUS")) host_ok;
    wake_acquisition (sample_read 2000);
    gatt_access 1 14 (write_of (bytes_of_string "stop")) host_ok;
    wake_acquisition (sample_read 2000);
    gap_event (Gap.BLE_GAP_EVENT_DISCONNECT 19) gap_ok ].

(** The 100 twelve-bit codes of a conversion frame, in the order of the
    frame. *)
Definition codes (result : list Z) : list Z :=
  map (fun k => Main.type2_data result (4 * Z.of_nat k)) (seq 0 100).

(** The sum of a list of integers. *)
Definition sum_Z (l : list Z) : Z := fold_right Z.add 0 l.

(** The frame of [sample_frame] with other channel tags: every result is
    tagged with channel 5. *)
Definition retagged_frame (batt : Z) : list Z :=
  flat_map (fun j => sample_word (100 + 150 * Z.of_nat j) 5
                     ++ sample_word (4095 - 3 * Z.of_nat j) 5
                     ++ sample_word (7 * Z.of_nat j) 5
                     ++ sample_word batt 5)
           (seq 0 25).

(** * Properties *)

(** ** The command buffer of the access callback *)

Section CommandBuffer.
Import Gatt.

Lemma option_bind_Some {A B : Type} (f : A -> option B) (x : A) :
  (Some x ≫= f) = f x.
Proof. reflexivity. Qed.

Lemma store_Some (buf : list Z) (i : nat) (c : Z) :
  (i < length buf)%nat -> store buf i c = Some (<[i := c]> buf).
Proof.
  intros H. unfold store.
  destruct (decide (i < length buf)%nat); [reflexivity | contradiction].
Qed.

Lemma store_None (buf : list Z) (i : nat) (c : Z) :
  (length buf <= i)%nat -> store buf i c = None.
Proof.
  intros H. unfold store.
  destruct (decide (i < length buf)%nat); [lia | reflexivity].
Qed.

Lemma memcpy_ok (buf src : list Z) (n : nat) :
  (n <= length buf)%nat -> (n <= length src)%nat ->
  memcpy buf src n = Some (take n src ++ drop n buf).
Proof.
  intros H1 H2. unfold memcpy. now rewrite !bool_decide_eq_true_2 by assumption.
Qed.

Lemma uppercase_from_length (n : nat) : forall (buf buf' : list Z) (i0 : nat),
  uppercase_from buf i0 n = Some buf' -> length buf' = length buf.
Proof.
  induction n as [|n IH]; intros buf buf' i0 H; simpl in H.
  - now inversion H.
  - destruct (load buf i0) as [c|] eqn:Hl; simpl in H; [|discriminate].
    unfold store in H.
    destruct (decide (i0 < length buf)%nat); simpl in H; [|discriminate].
    apply IH in H. rewrite H. apply length_insert.
Qed.

(** The loop upper-cases the positions it goes through and nothing else. *)
Lemma uppercase_from_app (xs : list Z) : forall (pre post : list Z),
  uppercase_from (pre ++ xs ++ post) (length pre) (length xs)
  = Some (pre ++ map toupper xs ++ post).
Proof.
  induction xs as [|x xs IH]; intros pre post; simpl.
  - reflexivity.
  - unfold load. rewrite lookup_app_r by lia. rewrite Nat.sub_diag. simpl.
    rewrite store_Some by (rewrite length_app; simpl; lia).
    simpl.
    replace (<[length pre := toupper x]> (pre ++ x :: xs ++ post))
      with ((pre ++ [toupper x]) ++ xs ++ post).
    + replace (S (length pre)) with (length (pre ++ [toupper x]))
        by (rewrite length_app; simpl; lia).
      rewrite IH. now rewrite <- app_assoc.
    + rewrite insert_app_r_alt by lia. rewrite Nat.sub_diag. simpl.
      now rewrite <- app_assoc.
Qed.

(** A payload of at most 19 bytes: the buffer holds the payload in upper
    case, followed by zeroes. *)
Lemma cmd_buffer_of_short (ctxt : ble_gatt_access_ctxt) :
  (om_len ctxt <= 19)%nat ->
  cmd_buffer_of ctxt
  = Some (map toupper (om_data ctxt) ++ replicate (20 - om_len ctxt) 0).
Proof.
  intros Hlen. unfold cmd_buffer_of, om_len in *.
  set (data := om_data ctxt) in *.
  assert (Hcopy : (if (length data <? 19)%nat then length data else 19%nat) = length data).
  { destruct (Nat.ltb_spec (length data) 19); lia. }
  rewrite Hcopy. rewrite memcpy_ok by (rewrite ?length_replicate; lia).
  rewrite option_bind_Some.
  rewrite firstn_all, drop_replicate.
  pose proof (uppercase_from_app data [] (replicate (20 - length data) 0)) as Hup.
  simpl in Hup. rewrite Hup. rewrite option_bind_Some.
  rewrite store_Some by (rewrite length_app, length_map, length_replicate; lia).
  f_equal. rewrite insert_app_r_alt by (rewrite length_map; lia).
  rewrite length_map, Nat.sub_diag.
  destruct (20 - length data)%nat as [|k] eqn:Hk; [lia|]. reflexivity.
Qed.

(** A payload of 20 bytes or more: the loop or the terminator leaves the
    buffer. *)
Lemma cmd_buffer_of_long (ctxt : ble_gatt_access_ctxt) :
  (20 <= om_len ctxt)%nat -> cmd_buffer_of ctxt = None.
Proof.
  intros Hlen. unfold cmd_buffer_of, om_len in *.
  set (data := om_data ctxt) in *.
  assert (Hcopy : (if (length data <? 19)%nat then length data else 19%nat) = 19%nat).
  { destruct (Nat.ltb_spec (length data) 19); lia. }
  rewrite Hcopy. rewrite memcpy_ok by (rewrite ?length_replicate; lia).
  rewrite option_bind_Some.
  destruct (uppercase_from _ 0 (length data)) as [buf|] eqn:Hup; [|reflexivity].
  rewrite option_bind_Some.
  apply uppercase_from_length in Hup.
  apply store_None.
  rewrite Hup, length_app, length_take, length_drop, length_replicate. lia.
Qed.

(** The indices listed by [cmd_buffer_accesses] stay inside the 20 bytes
    exactly when the preparation is defined, that is for payloads of at
    most 19 bytes. *)
Lemma cmd_buffer_in_bounds_iff (ctxt : ble_gatt_access_ctxt) :
  Forall (fun a => (index_of a < 20)%nat) (cmd_buffer_accesses ctxt)
  <-> (om_len ctxt <= 19)%nat.
Proof.
  unfold cmd_buffer_accesses. split.
  - intros H. rewrite !Forall_app in H. destruct H as (_ & _ & H).
    inversion H as [|? ? Hi _]; subst. simpl in Hi. lia.
  - intros Hlen. rewrite !Forall_app. repeat split.
    + apply Forall_forall. intros a Ha. apply list_elem_of_In, in_map_iff in Ha.
      destruct Ha as (i & <- & Hi). apply in_seq in Hi. simpl.
      destruct (Nat.ltb_spec (om_len ctxt) 19); lia.
    + apply Forall_forall. intros a Ha. apply list_elem_of_In, in_flat_map in Ha.
      destruct Ha as (i & Hi & Ha). apply in_seq in Hi.
      destruct Ha as [<-|[<-|[]]]; simpl; lia.
    + constructor; [simpl; lia | constructor].
Qed.

Lemma cmd_buffer_defined_iff (ctxt : ble_gatt_access_ctxt) :
  is_Some (cmd_buffer_of ctxt) <-> (om_len ctxt <= 19)%nat.
Proof.
  split.
  - intros [buf Hb]. destruct (le_lt_dec (om_len ctxt) 19) as [H|H]; [exact H|].
    rewrite cmd_buffer_of_long in Hb by lia. discriminate.
  - intros H. rewrite cmd_buffer_of_short by exact H. eauto.
Qed.

(** [strncmp] against a literal over its whole length is a test of
    prefix. *)
Lemma strncmp_prefix (p : list Z) : forall (xs : list Z) (k : nat),
  Forall (fun c => c <> 0) p ->
  strncmp (xs ++ replicate k 0) p (length p) = 0 <-> take (length p) xs = p.
Proof.
  induction p as [|c p IH]; intros xs k Hp; simpl.
  - split; [intros _; now rewrite take_0 | reflexivity].
  - inversion Hp as [|? ? Hc Hp']; subst.
    destruct xs as [|x xs]; simpl.
    + assert (Hhd : hd 0 (replicate k 0) = 0) by (destruct k; reflexivity).
      rewrite Hhd. destruct (Z.eqb_spec 0 c) as [Heq|Hne]; [congruence|].
      split; [lia | discriminate].
    + destruct (Z.eqb_spec x c) as [->|Hne].
      * destruct (Z.eqb_spec c 0) as [Heq|_]; [congruence|].
        rewrite IH by assumption.
        split; [intros Ht; cbn; now rewrite Ht | intros Ht; cbn in Ht; congruence].
      * split; [lia | intros Ht; cbn in Ht; congruence].
Qed.

End CommandBuffer.

(** ** Decoding a command *)

Section Commands.
Import Gatt.

Lemma prefix_test (cmd : string) (data : list Z) (k : nat) :
  Forall (fun c => c <> 0) (bytes_of_string cmd) ->
  length (bytes_of_string cmd) = String.length cmd ->
  (strncmp (map toupper data ++ replicate k 0) (bytes_of_string cmd) (String.length cmd) =? 0) = true
  <-> uppercased_prefix cmd data.
Proof.
  intros Hnz Hlen. unfold uppercased_prefix. rewrite <- Hlen, Z.eqb_eq.
  now apply strncmp_prefix.
Qed.

(** Two prefixes of one payload agree on the shorter one. *)
Lemma prefixes_agree (c1 c2 : string) (data : list Z) :
  uppercased_prefix c1 data -> uppercased_prefix c2 data ->
  (String.length c1 <= String.length c2)%nat ->
  take (String.length c1) (bytes_of_string c2) = bytes_of_string c1.
Proof.
  unfold uppercased_prefix. intros H1 H2 Hle.
  rewrite <- H2, take_take, Nat.min_l by exact Hle. exact H1.
Qed.

Ltac literal_facts :=
  first [ solve [repeat constructor; discriminate] | reflexivity ].

Ltac clash H1 H2 :=
  let Hc := fresh "Hclash" in
  first [ pose proof (prefixes_agree _ _ _ H1 H2 ltac:(simpl; lia)) as Hc
        | pose proof (prefixes_agree _ _ _ H2 H1 ltac:(simpl; lia)) as Hc ];
  discriminate Hc.

Ltac decide_test cmd n data k :=
  let E := fresh "E" in
  let P := fresh "P" in
  destruct (strncmp (map toupper data ++ replicate k 0) (bytes_of_string cmd) n =? 0) eqn:E;
  [ pose proof (proj1 (prefix_test cmd data k ltac:(literal_facts) ltac:(literal_facts)) E) as P
  | assert (P : ~ uppercased_prefix cmd data)
      by (intros P; apply (prefix_test cmd data k ltac:(literal_facts) ltac:(literal_facts)) in P;
          simpl String.length in P; congruence) ].

(** What [decode] answers on a prepared buffer, by the prefix of the
    payload. *)
Lemma decode_by_prefix (d : device) (data : list Z) (k : nat) :
  let buf := map toupper data ++ replicate k 0 in
  (uppercased_prefix "START" data ->
     decode d buf = (set_streaming true d,
                     [led_strip_show 0 BLUE 10;
                      ESP_LOGI TAG "Command: START received, streaming started." []],
                     "RUNNING"%string))
  /\ (uppercased_prefix "STOP" data ->
     decode d buf = (set_streaming false d,
                     [led_strip_show 0 GREEN 10;
                      ESP_LOGI TAG "Command: STOP received, streaming stopped." []],
                     "STOPPED"%string))
  /\ (uppercased_prefix "WHORU" data ->
     decode d buf = (d, [ESP_LOGI TAG "Command: WHORU received." []], "NPG-LITE"%string))
  /\ (uppercased_prefix "STATUS" data ->
     decode d buf = (d, [ESP_LOGI TAG "Command: STATUS received." []], status_string d))
  /\ (~ uppercased_prefix "START" data -> ~ uppercased_prefix "STOP" data ->
      ~ uppercased_prefix "WHORU" data -> ~ uppercased_prefix "STATUS" data ->
     decode d buf = (d, [], "UNKNOWN COMMAND"%string)).
Proof.
  intros buf. subst buf. unfold decode.
  decide_test "START"%string 5%nat data k; decide_test "STOP"%string 4%nat data k;
    decide_test "WHORU"%string 5%nat data k; decide_test "STATUS"%string 6%nat data k;
    repeat split; intros; try reflexivity; try contradiction;
    match goal with
    | H1 : uppercased_prefix ?a data, H2 : uppercased_prefix ?b data |- _ =>
        lazymatch a with b => fail | _ => clash H1 H2 end
    end.
Qed.


End Commands.

(** ** The command protocol *)

Lemma set_streaming_same (d : device) : set_streaming (streaming d) d = d.
Proof. now destruct d. Qed.

(** C2.  The claim is that every ASCII payload is decoded by its
    upper-cased prefix.  It holds for the payloads of at most 19 bytes
    ([short_write_decoded]); at this 20-byte payload, whose prefix is START,
    the callback stores the terminator past the end of [cmd_buffer] and
    has no defined answer. *)
Theorem long_start_write_undefined (d : device) (conn attr : Z) (env : Gatt.host_env) :
  let data := bytes_of_string "STARTSTARTSTARTSTART" in
  length data = 20%nat
  /\ uppercased_prefix "START" data
  /\ Gatt.gatt_svr_chr_access_cb d conn attr (write_of data) env = None.
Proof.
  cbv zeta. split; [reflexivity|]. split; [reflexivity|].
  unfold Gatt.gatt_svr_chr_access_cb. cbn [Gatt.op write_of].
  rewrite cmd_buffer_of_long; [reflexivity | cbn; lia].
Qed.


(** C9.  The claim is that every access to [cmd_buffer] stays inside its
    20 bytes.  At a payload of 20 bytes the terminator is stored at index
    20, one past the last byte, and at 21 bytes the upper-casing loop
    loads and stores index 20 as well; the accesses stay inside exactly
    for the payloads of at most 19 bytes ([cmd_buffer_in_bounds_iff]). *)
Theorem terminator_stored_past_cmd_buffer :
  In (Gatt.Store 20) (Gatt.cmd_buffer_accesses (write_of (replicate 20 65)))
  /\ Gatt.cmd_buffer_of (write_of (replicate 20 65)) = None
  /\ In (Gatt.Load 20) (Gatt.cmd_buffer_accesses (write_of (replicate 21 65)))
  /\ Gatt.cmd_buffer_of (write_of (replicate 21 65)) = None.
Proof.
  split; [|split; [|split]].
  - unfold Gatt.cmd_buffer_accesses.
    apply in_or_app; right. apply in_or_app; right. now left.
  - reflexivity.
  - unfold Gatt.cmd_buffer_accesses.
    apply in_or_app; right. apply in_or_app; left.
    apply in_flat_map. exists 20%nat. split; [apply in_seq; cbn; lia | now left].
  - reflexivity.
Qed.

(** ** The packet a cycle builds *)

Section Packet.
Import Main.

Lemma for_loop_S {S : Type} (n : nat) (body : Z -> S -> S) (s : S) :
  for_loop (Datatypes.S n) body s = body (Z.of_nat n) (for_loop n body s).
Proof. unfold for_loop. rewrite seq_S, fold_left_app. reflexivity. Qed.

Lemma channel_loop_unrolled (result : list Z) (j : Z) (s : cycle_locals) :
  for_loop (Z.to_nat NUM_CHANNELS) (channel_body result j) s
  = channel_body result j 3
      (channel_body result j 2 (channel_body result j 1 (channel_body result j 0 s))).
Proof. reflexivity. Qed.

Lemma channel_body_sample (result : list Z) (j i : Z) (s : cycle_locals) :
  i < 3 ->
  channel_body result j i s
  = mk_locals
      (packet_store
         (packet_store (l_packet s) j (1 + i * 2) (high_byte (uint16_t (MAP (raw result j i)))))
         j (2 + i * 2) (low_byte (uint16_t (MAP (raw result j i)))))
      (l_counter s) (l_battery_reading s).
Proof.
  intros Hi. unfold channel_body. now rewrite (proj2 (Z.ltb_lt i 3) Hi).
Qed.

Lemma channel_body_battery (result : list Z) (j : Z) (s : cycle_locals) :
  channel_body result j 3 s
  = mk_locals (l_packet s) (l_counter s)
              (l_battery_reading s + uint16_t (MAP (raw result j 3 * 2))).
Proof. reflexivity. Qed.

Lemma packet_store_nat (pkt : list Z) (n : nat) (col v : Z) :
  0 <= col ->
  packet_store pkt (Z.of_nat n) col v = <[(7 * n + Z.to_nat col)%nat := v]> pkt.
Proof.
  intros Hc. unfold packet_store. f_equal. unfold SAMPLE_SIZE, NUM_CHANNELS. lia.
Qed.

Lemma tick_body_counter (result : list Z) (j : Z) (s : cycle_locals) :
  l_counter (tick_body result j s) = uint8_t (l_counter s + 1).
Proof. reflexivity. Qed.

(** One tick overwrites the seven bytes of its row and nothing else. *)
Lemma tick_body_packet (result : list Z) (n : nat) (s : cycle_locals)
      (pre old post : list Z) :
  l_packet s = pre ++ old ++ post ->
  length pre = (7 * n)%nat -> length old = 7%nat ->
  l_packet (tick_body result (Z.of_nat n) s)
  = pre ++ packet_row result (l_counter s) (Z.of_nat n) ++ post.
Proof.
  intros Hp Hpre Hold.
  do 7 (destruct old as [|? old]; [discriminate Hold|]).
  destruct old; [|discriminate Hold].
  unfold tick_body. rewrite channel_loop_unrolled, channel_body_battery.
  rewrite !channel_body_sample by lia.
  cbn [l_packet l_counter l_battery_reading].
  rewrite !packet_store_nat by lia. rewrite Hp, <- Hpre.
  cbn [Z.to_nat Z.add Z.mul Pos.to_nat Pos.iter_op Nat.add Pos.add Pos.mul Pos.succ].
  rewrite !insert_app_r. reflexivity.
Qed.

Lemma packet_rows_length (result : list Z) (c : Z) (n : nat) :
  length (packet_rows result c n) = (7 * n)%nat.
Proof.
  unfold packet_rows. induction n as [|n IH]; [reflexivity|].
  rewrite seq_S, flat_map_app, length_app, IH. cbn. lia.
Qed.

(** After [n] ticks the buffer starts with the [n] rows of the cycle and
    the counter has advanced by [n]. *)
Lemma tick_loop_packet (result : list Z) (pkt0 : list Z) (c : Z) (n : nat) :
  0 <= c < 256 -> (7 * n <= length pkt0)%nat ->
  l_packet (for_loop n (tick_body result) (mk_locals pkt0 c 0))
    = packet_rows result c n ++ drop (7 * n) pkt0
  /\ l_counter (for_loop n (tick_body result) (mk_locals pkt0 c 0))
    = (c + Z.of_nat n) mod 256.
Proof.
  intros Hc. induction n as [|n IH]; intros Hlen.
  - split; [reflexivity|]. cbn. rewrite Z.add_0_r, Z.mod_small; lia.
  - destruct IH as [IHp IHc]; [lia|]. rewrite for_loop_S. split.
    + assert (Hd : exists old, drop (7 * n) pkt0 = old ++ drop (7 * S n) pkt0
                               /\ length old = 7%nat).
      { exists (take 7 (drop (7 * n) pkt0)). split.
        - replace (7 * S n)%nat with (7 * n + 7)%nat by lia.
          rewrite <- drop_drop. now rewrite take_drop.
        - rewrite length_take, length_drop. lia. }
      destruct Hd as (old & Hd & Hold).
      rewrite (tick_body_packet result n _ (packet_rows result c n) old
                                (drop (7 * S n) pkt0)).
      * rewrite IHc. unfold packet_rows. rewrite seq_S, flat_map_app.
        cbn [flat_map Nat.add]. rewrite app_nil_r. now rewrite <- app_assoc.
      * now rewrite IHp, Hd.
      * apply packet_rows_length.
      * exact Hold.
    + rewrite tick_body_counter, IHc. unfold uint8_t.
      rewrite Zplus_mod_idemp_l. f_equal. lia.
Qed.

(** The packet of a cycle is the concatenation of its 25 rows. *)
Lemma build_packet_rows (result : list Z) (d : device) :
  well_typed d ->
  l_packet (build_packet result d) = packet_rows result (counter d) 25
  /\ l_counter (build_packet result d) = (counter d + 25) mod 256.
Proof.
  intros [Hc Hlen]. unfold build_packet.
  change (Z.to_nat PACKET_LEN) with 25%nat.
  destruct (tick_loop_packet result (chords_packet d) (counter d) 25 Hc) as [Hp Hcnt].
  - rewrite Hlen. vm_compute. lia.
  - split; [|exact Hcnt]. rewrite Hp, drop_ge, app_nil_r; [reflexivity|].
    rewrite Hlen. vm_compute. lia.
Qed.

Lemma packet_rows_lookup (result : list Z) (c : Z) (n j k : nat) :
  (j < n)%nat -> (k < 7)%nat ->
  packet_rows result c n !! (7 * j + k)%nat
  = packet_row result ((c + Z.of_nat j) mod 256) (Z.of_nat j) !! k.
Proof.
  intros Hj Hk. induction n as [|n IH]; [lia|].
  unfold packet_rows in *. rewrite seq_S, flat_map_app. cbn [flat_map Nat.add].
  rewrite app_nil_r.
  pose proof (packet_rows_length result c n) as Hlen. unfold packet_rows in Hlen.
  destruct (Nat.eq_dec j n) as [->|Hne].
  - rewrite lookup_app_r by lia. f_equal. lia.
  - rewrite lookup_app_l by lia. apply IH. lia.
Qed.

Lemma raw_range (result : list Z) (j i : Z) : 0 <= raw result j i < 4096.
Proof.
  unfold raw, type2_data. change 4095 with (Z.ones 12).
  rewrite Z.land_ones by lia. apply Z.mod_pos_bound. lia.
Qed.

(** On a 12-bit code the rescaled value fits 16 bits: the conversion to
    [uint16_t] and the clamp both leave it as it is. *)
Lemma mapped_value (x : Z) :
  0 <= x < 4096 -> uint16_t (MAP x) = clamp16 (x * 4095 / 3329) /\ 0 <= uint16_t (MAP x) < 65536.
Proof.
  intros Hx. unfold MAP, uint16_t, clamp16.
  rewrite Z.quot_div_nonneg by lia.
  assert (0 <= x * 4095 / 3329 <= 5037).
  { split; [apply Z.div_pos; lia|].
    change 5037 with (4095 * 4095 / 3329). apply Z.div_le_mono; lia. }
  rewrite Z.mod_small by lia. split; lia.
Qed.

Lemma high_low_bytes (v : Z) :
  0 <= v < 65536 -> high_byte v = v / 256 /\ low_byte v = v mod 256.
Proof.
  intros Hv. unfold high_byte, low_byte. change 255 with (Z.ones 8).
  rewrite !Z.land_ones by lia. rewrite Z.shiftr_div_pow2 by lia.
  change (2 ^ 8) with 256. split; [|reflexivity].
  apply Z.mod_small. split; [apply Z.div_pos; lia|].
  apply Z.div_lt_upper_bound; lia.
Qed.

Lemma battery_check_hands_nothing (r : Z) :
  flats (battery_check r) = [] /\ notifications (battery_check r) = [].
Proof. unfold battery_check. destruct (_ <? 5); split; reflexivity. Qed.

Lemma flats_app (a b : list call) : flats (a ++ b) = flats a ++ flats b.
Proof. unfold flats. apply flat_map_app. Qed.

Lemma notifications_app (a b : list call) :
  notifications (a ++ b) = notifications a ++ notifications b.
Proof. unfold notifications. apply flat_map_app. Qed.

Lemma send_packet_hands (d : device) (pkt : list Z) (env : cycle_env) :
  flats (send_packet d pkt env) = [take (Z.to_nat PACKET_SIZE) pkt]
  /\ notifications (send_packet d pkt env)
     = if om_alloc env
       then [(conn_handle d, data_char_handle d, take (Z.to_nat PACKET_SIZE) pkt)]
       else [].
Proof.
  unfold send_packet. destruct (om_alloc env); [|split; reflexivity].
  destruct (negb _); split; reflexivity.
Qed.

(** An accepted read: the state and the calls of the cycle. *)
Lemma adc_cycle_accepted (d : device) (env : cycle_env) :
  frame_ok env ->
  adc_cycle d env
  = (set_acquisition (l_counter (build_packet (result env) d))
                     (l_packet (build_packet (result env) d)) d,
     battery_check (Z.quot (l_battery_reading (build_packet (result env) d)) PACKET_LEN)
       ++ send_packet d (l_packet (build_packet (result env) d)) env).
Proof.
  intros [Hret Hsize]. unfold adc_cycle. now rewrite Hret, Hsize, !Z.eqb_refl.
Qed.

(** A refused read: the cycle logs and does nothing else. *)
Lemma adc_cycle_refused (d : device) (env : cycle_env) :
  ~ frame_ok env ->
  adc_cycle d env
  = (d, [ESP_LOGE "adc_conv_task" "Corrupted reading from adc, size_ret:%d" [size_ret env]]).
Proof.
  intros Hbad. unfold adc_cycle, frame_ok in *.
  destruct (Z.eqb_spec (ret env) ESP_OK); destruct (Z.eqb_spec (size_ret env) CONV_FRAME_SIZE);
    try reflexivity.
  exfalso. apply Hbad. now split.
Qed.

End Packet.

(** ** The acquisition cycle *)

(** C1.  For every correctly sized conversion frame read while streaming,
    the cycle builds a packet of exactly 25 rows of 7 bytes, 175 bytes in
    all, and hands that packet to the wireless host (the notification on
    the data characteristic follows as soon as the host gave a buffer).
    Row [j] starts with the rolling 8-bit counter, consecutive modulo 256
    over the rows, and each of its 3 channel values is
    [raw * 4095 / 3329] clamped to 16 bits, high byte first. *)
Theorem valid_frame_builds_packet (d : device) (env : Main.cycle_env) :
  well_typed d -> streaming d = true -> frame_ok env ->
  let d' := fst (Main.adc_conv_task_step d env) in
  let calls := snd (Main.adc_conv_task_step d env) in
  let pkt := chords_packet d' in
  length pkt = 175%nat
  /\ (forall j, 0 <= j < 25 ->
        byte_at pkt (7 * j) = (counter d + j) mod 256
        /\ forall i, 0 <= i < 3 ->
             let v := clamp16 (raw (Main.result env) j i * 4095 / 3329) in
             byte_at pkt (7 * j + 1 + 2 * i) = v / 256
             /\ byte_at pkt (7 * j + 2 + 2 * i) = v mod 256)
  /\ flats calls = [pkt]
  /\ notifications calls
     = if Main.om_alloc env then [(conn_handle d, data_char_handle d, pkt)] else [].
Proof.
  intros Hwt Hs Hok. unfold Main.adc_conv_task_step. rewrite Hs.
  rewrite adc_cycle_accepted by exact Hok. cbn [fst snd].
  destruct (build_packet_rows (Main.result env) d Hwt) as [Hp Hc].
  cbn [chords_packet set_acquisition]. cbv zeta.
  assert (Hlen : length (Main.l_packet (Main.build_packet (Main.result env) d)) = 175%nat)
    by (rewrite Hp; apply packet_rows_length).
  split; [exact Hlen|]. split.
  - intros j Hj.
    assert (Hrow : forall k, (k < 7)%nat ->
              Main.l_packet (Main.build_packet (Main.result env) d) !! (7 * Z.to_nat j + k)%nat
              = packet_row (Main.result env) ((counter d + j) mod 256) j !! k).
    { intros k Hk. rewrite Hp, packet_rows_lookup by lia. now rewrite Z2Nat.id by lia. }
    split.
    + unfold byte_at. replace (Z.to_nat (7 * j)) with (7 * Z.to_nat j + 0)%nat by lia.
      rewrite Hrow by lia. reflexivity.
    + intros i Hi.
      destruct (mapped_value (raw (Main.result env) j i) (raw_range _ _ _)) as [Hv Hr].
      destruct (high_low_bytes _ Hr) as [Hhi Hlo].
      assert (Hcases : i = 0 \/ i = 1 \/ i = 2) by lia.
      unfold byte_at.
      destruct Hcases as [-> | [-> | ->]].
      * replace (Z.to_nat (7 * j + 1 + 2 * 0)) with (7 * Z.to_nat j + 1)%nat by lia.
        replace (Z.to_nat (7 * j + 2 + 2 * 0)) with (7 * Z.to_nat j + 2)%nat by lia.
        rewrite !Hrow by lia. unfold packet_row. cbn [lookup list_lookup default from_option id].
        rewrite Hhi, Hlo, Hv. split; reflexivity.
      * replace (Z.to_nat (7 * j + 1 + 2 * 1)) with (7 * Z.to_nat j + 3)%nat by lia.
        replace (Z.to_nat (7 * j + 2 + 2 * 1)) with (7 * Z.to_nat j + 4)%nat by lia.
        rewrite !Hrow by lia. unfold packet_row. cbn [lookup list_lookup default from_option id].
        rewrite Hhi, Hlo, Hv. split; reflexivity.
      * replace (Z.to_nat (7 * j + 1 + 2 * 2)) with (7 * Z.to_nat j + 5)%nat by lia.
        replace (Z.to_nat (7 * j + 2 + 2 * 2)) with (7 * Z.to_nat j + 6)%nat by lia.
        rewrite !Hrow by lia. unfold packet_row. cbn [lookup list_lookup default from_option id].
        rewrite Hhi, Hlo, Hv. split; reflexivity.
  - rewrite flats_app, notifications_app.
    destruct (battery_check_hands_nothing
                (Z.quot (Main.l_battery_reading (Main.build_packet (Main.result env) d))
                        Main.PACKET_LEN)) as [-> ->].
    destruct (send_packet_hands d (Main.l_packet (Main.build_packet (Main.result env) d)) env)
      as [-> ->].
    rewrite take_ge by (rewrite Hlen; vm_compute; lia). now split.
Qed.

Lemma valid_frame_builds_packet_witness :
  well_typed streaming_device /\ streaming streaming_device = true
  /\ frame_ok (sample_read 2000)
  /\ length (chords_packet (fst (Main.adc_conv_task_step streaming_device (sample_read 2000))))
     = 175%nat.
Proof.
  assert (H1 : well_typed streaming_device) by (split; [vm_compute; split; congruence | reflexivity]).
  assert (H2 : streaming streaming_device = true) by reflexivity.
  assert (H3 : frame_ok (sample_read 2000)) by (split; reflexivity).
  split; [exact H1|]. split; [exact H2|]. split; [exact H3|].
  exact (proj1 (valid_frame_builds_packet streaming_device (sample_read 2000) H1 H2 H3)).
Defined.

(** C5.  While streaming, a read that returns an error status or a size
    other than the frame size is skipped: the event is logged, nothing is
    handed to the wireless host, not even a part of a packet, and the
    state, with its sequence counter and its Streaming Flag, is the one
    before the cycle. *)
Theorem corrupted_read_skips_cycle (d : device) (env : Main.cycle_env) :
  streaming d = true ->
  Main.ret env <> ESP_OK \/ Main.size_ret env <> Main.CONV_FRAME_SIZE ->
  let d' := fst (Main.adc_conv_task_step d env) in
  let calls := snd (Main.adc_conv_task_step d env) in
  calls = [ESP_LOGE "adc_conv_task" "Corrupted reading from adc, size_ret:%d"
                    [Main.size_ret env]]
  /\ flats calls = [] /\ notifications calls = []
  /\ d' = d /\ counter d' = counter d /\ streaming d' = streaming d.
Proof.
  intros Hs Hbad. unfold Main.adc_conv_task_step. rewrite Hs.
  rewrite adc_cycle_refused by (unfold frame_ok; tauto).
  cbn [fst snd]. cbv zeta. repeat split; try reflexivity; exact Hs.
Qed.

Lemma corrupted_read_skips_cycle_witness :
  streaming streaming_device = true
  /\ Main.size_ret short_read <> Main.CONV_FRAME_SIZE
  /\ fst (Main.adc_conv_task_step streaming_device short_read) = streaming_device.
Proof.
  assert (H1 : streaming streaming_device = true) by reflexivity.
  assert (H2 : Main.size_ret short_read <> Main.CONV_FRAME_SIZE) by (vm_compute; congruence).
  split; [exact H1|]. split; [exact H2|].
  exact (proj1 (proj2 (proj2 (proj2
          (corrupted_read_skips_cycle streaming_device short_read H1 (or_intror H2)))))).
Defined.

Lemma step_while_streaming (d : device) (env : Main.cycle_env) :
  streaming d = true -> Main.adc_conv_task_step d env = Main.adc_cycle d env.
Proof. intros Hs. unfold Main.adc_conv_task_step. now rewrite Hs. Qed.

(** ** The connection handler *)

(** C7.  On every link-loss event, whatever the state, the handler clears
    the Streaming Flag, raises the disconnected indication (pixel 0, red)
    and restarts advertising within the same call: the advertising data is
    handed to the host first and, the host having taken it, advertising is
    started. *)
Theorem link_loss_resets_and_readvertises (d : device) (reason : Z) (env : Gap.gap_env) :
  let r := Gap.gap_event_handler d (Gap.BLE_GAP_EVENT_DISCONNECT reason) env in
  let d' := fst (fst r) in
  let calls := snd (fst r) in
  streaming d' = false
  /\ d' = set_streaming false d
  /\ calls = [led_strip_show 0 RED 10; ESP_LOGI Gap.TAG "Disconnected. Reason: %d" [reason]]
             ++ Gap.start_advertising env
  /\ head (Gap.start_advertising env) = Some ble_gap_adv_set_fields
  /\ (In (ble_gap_adv_start 500 510) calls <-> Gap.adv_set_fields_rc env = 0).
Proof.
  cbn [Gap.gap_event_handler fst snd]. cbv zeta.
  split; [reflexivity|]. split; [reflexivity|]. split; [reflexivity|].
  split; [reflexivity|].
  unfold Gap.start_advertising.
  destruct (Z.eqb_spec (Gap.adv_set_fields_rc env) 0) as [H0|Hne].
  - split; [intros _; exact H0|]. intros _. cbn. right; right; right; left; reflexivity.
  - split; [|contradiction].
    cbn. intros [H|[H|[H|[H|[]]]]]; discriminate H.
Qed.

(** ** The sequence counter over a run *)

Section Runs.
Import Main.

Lemma calls_of_app (t : task) (a b : list (task * call)) :
  calls_of t (a ++ b) = calls_of t a ++ calls_of t b.
Proof. unfold calls_of. apply flat_map_app. Qed.

Lemma packets_app (a b : list (task * call)) : packets (a ++ b) = packets a ++ packets b.
Proof. unfold packets. now rewrite calls_of_app, flats_app. Qed.

Lemma packets_of_host (calls : list call) :
  packets (map (pair nimble_host_task) calls) = [].
Proof. unfold packets, calls_of. induction calls as [|c calls IH]; [reflexivity | exact IH]. Qed.

Lemma packets_of_acquisition (calls : list call) :
  packets (map (pair adc_conv_task) calls) = flats calls.
Proof.
  unfold packets, calls_of. f_equal.
  induction calls as [|c calls IH]; [reflexivity|]. cbn. now rewrite IH.
Qed.

(** No GAP event writes the counter or the packet buffer. *)
Lemma gap_event_keeps_acquisition (d : device) (event : Gap.ble_gap_event) (env : Gap.gap_env) :
  counter (fst (fst (Gap.gap_event_handler d event env))) = counter d
  /\ chords_packet (fst (fst (Gap.gap_event_handler d event env))) = chords_packet d.
Proof.
  destruct event; cbn [Gap.gap_event_handler]; try (split; reflexivity).
  destruct (status =? 0); [|split; reflexivity].
  destruct (negb (Gap.conn_find_rc env =? 0)); [split; reflexivity|].
  destruct (negb (Gap.update_params_rc env =? 0)); split; reflexivity.
Qed.

Lemma decode_keeps_acquisition (d : device) (buf : list Z) :
  counter (fst (fst (Gatt.decode d buf))) = counter d
  /\ chords_packet (fst (fst (Gatt.decode d buf))) = chords_packet d.
Proof.
  unfold Gatt.decode.
  repeat match goal with |- context [if ?b then _ else _] => destruct b end;
    split; reflexivity.
Qed.

(** No access to a characteristic writes them either. *)
Lemma gatt_access_keeps_acquisition (d d' : device) (conn attr : Z)
      (ctxt : Gatt.ble_gatt_access_ctxt) (env : Gatt.host_env) (calls : list call) (rc : Z) :
  Gatt.gatt_svr_chr_access_cb d conn attr ctxt env = Some (d', calls, rc) ->
  counter d' = counter d /\ chords_packet d' = chords_packet d.
Proof.
  unfold Gatt.gatt_svr_chr_access_cb. intros H.
  destruct (Gatt.op ctxt).
  - destruct (attr =? control_char_handle d); inversion H; subst; split; reflexivity.
  - destruct (Gatt.cmd_buffer_of ctxt) as [buf|]; [|discriminate H].
    rewrite option_bind_Some in H.
    pose proof (decode_keeps_acquisition d buf) as Hk.
    destruct (Gatt.decode d buf) as [[d1 c1] r1]. inversion H; subst. exact Hk.
  - inversion H; subst; split; reflexivity.
  - inversion H; subst; split; reflexivity.
Qed.





End Runs.

(** ** The two tasks, interleaved *)















(** The runs of [run] are the interleavings in which the acquisition task
    tests its flag just before each signal. *)
Lemma run_as_interleaving (inputs : list input) : forall (d : device) (b1 b2 : bool),
  option_map (fun st => (Tasks.dev (fst st), snd st))
             (Tasks.run (Tasks.mk_system d Tasks.at_test b1 b2) (Tasks.schedule inputs))
  = run d inputs.
Proof.
  unfold Tasks.schedule.
  induction inputs as [|i rest IH]; intros d b1 b2; [reflexivity|].
  destruct i as [env | event env | conn attr ctxt env];
    cbn [flat_map app Tasks.run run step Tasks.step Tasks.acquisition
         Tasks.dev Tasks.task_of_moment task_of].
  - unfold Main.adc_conv_task_step. destruct (streaming d).
    + rewrite option_bind_Some.
      cbn [Tasks.run Tasks.step Tasks.acquisition Tasks.dev Tasks.sampling
           Tasks.host_running].
      destruct (Main.adc_cycle d env) as [d1 c1]. rewrite !option_bind_Some.
      rewrite <- (IH d1 (b1 && negb (Tasks.stops_sampling c1))
                        (b2 && negb (Tasks.stops_host c1))).
      destruct (Tasks.run _ (flat_map _ rest)) as [[s2 tr]|]; reflexivity.
    + rewrite !option_bind_Some. cbn [Tasks.run Tasks.step Tasks.acquisition Tasks.dev].
      rewrite option_bind_Some. rewrite <- (IH d b1 b2).
      destruct (Tasks.run _ (flat_map _ rest)) as [[s2 tr]|]; reflexivity.
  - destruct (Gap.gap_event_handler d event env) as [[d1 c1] rc].
    rewrite !option_bind_Some. cbn [Tasks.set_dev Tasks.acquisition Tasks.sampling
                                    Tasks.host_running].
    rewrite <- (IH d1 b1 b2).
    destruct (Tasks.run _ (flat_map _ rest)) as [[s2 tr]|]; reflexivity.
  - destruct (Gatt.gatt_svr_chr_access_cb d conn attr ctxt env) as [[[d1 c1] rc]|];
      [|reflexivity].
    rewrite !option_bind_Some. cbn [Tasks.set_dev Tasks.acquisition Tasks.sampling
                                    Tasks.host_running].
    rewrite <- (IH d1 b1 b2).
    destruct (Tasks.run _ (flat_map _ rest)) as [[s2 tr]|]; reflexivity.
Qed.

(** ** Cycles that are skipped *)

Lemma run_app (a b : list input) : forall d : device,
  run d (a ++ b)
  = '(d1, t1) ← run d a; '(d2, t2) ← run d1 b; Some (d2, t1 ++ t2).
Proof.
  induction a as [|i a IH]; intros d; cbn [run app].
  - rewrite option_bind_Some. destruct (run d b) as [[d2 t2]|]; reflexivity.
  - destruct (step d i) as [[d1 calls]|]; [|reflexivity].
    rewrite !option_bind_Some, IH.
    destruct (run d1 a) as [[d2 t2]|]; [|reflexivity].
    rewrite !option_bind_Some.
    destruct (run d2 b) as [[d3 t3]|]; [|reflexivity].
    rewrite !option_bind_Some. now rewrite app_assoc.
Qed.

(** Cycles whose reads are refused leave the state as it is and hand
    nothing over. *)
Lemma run_skipped (skipped : list Main.cycle_env) (d : device) :
  streaming d = true -> Forall (fun e => ~ frame_ok e) skipped ->
  exists trace, run d (map wake_acquisition skipped) = Some (d, trace)
                /\ packets trace = [].
Proof.
  intros Hs Hbad. induction Hbad as [|e skipped He _ IH]; cbn [map run].
  - exists []. now split.
  - destruct IH as (tr & Hrun & Hp). cbn [step].
    rewrite step_while_streaming by exact Hs. rewrite adc_cycle_refused by exact He.
    rewrite option_bind_Some, Hrun, option_bind_Some.
    eexists. split; [reflexivity|]. rewrite packets_app, Hp. reflexivity.
Qed.

(** C10.  A cycle skipped for a refused read does not advance the counter:
    when an accepted cycle is followed by any number of skipped ones and
    then by an accepted one, the first sequence byte of the second packet
    is one more, modulo 256, than the last sequence byte of the first, so
    the samples lost in between leave no discontinuity. *)
Theorem skipped_cycles_leave_no_gap (d : device) (env1 env2 : Main.cycle_env)
    (skipped : list Main.cycle_env) :
  well_typed d -> streaming d = true ->
  frame_ok env1 -> Forall (fun e => ~ frame_ok e) skipped -> frame_ok env2 ->
  exists d' trace p1 p2,
    run d (wake_acquisition env1 :: map wake_acquisition skipped ++ [wake_acquisition env2])
      = Some (d', trace)
    /\ packets trace = [p1; p2]
    /\ byte_at p2 0 = (byte_at p1 (7 * 24) + 1) mod 256.
Proof.
  intros Hwt Hs Hok1 Hbad Hok2.
  destruct (build_packet_rows (Main.result env1) d Hwt) as [Hp1 Hc1].
  set (d1 := set_acquisition (Main.l_counter (Main.build_packet (Main.result env1) d))
                             (Main.l_packet (Main.build_packet (Main.result env1) d)) d).
  assert (Hwt1 : well_typed d1).
  { unfold well_typed, d1. cbn [counter chords_packet set_acquisition].
    rewrite Hc1, Hp1, packet_rows_length. split; [apply Z.mod_pos_bound; lia | reflexivity]. }
  assert (Hs1 : streaming d1 = true) by exact Hs.
  destruct (build_packet_rows (Main.result env2) d1 Hwt1) as [Hp2 Hc2].
  destruct (run_skipped skipped d1 Hs1 Hbad) as (tr & Hrun & Hnone).
  eexists _, _, (Main.l_packet (Main.build_packet (Main.result env1) d)),
                (Main.l_packet (Main.build_packet (Main.result env2) d1)).
  split; [|split].
  - cbn [run step]. rewrite step_while_streaming by exact Hs.
    rewrite adc_cycle_accepted by exact Hok1. rewrite option_bind_Some.
    fold d1. rewrite run_app, Hrun, option_bind_Some. cbn [run step].
    rewrite step_while_streaming by exact Hs1.
    rewrite adc_cycle_accepted by exact Hok2. rewrite !option_bind_Some.
    reflexivity.
  - rewrite !packets_app, Hnone, !packets_of_acquisition, !flats_app.
    rewrite (proj1 (battery_check_hands_nothing _)), (proj1 (send_packet_hands _ _ _)).
    rewrite (proj1 (battery_check_hands_nothing _)), (proj1 (send_packet_hands _ _ _)).
    rewrite !take_ge by (rewrite ?Hp1, ?Hp2, packet_rows_length; vm_compute; lia).
    reflexivity.
  - rewrite Hp1, Hp2. unfold byte_at.
    change (Z.to_nat 0) with (7 * 0 + 0)%nat.
    change (Z.to_nat (7 * 24)) with (7 * 24 + 0)%nat.
    rewrite !packet_rows_lookup by lia.
    unfold packet_row. cbn [lookup list_lookup default from_option id].
    unfold d1. cbn [counter set_acquisition]. rewrite Hc1.
    change (Z.of_nat 0) with 0. change (Z.of_nat 24) with 24.
    rewrite Z.add_0_r, Z.mod_mod by lia. rewrite Zplus_mod_idemp_l. f_equal. lia.
Qed.

Lemma skipped_cycles_leave_no_gap_witness :
  well_typed streaming_device /\ streaming streaming_device = true
  /\ frame_ok (sample_read 2000) /\ Forall (fun e => ~ frame_ok e) [short_read; short_read]
  /\ frame_ok (sample_read 2100)
  /\ exists d' trace p1 p2,
       run streaming_device
           (wake_acquisition (sample_read 2000)
            :: map wake_acquisition [short_read; short_read]
               ++ [wake_acquisition (sample_read 2100)])
         = Some (d', trace)
       /\ packets trace = [p1; p2]
       /\ byte_at p2 0 = (byte_at p1 (7 * 24) + 1) mod 256.
Proof.
  assert (H1 : well_typed streaming_device) by (split; [vm_compute; split; congruence | reflexivity]).
  assert (H2 : streaming streaming_device = true) by reflexivity.
  assert (H3 : frame_ok (sample_read 2000)) by (split; reflexivity).
  assert (Hshort : ~ frame_ok short_read) by (intros [_ H]; vm_compute in H; discriminate H).
  assert (H4 : Forall (fun e => ~ frame_ok e) [short_read; short_read])
    by (repeat constructor; exact Hshort).
  assert (H5 : frame_ok (sample_read 2100)) by (split; reflexivity).
  split; [exact H1|]. split; [exact H2|]. split; [exact H3|]. split; [exact H4|].
  split; [exact H5|].
  exact (skipped_cycles_leave_no_gap streaming_device (sample_read 2000) (sample_read 2100)
           [short_read; short_read] H1 H2 H3 H4 H5).
Defined.

(** ** The battery estimator *)

Lemma rnd_cases (A b : Z) :
  0 < b ->
  (2 * (A mod b) < b /\ rnd A b = A / b)
  \/ (2 * (A mod b) > b /\ rnd A b = A / b + 1)
  \/ (2 * (A mod b) = b /\ rnd A b = if Z.even (A / b) then A / b else A / b + 1).
Proof.
  intros Hb. unfold rnd, loc_code, round_nearest_even.
  pose proof (Z.mod_pos_bound A b Hb) as Hr.
  destruct (Z.eqb_spec (A mod b) 0) as [H0|H0].
  - left. split; [lia | reflexivity].
  - destruct (Z.compare_spec (2 * (A mod b)) b) as [H|H|H].
    + right; right. split; [exact H | reflexivity].
    + left. split; [exact H | reflexivity].
    + right; left. split; [lia | reflexivity].
Qed.

Lemma rnd_mono (A A' b : Z) : 0 < b -> A <= A' -> rnd A b <= rnd A' b.
Proof.
  intros Hb HA.
  pose proof (Z.div_le_mono A A' b Hb HA) as Hq.
  pose proof (Z.div_mod A b ltac:(lia)) as E.
  pose proof (Z.div_mod A' b ltac:(lia)) as E'.
  pose proof (Z.mod_pos_bound A b Hb) as Hr.
  pose proof (Z.mod_pos_bound A' b Hb) as Hr'.
  destruct (Z.eq_dec (A / b) (A' / b)) as [Heq|Hne].
  - assert (A mod b <= A' mod b) by nia.
    destruct (rnd_cases A b Hb) as [[H1 ->]|[[H1 ->]|[H1 ->]]];
      destruct (rnd_cases A' b Hb) as [[H2 ->]|[[H2 ->]|[H2 ->]]];
      rewrite <- ?Heq; try lia; destruct (Z.even (A / b)); lia.
  - assert (A / b + 1 <= A' / b) by lia.
    destruct (rnd_cases A b Hb) as [[H1 ->]|[[H1 ->]|[H1 ->]]];
      destruct (rnd_cases A' b Hb) as [[H2 ->]|[[H2 ->]|[H2 ->]]];
      try lia; try (destruct (Z.even (A / b)); lia);
      try (destruct (Z.even (A' / b)); lia).
    destruct (Z.even (A / b)); destruct (Z.even (A' / b)); lia.
Qed.

Lemma loc_code_scale (A b c : Z) : 0 < b -> 0 < c -> loc_code (A * c) (b * c) = loc_code A b.
Proof.
  intros Hb Hc. unfold loc_code.
  rewrite Z.mul_mod_distr_r by lia.
  pose proof (Z.mod_pos_bound A b Hb) as Hr.
  destruct (Z.eqb_spec (A mod b) 0) as [H0|H0].
  - rewrite H0. reflexivity.
  - destruct (Z.eqb_spec (A mod b * c) 0) as [H1|H1]; [nia|].
    f_equal. replace (2 * (A mod b * c)) with (2 * (A mod b) * c) by ring.
    destruct (Z.compare_spec (2 * (A mod b)) b) as [H|H|H].
    + rewrite H. apply Z.compare_refl.
    + apply Z.compare_lt_iff. nia.
    + apply Z.compare_gt_iff. nia.
Qed.

Lemma rnd_scale (A b c : Z) : 0 < b -> 0 < c -> rnd (A * c) (b * c) = rnd A b.
Proof.
  intros Hb Hc. unfold rnd. rewrite loc_code_scale by assumption.
  now rewrite Z.div_mul_cancel_r by lia.
Qed.

Lemma rnd_exact (q b : Z) : 0 < b -> rnd (q * b) b = q.
Proof.
  intros Hb. unfold rnd, loc_code. rewrite Z.mod_mul by lia. cbn.
  now rewrite Z.div_mul by lia.
Qed.

Lemma rnd_between (A b lo hi : Z) :
  0 < b -> lo * b <= A -> A <= hi * b -> lo <= rnd A b <= hi.
Proof.
  intros Hb H1 H2. split.
  - rewrite <- (rnd_exact lo b Hb). now apply rnd_mono.
  - rewrite <- (rnd_exact hi b Hb). now apply rnd_mono.
Qed.

Lemma shr_1_nonneg (m : Z) (r s : bool) :
  0 <= m ->
  shr_1 (Build_shr_record m r s) = Build_shr_record (m / 2) (Z.odd m) (r || s).
Proof.
  intros Hm. rewrite <- Z.div2_div.
  destruct m as [|[p|p|]|]; try reflexivity. lia.
Qed.

Lemma record_of_eq (A b : Z) :
  0 < b ->
  record_of A b
  = Build_shr_record (A / b) (b <=? 2 * (A mod b)) (negb (A mod b =? 0) && negb (2 * (A mod b) =? b)).
Proof.
  intros Hb. unfold record_of, loc_code, shr_record_of_loc.
  pose proof (Z.mod_pos_bound A b Hb) as Hr.
  destruct (Z.eqb_spec (A mod b) 0) as [H0|H0];
    destruct (Z.leb_spec b (2 * (A mod b))) as [H1|H1];
    destruct (Z.eqb_spec (2 * (A mod b)) b) as [H2|H2];
    try (exfalso; lia); try reflexivity;
    destruct (Z.compare_spec (2 * (A mod b)) b) as [H|H|H];
    try (exfalso; lia); reflexivity.
Qed.

(** One shift to the right keeps track of what falls off: it halves the
    unit in which [A] is counted. *)
Lemma shr_1_spec (A b : Z) : 0 <= A -> 0 < b -> shr_1 (record_of A b) = record_of A (2 * b).
Proof.
  intros HA Hb.
  rewrite (record_of_eq A b Hb), (record_of_eq A (2 * b)) by lia.
  rewrite shr_1_nonneg by (apply Z.div_pos; lia).
  assert (Hq : A / (2 * b) = A / b / 2) by (rewrite Z.mul_comm, Z.div_div by lia; reflexivity).
  assert (Hr : A mod (2 * b) = A mod b + b * ((A / b) mod 2)).
  { rewrite (Z.mul_comm 2 b). apply Z.rem_mul_r; lia. }
  pose proof (Z.mod_pos_bound A b Hb) as Hrb.
  rewrite Hq, Hr. pose proof (Zmod_odd (A / b)) as Hodd.
  destruct (Z.odd (A / b)); rewrite Hodd; f_equal.
  - destruct (Z.leb_spec (2 * b) (2 * (A mod b + b * 1))); [reflexivity | lia].
  - destruct (Z.leb_spec b (2 * (A mod b))); destruct (Z.eqb_spec (A mod b) 0);
      destruct (Z.eqb_spec (2 * (A mod b)) b); destruct (Z.eqb_spec (A mod b + b * 1) 0);
      destruct (Z.eqb_spec (2 * (A mod b + b * 1)) (2 * b)); cbn; try reflexivity; lia.
  - destruct (Z.leb_spec (2 * b) (2 * (A mod b + b * 0))); [lia | reflexivity].
  - destruct (Z.leb_spec b (2 * (A mod b))); destruct (Z.eqb_spec (A mod b) 0);
      destruct (Z.eqb_spec (2 * (A mod b)) b); destruct (Z.eqb_spec (A mod b + b * 0) 0);
      destruct (Z.eqb_spec (2 * (A mod b + b * 0)) (2 * b)); cbn; try reflexivity; lia.
Qed.

Lemma pow2_xO (p : positive) : 2 ^ Zpos p~0 = 2 ^ Zpos p * 2 ^ Zpos p.
Proof.
  replace (Zpos p~0) with (Zpos p + Zpos p) by lia.
  apply Z.pow_add_r; lia.
Qed.

Lemma pow2_xI (p : positive) : 2 ^ Zpos p~1 = 2 * (2 ^ Zpos p * 2 ^ Zpos p).
Proof.
  replace (Zpos p~1) with (1 + (Zpos p + Zpos p)) by lia.
  rewrite !Z.pow_add_r by lia. now rewrite Z.pow_1_r.
Qed.

Lemma pow2_pos (n : Z) : 0 <= n -> 0 < 2 ^ n.
Proof. intros Hn. apply Z.pow_pos_nonneg; lia. Qed.

Lemma iter_pos_shr_1 (p : positive) : forall (A b : Z),
  0 <= A -> 0 < b ->
  SpecFloat.iter_pos shr_1 p (record_of A b) = record_of A (b * 2 ^ Zpos p).
Proof.
  induction p as [p IH|p IH|]; intros A b HA Hb; cbn [SpecFloat.iter_pos];
    pose proof (pow2_pos (Zpos p) ltac:(lia)) as Hp || idtac.
  - rewrite shr_1_spec, IH, IH by nia. f_equal. rewrite pow2_xI. ring.
  - rewrite IH, IH by nia. f_equal. rewrite pow2_xO. ring.
  - rewrite shr_1_spec by lia. f_equal. rewrite Z.pow_1_r. ring.
Qed.

(** ** Number of binary digits *)

Lemma digits2_pos_bounds (m : positive) :
  2 ^ (Zpos (digits2_pos m) - 1) <= Zpos m < 2 ^ Zpos (digits2_pos m).
Proof.
  induction m as [m IH|m IH|]; cbn [digits2_pos].
  - rewrite Pos2Z.inj_succ.
    replace (Z.succ (Zpos (digits2_pos m)) - 1) with (Zpos (digits2_pos m)) by lia.
    rewrite Z.pow_succ_r by lia.
    assert (H2 : 2 ^ Zpos (digits2_pos m) = 2 * 2 ^ (Zpos (digits2_pos m) - 1)).
    { rewrite <- Z.pow_succ_r by lia. f_equal. lia. }
    lia.
  - rewrite Pos2Z.inj_succ.
    replace (Z.succ (Zpos (digits2_pos m)) - 1) with (Zpos (digits2_pos m)) by lia.
    rewrite Z.pow_succ_r by lia.
    assert (H2 : 2 ^ Zpos (digits2_pos m) = 2 * 2 ^ (Zpos (digits2_pos m) - 1)).
    { rewrite <- Z.pow_succ_r by lia. f_equal. lia. }
    lia.
  - cbn. lia.
Qed.

Lemma Zdigits2_unique (m d : Z) : 2 ^ (d - 1) <= m < 2 ^ d -> 0 < d -> Zdigits2 m = d.
Proof.
  intros Hm Hd.
  assert (0 < m) by (pose proof (pow2_pos (d - 1) ltac:(lia)); lia).
  destruct m as [|p|p]; try lia. cbn [Zdigits2].
  pose proof (digits2_pos_bounds p) as Hp.
  set (d' := Zpos (digits2_pos p)) in *.
  destruct (Z.lt_trichotomy d d') as [Hlt|[Heq|Hgt]]; [|exact (eq_sym Heq)|].
  - assert (2 ^ d <= 2 ^ (d' - 1)) by (apply Z.pow_le_mono_r; lia). lia.
  - assert (2 ^ d' <= 2 ^ (d - 1)) by (apply Z.pow_le_mono_r; lia). lia.
Qed.

(** ** Rounding to 24 bits *)

Lemma fexp32 (x : Z) : -149 <= x - 24 -> fexp 24 128 x = x - 24.
Proof. intros H. unfold fexp, emin. lia. Qed.

Lemma shr_spec (A b e n : Z) :
  0 <= A -> 0 < b -> 0 <= n ->
  shr (record_of A b) e n = (record_of A (b * 2 ^ n), e + n).
Proof.
  intros HA Hb Hn. unfold shr. destruct n as [|p|p]; try lia.
  - now rewrite Z.mul_1_r, Z.add_0_r.
  - now rewrite iter_pos_shr_1.
Qed.

Lemma record_of_m (A b : Z) : shr_m (record_of A b) = A / b.
Proof. unfold record_of. now destruct (loc_code A b) as [|[]]. Qed.

Lemma record_of_loc (A b : Z) : loc_of_shr_record (record_of A b) = loc_code A b.
Proof. unfold record_of. now destruct (loc_code A b) as [|[]]. Qed.

Lemma div_pow2_bounds (M n : Z) :
  0 <= n -> 2 ^ (23 + n) <= M < 2 ^ (24 + n) -> 2 ^ 23 <= M / 2 ^ n < 2 ^ 24.
Proof.
  intros Hn [H1 H2]. pose proof (pow2_pos n Hn) as Hp.
  rewrite Z.pow_add_r in H1, H2 by lia. split.
  - apply Z.div_le_lower_bound; lia.
  - apply Z.div_lt_upper_bound; lia.
Qed.

(** What [binary_round_aux] returns on a positive value in the normal
    range: [A/b], whose integer part has [24 + n] digits, counted in units
    of [2^e], is rounded to [rnd A (b * 2^n)] units of [2^(e+n)]. *)
Lemma binary_round_aux_spec (A b e n : Z) :
  0 <= A -> 0 < b -> 0 <= n ->
  2 ^ (23 + n) <= A / b < 2 ^ (24 + n) ->
  -149 <= e + n -> e + n + 1 <= 104 ->
  binary_round_aux 24 128 false (A / b) e (loc_code A b)
  = pack (rnd A (b * 2 ^ n)) (e + n).
Proof.
  intros HA Hb Hn HM Hlo Hhi.
  pose proof (pow2_pos n Hn) as Hp.
  unfold binary_round_aux, shr_fexp.
  rewrite (Zdigits2_unique (A / b) (24 + n)) by (try replace (24 + n - 1) with (23 + n) by lia; lia).
  rewrite fexp32 by lia.
  replace (24 + n + e - 24 - e) with n by lia.
  change (shr_record_of_loc (A / b) (loc_code A b)) with (record_of A b).
  rewrite shr_spec by lia.
  rewrite record_of_m, record_of_loc.
  change (round_nearest_even (A / (b * 2 ^ n)) (loc_code A (b * 2 ^ n))) with (rnd A (b * 2 ^ n)).
  assert (Hdiv : 2 ^ 23 <= A / (b * 2 ^ n) < 2 ^ 24).
  { rewrite <- Z.div_div by lia. now apply div_pow2_bounds. }
  assert (Hm2 : 2 ^ 23 <= rnd A (b * 2 ^ n) <= 2 ^ 24).
  { destruct (rnd_cases A (b * 2 ^ n) ltac:(nia)) as [[_ ->]|[[_ ->]|[_ ->]]];
      try lia. destruct (Z.even _); lia. }
  set (m2 := rnd A (b * 2 ^ n)) in *.
  unfold pack. destruct (Z.eqb_spec m2 (2 ^ 24)) as [Heq|Hne].
  - rewrite Heq. change (Zdigits2 (2 ^ 24)) with 25.
    rewrite fexp32 by lia. replace (25 + (e + n) - 24 - (e + n)) with 1 by lia.
    cbn [shr_record_of_loc shr SpecFloat.iter_pos shr_1 shr_m Z.pow Z.pow_pos Pos.iter Z.mul Pos.mul].
    destruct (Z.leb_spec (e + n + 1) (128 - 24)); [reflexivity | lia].
  - rewrite (Zdigits2_unique m2 24) by (change (24 - 1) with 23; lia).
    rewrite fexp32 by lia. replace (24 + (e + n) - 24 - (e + n)) with 0 by lia.
    cbn [shr_record_of_loc shr shr_m].
    destruct m2 as [|p|p]; try lia.
    destruct (Z.leb_spec (e + n) (128 - 24)); [reflexivity | lia].
Qed.

(** ** Order on the positive floats *)

Lemma SFleb_pos (m1 m2 : positive) (e1 e2 : Z) :
  SFleb (S754_finite false m1 e1) (S754_finite false m2 e2) = true
  <-> e1 < e2 \/ (e1 = e2 /\ Zpos m1 <= Zpos m2).
Proof.
  unfold SFleb, SFcompare.
  destruct (Z.compare_spec e1 e2) as [He|He|He].
  - change (Pos.compare_cont Eq m1 m2) with (Pos.compare m1 m2).
    destruct (Pos.compare_spec m1 m2) as [Hm|Hm|Hm]; split; intros H; try lia; try reflexivity;
      try discriminate H.
  - split; [lia | reflexivity].
  - split; [discriminate | lia].
Qed.

Lemma SFltb_pos (m1 m2 : positive) (e1 e2 : Z) :
  SFltb (S754_finite false m1 e1) (S754_finite false m2 e2) = true
  <-> e1 < e2 \/ (e1 = e2 /\ Zpos m1 < Zpos m2).
Proof.
  unfold SFltb, SFcompare.
  destruct (Z.compare_spec e1 e2) as [He|He|He].
  - change (Pos.compare_cont Eq m1 m2) with (Pos.compare m1 m2).
    destruct (Pos.compare_spec m1 m2) as [Hm|Hm|Hm]; split; intros H; try lia; try reflexivity;
      try discriminate H.
  - split; [lia | reflexivity].
  - split; [discriminate | lia].
Qed.

(** [pack] always gives a mantissa of 24 bits. *)
Lemma pack_form (m e : Z) :
  2 ^ 23 <= m <= 2 ^ 24 ->
  exists (mq : positive) (eq : Z),
    pack m e = S754_finite false mq eq
    /\ 2 ^ 23 <= Zpos mq < 2 ^ 24
    /\ e <= eq <= e + 1
    /\ m = Zpos mq * 2 ^ (eq - e).
Proof.
  intros Hm. unfold pack. destruct (Z.eqb_spec m (2 ^ 24)) as [->|Hne].
  - exists (Z.to_pos (2 ^ 23)), (e + 1). split; [reflexivity|].
    replace (e + 1 - e) with 1 by lia. cbn. lia.
  - exists (Z.to_pos m), e. split; [reflexivity|].
    rewrite Z2Pos.id, Z.sub_diag by lia. cbn [Z.pow]. lia.
Qed.

Lemma pack_le (m m' e e' : Z) :
  2 ^ 23 <= m <= 2 ^ 24 -> 2 ^ 23 <= m' <= 2 ^ 24 ->
  e < e' \/ (e = e' /\ m <= m') ->
  SFleb (pack m e) (pack m' e') = true.
Proof.
  intros Hm Hm' Hord. unfold pack.
  destruct (Z.eqb_spec m (2 ^ 24)) as [E|E]; destruct (Z.eqb_spec m' (2 ^ 24)) as [E'|E'];
    apply SFleb_pos; rewrite ?Z2Pos.id by lia; cbn in *; lia.
Qed.

(** ** Rounding a positive rational *)

Lemma binade_rnd (a b t : Z) :
  0 < b -> binade a b t -> 2 ^ 23 <= rnd (a * 2 ^ t) b <= 2 ^ 24.
Proof. intros Hb [H1 H2]. apply rnd_between; lia. Qed.

Lemma binade_order (a b t a' b' t' : Z) :
  0 < b -> 0 < b' -> 0 <= t -> 0 <= t' -> 0 <= a ->
  binade a b t -> binade a' b' t' -> a * b' <= a' * b -> t' <= t.
Proof.
  intros Hb Hb' Ht Ht' Ha [H1 _] [_ H2] Hle.
  destruct (Z_le_gt_dec t' t) as [|Hgt]; [assumption | exfalso].
  assert (Hp : 2 ^ t' = 2 ^ t * 2 ^ (t' - t)).
  { rewrite <- Z.pow_add_r by lia. f_equal. lia. }
  assert (Hp2 : 2 <= 2 ^ (t' - t)).
  { change 2 with (2 ^ 1) at 1. apply Z.pow_le_mono_r; lia. }
  pose proof (pow2_pos t Ht) as Hpt.
  assert (H3 : 2 ^ 23 * b * b' <= a * 2 ^ t * b') by nia.
  assert (H4 : a' * 2 ^ t' * b < 2 ^ 24 * b' * b) by nia.
  assert (H5 : a * 2 ^ t * b' * 2 <= a' * 2 ^ t' * b).
  { rewrite Hp. nia. }
  nia.
Qed.

Lemma RN_mono (a b t a' b' t' : Z) :
  0 < b -> 0 < b' -> 0 <= t -> 0 <= t' -> 0 <= a ->
  binade a b t -> binade a' b' t' -> a * b' <= a' * b ->
  SFleb (RN a b t) (RN a' b' t') = true.
Proof.
  intros Hb Hb' Ht Ht' Ha Hbin Hbin' Hle.
  pose proof (binade_order a b t a' b' t' Hb Hb' Ht Ht' Ha Hbin Hbin' Hle) as Hord.
  unfold RN. apply pack_le; try (apply binade_rnd; assumption).
  destruct (Z.eq_dec t t') as [<-|Hne]; [right | left; lia].
  split; [reflexivity|].
  rewrite <- (rnd_scale (a * 2 ^ t) b b') by lia.
  rewrite <- (rnd_scale (a' * 2 ^ t) b' b) by lia.
  rewrite (Z.mul_comm b' b). apply rnd_mono; [nia|].
  pose proof (pow2_pos t Ht). nia.
Qed.

(** ** The operations on positive floats *)

Lemma iter_xO (m d : positive) : Zpos (Pos.iter xO m d) = Zpos m * 2 ^ Zpos d.
Proof.
  induction d as [|d IH] using Pos.peano_ind.
  - cbn. lia.
  - rewrite Pos.iter_succ, Pos2Z.inj_xO, IH, Pos2Z.inj_succ, Z.pow_succ_r by lia. ring.
Qed.

Lemma shl_align_spec (m : positive) (e e' : Z) :
  e' <= e -> shl_align m e e' = (Z.to_pos (Zpos m * 2 ^ (e - e')), e').
Proof.
  intros H. unfold shl_align. destruct (e' - e) as [|d|d] eqn:Hd; try lia.
  - assert (e = e') by lia. subst e'. rewrite Z.sub_diag, Z.mul_1_r. reflexivity.
  - f_equal. apply Pos2Z.inj. rewrite iter_xO.
    rewrite Z2Pos.id.
    + f_equal. f_equal. lia.
    + pose proof (pow2_pos (e - e') ltac:(lia)). nia.
Qed.

Lemma shl_align_id (m : positive) (e e' : Z) : e <= e' -> shl_align m e e' = (m, e).
Proof.
  intros H. unfold shl_align. destruct (e' - e) as [|d|d] eqn:Hd; try reflexivity. lia.
Qed.

Lemma loc_code_1 (A : Z) : loc_code A 1 = loc_Exact.
Proof. unfold loc_code. now rewrite Z.mod_1_r. Qed.

Lemma shift_le_23 (N j : Z) : 0 < N < 2 ^ (24 - j) -> j <= 23.
Proof.
  intros HN. destruct (Z_le_gt_dec j 23) as [|Hgt]; [assumption | exfalso].
  destruct (Z.eq_dec j 24) as [->|Hne].
  - cbn in HN. lia.
  - rewrite (Z.pow_neg_r 2 (24 - j)) in HN by lia. lia.
Qed.

(** An integer of 24 digits or more is rounded. *)
Lemma binary_round_large (M : positive) (e n : Z) :
  0 <= n -> 2 ^ (23 + n) <= Zpos M < 2 ^ (24 + n) ->
  -149 <= e + n -> e + n + 1 <= 104 ->
  binary_round 24 128 false M e = pack (rnd (Zpos M) (2 ^ n)) (e + n).
Proof.
  intros Hn HM Hlo Hhi. unfold binary_round.
  change (Zpos (digits2_pos M)) with (Zdigits2 (Zpos M)).
  rewrite (Zdigits2_unique (Zpos M) (24 + n))
    by (try replace (24 + n - 1) with (23 + n) by lia; lia).
  rewrite fexp32 by lia. rewrite shl_align_id by lia.
  pose proof (binary_round_aux_spec (Zpos M) 1 e n ltac:(lia) ltac:(lia) Hn) as H.
  rewrite Z.div_1_r, loc_code_1, Z.mul_1_l in H. apply H; assumption.
Qed.

(** An integer of at most 24 digits is kept: its mantissa is shifted to 24
    digits. *)
Lemma binary_round_small (M : positive) (e j : Z) :
  0 <= j -> 2 ^ (23 - j) <= Zpos M < 2 ^ (24 - j) ->
  -149 <= e - j -> e - j + 1 <= 104 ->
  binary_round 24 128 false M e = S754_finite false (Z.to_pos (Zpos M * 2 ^ j)) (e - j).
Proof.
  intros Hj HM Hlo Hhi. unfold binary_round.
  change (Zpos (digits2_pos M)) with (Zdigits2 (Zpos M)).
  assert (Hj24 : j <= 23) by (apply (shift_le_23 (Zpos M)); lia).
  rewrite (Zdigits2_unique (Zpos M) (24 - j))
    by (try replace (24 - j - 1) with (23 - j) by lia; lia).
  rewrite fexp32 by lia. rewrite shl_align_spec by lia.
  replace (e - (24 - j + e - 24)) with j by lia.
  replace (24 - j + e - 24) with (e - j) by lia.
  pose proof (pow2_pos j Hj) as Hp.
  assert (Hb : 2 ^ 23 <= Zpos M * 2 ^ j < 2 ^ 24).
  { replace (2 ^ 23) with (2 ^ (23 - j) * 2 ^ j)
      by (rewrite <- Z.pow_add_r by lia; f_equal; lia).
    replace (2 ^ 24) with (2 ^ (24 - j) * 2 ^ j)
      by (rewrite <- Z.pow_add_r by lia; f_equal; lia).
    nia. }
  rewrite Z2Pos.id by lia.
  pose proof (binary_round_aux_spec (Zpos M * 2 ^ j) 1 (e - j) 0
                ltac:(lia) ltac:(lia) ltac:(lia)) as H.
  rewrite Z.div_1_r, loc_code_1, Z.mul_1_l, !Z.add_0_r in H.
  rewrite H by lia.
  change (2 ^ 0) with 1. replace (Zpos M * 2 ^ j) with (Zpos M * 2 ^ j * 1) at 1 by ring.
  rewrite rnd_exact by lia. unfold pack.
  destruct (Z.eqb_spec (Zpos M * 2 ^ j) (2 ^ 24)); [lia | reflexivity].
Qed.

Lemma canon_form (N e0 j : Z) :
  0 <= j <= 23 -> 2 ^ (23 - j) <= N < 2 ^ (24 - j) ->
  -149 <= e0 - j -> e0 - j + 1 <= 104 ->
  canon N e0 = S754_finite false (Z.to_pos (N * 2 ^ j)) (e0 - j).
Proof.
  intros Hj HN Hlo Hhi. unfold canon, binary_normalize.
  pose proof (pow2_pos (23 - j) ltac:(lia)).
  destruct N as [|M|M]; try lia.
  apply binary_round_small; lia.
Qed.

(** The shift that brings a positive integer below 2^24 to 24 digits. *)
Lemma shift_exists (N : Z) :
  0 < N < 2 ^ 24 -> exists j, 0 <= j <= 23 /\ 2 ^ (23 - j) <= N < 2 ^ (24 - j).
Proof.
  intros HN. destruct N as [|M|M]; try lia.
  pose proof (digits2_pos_bounds M) as Hd.
  set (d := Zpos (digits2_pos M)) in *.
  assert (d <= 24).
  { destruct (Z_le_gt_dec d 24); [assumption|].
    assert (2 ^ 24 <= 2 ^ (d - 1)) by (apply Z.pow_le_mono_r; lia). lia. }
  exists (24 - d). split; [lia|].
  replace (23 - (24 - d)) with (d - 1) by lia. replace (24 - (24 - d)) with d by lia.
  exact Hd.
Qed.

Lemma canon_large (N e0 n : Z) :
  0 <= n -> 2 ^ (23 + n) <= N < 2 ^ (24 + n) ->
  -149 <= e0 + n -> e0 + n + 1 <= 104 ->
  canon N e0 = pack (rnd N (2 ^ n)) (e0 + n).
Proof.
  intros Hn HN Hlo Hhi. unfold canon, binary_normalize.
  pose proof (pow2_pos (23 + n) ltac:(lia)).
  destruct N as [|M|M]; try lia.
  now apply binary_round_large.
Qed.

(** Subtraction and addition of positive floats: the exact result, counted
    in units of the smaller exponent, then rounded. *)
Lemma fsub_pos (mx my : positive) (ex ey : Z) :
  SFsub 24 128 (S754_finite false mx ex) (S754_finite false my ey)
  = canon (Zpos mx * 2 ^ (ex - Z.min ex ey) - Zpos my * 2 ^ (ey - Z.min ex ey)) (Z.min ex ey).
Proof.
  unfold SFsub, canon. cbn [cond_Zopp].
  rewrite !shl_align_spec by lia. cbn [fst].
  pose proof (pow2_pos (ex - Z.min ex ey) ltac:(lia)).
  pose proof (pow2_pos (ey - Z.min ex ey) ltac:(lia)).
  rewrite !Z2Pos.id by nia. reflexivity.
Qed.

Lemma fadd_pos (mx my : positive) (ex ey : Z) :
  SFadd 24 128 (S754_finite false mx ex) (S754_finite false my ey)
  = canon (Zpos mx * 2 ^ (ex - Z.min ex ey) + Zpos my * 2 ^ (ey - Z.min ex ey)) (Z.min ex ey).
Proof.
  unfold SFadd, canon. cbn [cond_Zopp].
  rewrite !shl_align_spec by lia. cbn [fst].
  pose proof (pow2_pos (ex - Z.min ex ey) ltac:(lia)).
  pose proof (pow2_pos (ey - Z.min ex ey) ltac:(lia)).
  rewrite !Z2Pos.id by nia. reflexivity.
Qed.

(** Multiplication of positive floats of 24 digits. *)
Lemma fmul_pos (mx my : positive) (ex ey n : Z) :
  0 <= n -> 2 ^ (23 + n) <= Zpos mx * Zpos my < 2 ^ (24 + n) ->
  -149 <= ex + ey + n -> ex + ey + n + 1 <= 104 ->
  SFmul 24 128 (S754_finite false mx ex) (S754_finite false my ey)
  = pack (rnd (Zpos mx * Zpos my) (2 ^ n)) (ex + ey + n).
Proof.
  intros Hn HM Hlo Hhi. unfold SFmul. cbn [xorb].
  rewrite Pos2Z.inj_mul.
  pose proof (binary_round_aux_spec (Zpos mx * Zpos my) 1 (ex + ey) n
                ltac:(lia) ltac:(lia) Hn) as H.
  rewrite Z.div_1_r, loc_code_1, Z.mul_1_l in H. apply H; assumption.
Qed.

Lemma new_location_spec (A b : Z) : 0 < b -> new_location b (A mod b) = loc_code A b.
Proof.
  intros Hb. unfold new_location, new_location_even, new_location_odd, loc_code.
  pose proof (Z.mod_pos_bound A b Hb) as Hr.
  destruct (Z.even b) eqn:Hev; [reflexivity|].
  destruct (Z.eqb_spec (A mod b) 0); [reflexivity|]. f_equal.
  assert (Hodd : Z.odd b = true) by (rewrite <- Z.negb_even, Hev; reflexivity).
  apply Z.odd_spec in Hodd. destruct Hodd as [c Hc].
  destruct (Z.compare_spec (2 * (A mod b) + 1) b) as [H|H|H];
    destruct (Z.compare_spec (2 * (A mod b)) b) as [H'|H'|H']; try reflexivity; lia.
Qed.

(** Division of positive floats of 24 digits. *)
Lemma fdiv_pos (mx my : positive) (ex ey n : Z) :
  2 ^ 23 <= Zpos mx < 2 ^ 24 -> 2 ^ 23 <= Zpos my < 2 ^ 24 ->
  (n = 0 /\ Zpos mx < Zpos my) \/ (n = 1 /\ Zpos my <= Zpos mx) ->
  -149 <= ex - ey - 24 -> ex - ey - 24 + n + 1 <= 104 ->
  SFdiv 24 128 (S754_finite false mx ex) (S754_finite false my ey)
  = pack (rnd (Zpos mx * 2 ^ 24) (Zpos my * 2 ^ n)) (ex - ey - 24 + n).
Proof.
  intros Hx Hy Hn Hlo Hhi. unfold SFdiv, SFdiv_core_binary. cbn [xorb].
  rewrite (Zdigits2_unique (Zpos mx) 24), (Zdigits2_unique (Zpos my) 24)
    by (change (24 - 1) with 23; lia).
  replace (24 + ex - (24 + ey)) with (ex - ey) by lia.
  rewrite fexp32 by lia.
  rewrite Z.min_l by lia.
  replace (ex - ey - (ex - ey - 24)) with 24 by lia.
  rewrite Z.shiftl_mul_pow2 by lia.
  pose proof (Z.div_eucl_eq (Zpos mx * 2 ^ 24) (Zpos my) ltac:(lia)) as Heq.
  assert (Hq : fst (Z.div_eucl (Zpos mx * 2 ^ 24) (Zpos my)) = Zpos mx * 2 ^ 24 / Zpos my)
    by reflexivity.
  assert (Hr : snd (Z.div_eucl (Zpos mx * 2 ^ 24) (Zpos my)) = (Zpos mx * 2 ^ 24) mod Zpos my)
    by reflexivity.
  destruct (Z.div_eucl (Zpos mx * 2 ^ 24) (Zpos my)) as [q r]. cbn [fst snd] in Hq, Hr.
  subst q r. rewrite new_location_spec by lia.
  apply binary_round_aux_spec; try lia.
  destruct Hn as [[-> Hlt]|[-> Hge]].
  - split.
    + apply Z.div_le_lower_bound; [lia|]. change (2 ^ (23 + 0)) with (2 ^ 23). nia.
    + apply Z.div_lt_upper_bound; [lia|]. change (2 ^ (24 + 0)) with (2 ^ 24). nia.
  - split.
    + apply Z.div_le_lower_bound; [lia|]. change (2 ^ (23 + 1)) with (2 ^ 24). nia.
    + apply Z.div_lt_upper_bound; [lia|]. change (2 ^ (24 + 1)) with (2 ^ 25). nia.
Qed.

(** Truncation of a positive float below 2^24. *)
Lemma trunc_nonpos_exp (m : positive) (e : Z) :
  e <= 0 -> Float.trunc (S754_finite false m e) = Zpos m / 2 ^ (- e).
Proof.
  intros He. unfold Float.trunc. destruct e as [|p|p]; try lia.
  - cbn. now rewrite Z.div_1_r.
  - reflexivity.
Qed.

Lemma trunc_mono (m m' : positive) (e e' : Z) :
  2 ^ 23 <= Zpos m < 2 ^ 24 -> 2 ^ 23 <= Zpos m' < 2 ^ 24 ->
  e <= 0 -> e' <= 0 ->
  SFleb (S754_finite false m e) (S754_finite false m' e') = true ->
  Float.trunc (S754_finite false m e) <= Float.trunc (S754_finite false m' e').
Proof.
  intros Hm Hm' He He' Hle. apply SFleb_pos in Hle.
  rewrite !trunc_nonpos_exp by assumption.
  destruct Hle as [Hlt|[-> Hmm]].
  - replace (2 ^ (- e)) with (2 ^ (e' - e) * 2 ^ (- e'))
      by (rewrite <- Z.pow_add_r by lia; f_equal; lia).
    pose proof (pow2_pos (- e') ltac:(lia)).
    pose proof (pow2_pos (e' - e) ltac:(lia)).
    rewrite <- Z.div_div by lia.
    apply Z.div_le_mono; [lia|].
    assert (Zpos m / 2 ^ (e' - e) <= Zpos m / 2).
    { apply Z.div_le_compat_l; [lia|]. split; [lia|].
      change 2 with (2 ^ 1) at 1. apply Z.pow_le_mono_r; lia. }
    assert (Zpos m / 2 < 2 ^ 23) by (apply Z.div_lt_upper_bound; lia).
    lia.
  - apply Z.div_le_mono; [apply pow2_pos|]; lia.
Qed.

Lemma trunc_RN (a b t : Z) :
  0 < b -> 1 <= t -> binade a b t ->
  Float.trunc (RN a b t) = rnd (a * 2 ^ t) b / 2 ^ t.
Proof.
  intros Hb Ht Hbin. pose proof (binade_rnd a b t Hb Hbin) as Hm.
  unfold RN, pack. destruct (Z.eqb_spec (rnd (a * 2 ^ t) b) (2 ^ 24)) as [E|E].
  - rewrite E, trunc_nonpos_exp by lia.
    replace (- (- t + 1)) with (t - 1) by lia.
    assert (Hpw : 2 ^ t = 2 * 2 ^ (t - 1))
      by (rewrite <- Z.pow_succ_r by lia; f_equal; lia).
    pose proof (pow2_pos (t - 1) ltac:(lia)).
    rewrite Hpw. change (2 ^ 24) with (2 * 2 ^ 23).
    rewrite Z.div_mul_cancel_l by lia. reflexivity.
  - rewrite trunc_nonpos_exp by lia. rewrite Z2Pos.id, Z.opp_involutive by lia.
    reflexivity.
Qed.

(** The quotient of two positive integers below 2^24, given as floats in
    the same unit, is the rounding of the exact quotient. *)
Lemma fdiv_canon (N K e0 : Z) :
  0 < N < 2 ^ 24 -> 0 < K < 2 ^ 24 -> -22 <= e0 <= -21 ->
  exists t, 0 <= t <= 48 /\ binade N K t
            /\ SFdiv 24 128 (canon N e0) (canon K e0) = RN N K t.
Proof.
  intros HN HK He.
  destruct (shift_exists N HN) as (jN & HjN & HbN).
  destruct (shift_exists K HK) as (jK & HjK & HbK).
  rewrite (canon_form N e0 jN), (canon_form K e0 jK) by lia.
  pose proof (pow2_pos jN ltac:(lia)) as HpN. pose proof (pow2_pos jK ltac:(lia)) as HpK.
  assert (HmN : 2 ^ 23 <= N * 2 ^ jN < 2 ^ 24).
  { replace (2 ^ 23) with (2 ^ (23 - jN) * 2 ^ jN)
      by (rewrite <- Z.pow_add_r by lia; f_equal; lia).
    replace (2 ^ 24) with (2 ^ (24 - jN) * 2 ^ jN)
      by (rewrite <- Z.pow_add_r by lia; f_equal; lia).
    nia. }
  assert (HmK : 2 ^ 23 <= K * 2 ^ jK < 2 ^ 24).
  { replace (2 ^ 23) with (2 ^ (23 - jK) * 2 ^ jK)
      by (rewrite <- Z.pow_add_r by lia; f_equal; lia).
    replace (2 ^ 24) with (2 ^ (24 - jK) * 2 ^ jK)
      by (rewrite <- Z.pow_add_r by lia; f_equal; lia).
    nia. }
  set (n := if N * 2 ^ jN <? K * 2 ^ jK then 0 else 1).
  assert (Hn : (n = 0 /\ N * 2 ^ jN < K * 2 ^ jK) \/ (n = 1 /\ K * 2 ^ jK <= N * 2 ^ jN)).
  { unfold n. destruct (Z.ltb_spec (N * 2 ^ jN) (K * 2 ^ jK)); [left | right]; lia. }
  rewrite (fdiv_pos _ _ _ _ n) by (rewrite ?Z2Pos.id by lia; lia).
  rewrite !Z2Pos.id by lia.
  exists (24 + jN - jK - n). split; [lia|].
  assert (Hpow : 2 ^ (24 + jN) = 2 ^ (24 + jN - jK - n) * 2 ^ (jK + n)).
  { rewrite <- Z.pow_add_r by lia. f_equal. lia. }
  pose proof (pow2_pos (24 + jN - jK - n) ltac:(lia)) as Hpt.
  pose proof (pow2_pos (jK + n) ltac:(lia)) as Hpc.
  assert (Hscale : N * 2 ^ jN * 2 ^ 24 = N * 2 ^ (24 + jN - jK - n) * 2 ^ (jK + n)).
  { rewrite <- Z.mul_assoc, <- Z.pow_add_r, (Z.add_comm jN 24), Hpow by lia. ring. }
  assert (Hden : K * 2 ^ jK * 2 ^ n = K * 2 ^ (jK + n)).
  { rewrite Z.pow_add_r by lia. ring. }
  split.
  - unfold binade.
    assert (H23 : 2 ^ (23 + n) * (K * 2 ^ jK) <= N * 2 ^ jN * 2 ^ 24
                  < 2 ^ (24 + n) * (K * 2 ^ jK)).
    { destruct Hn as [[-> Hlt]|[-> Hge]]; cbn [Z.add]; change (2 ^ 25) with (2 * 2 ^ 24);
        change (2 ^ 24) with (2 * 2 ^ 23) at 1; nia. }
    rewrite Hscale in H23.
    replace (2 ^ (23 + n) * (K * 2 ^ jK)) with (2 ^ 23 * K * 2 ^ (jK + n)) in H23
      by (rewrite !Z.pow_add_r by lia; ring).
    replace (2 ^ (24 + n) * (K * 2 ^ jK)) with (2 ^ 24 * K * 2 ^ (jK + n)) in H23
      by (rewrite !Z.pow_add_r by lia; ring).
    nia.
  - unfold RN. f_equal; [|lia].
    rewrite Hscale, Hden. apply rnd_scale; lia.
Qed.

Lemma pow2_lt_inv (x y : Z) : 0 <= y -> 2 ^ x < 2 ^ y -> x < y.
Proof.
  intros Hy H. destruct (Z_lt_ge_dec x y) as [|Hge]; [assumption | exfalso].
  assert (2 ^ y <= 2 ^ x) by (apply Z.pow_le_mono_r; lia). lia.
Qed.

Lemma pow2_split (x y : Z) : 0 <= y <= x -> 2 ^ x = 2 ^ (x - y) * 2 ^ y.
Proof. intros H. rewrite <- Z.pow_add_r by lia. f_equal. lia. Qed.

Lemma shifted_bounds (N j : Z) :
  0 <= j <= 23 -> 2 ^ (23 - j) <= N < 2 ^ (24 - j) -> 2 ^ 23 <= N * 2 ^ j < 2 ^ 24.
Proof.
  intros Hj HN. pose proof (pow2_pos j ltac:(lia)).
  rewrite (pow2_split 23 j), (pow2_split 24 j) by lia. nia.
Qed.

(** Multiplication by 5 is exact as long as the product stays below
    2^24. *)
Lemma fmul_five (k e0 : Z) :
  0 < k -> 5 * k < 2 ^ 24 -> -22 <= e0 <= -21 ->
  SFmul 24 128 (canon k e0) (canon 5 0) = canon (5 * k) e0.
Proof.
  intros Hk H5 He.
  destruct (shift_exists k ltac:(lia)) as (j & Hj & Hbk).
  destruct (shift_exists (5 * k) ltac:(lia)) as (j' & Hj' & Hb5).
  assert (Hjj : j' <= j).
  { assert (2 ^ (23 - j) < 2 ^ (24 - j')) by lia.
    apply pow2_lt_inv in H; lia. }
  rewrite (canon_form k e0 j), (canon_form (5 * k) e0 j') by lia.
  change (canon 5 0) with (S754_finite false 10485760 (-21)).
  pose proof (shifted_bounds k j Hj Hbk) as Hmk.
  pose proof (shifted_bounds (5 * k) j' Hj' Hb5) as Hm5.
  pose proof (pow2_pos j ltac:(lia)) as Hpj. pose proof (pow2_pos j' ltac:(lia)) as Hpj'.
  pose proof (pow2_pos (j + 21 - j') ltac:(lia)) as Hpn.
  assert (Hprod : Zpos (Z.to_pos (k * 2 ^ j)) * 10485760
                  = 5 * k * 2 ^ j' * 2 ^ (j + 21 - j')).
  { rewrite Z2Pos.id by lia. change 10485760 with (5 * 2 ^ 21).
    rewrite <- (Z.mul_assoc (5 * k)), <- Z.pow_add_r by lia.
    replace (j' + (j + 21 - j')) with (j + 21) by lia.
    rewrite Z.pow_add_r by lia. ring. }
  rewrite (fmul_pos _ _ _ _ (j + 21 - j')); rewrite ?Hprod.
  - rewrite rnd_exact by lia. unfold pack.
    destruct (Z.eqb_spec (5 * k * 2 ^ j') (2 ^ 24)); [lia|].
    f_equal. lia.
  - lia.
  - rewrite (Z.pow_add_r 2 23), (Z.pow_add_r 2 24) by lia. nia.
  - lia.
  - lia.
Qed.

Lemma digits_exists (M : Z) : 0 < M -> exists d, 0 < d /\ 2 ^ (d - 1) <= M < 2 ^ d.
Proof.
  intros HM. destruct M as [|p|p]; try lia.
  exists (Zpos (digits2_pos p)). split; [lia | apply digits2_pos_bounds].
Qed.

(** A small integer plus a positive float that is at most 5: the exact sum
    rounded. *)
Lemma fadd_canon (p : Z) (mq : positive) (eq : Z) :
  p = 0 \/ 4 <= p <= 100 ->
  2 ^ 23 <= Zpos mq < 2 ^ 24 -> -48 <= eq <= -21 ->
  exists t1, 16 <= t1 <= - eq
    /\ binade (p * 2 ^ (- eq) + Zpos mq) (2 ^ (- eq)) t1
    /\ SFadd 24 128 (canon p 0) (S754_finite false mq eq)
       = RN (p * 2 ^ (- eq) + Zpos mq) (2 ^ (- eq)) t1.
Proof.
  intros Hp Hmq Heq. pose proof (pow2_pos (- eq) ltac:(lia)) as Hpe.
  destruct Hp as [->|Hp].
  - exists (- eq). split; [lia|]. rewrite Z.mul_0_l, Z.add_0_l. split.
    + unfold binade. nia.
    + change (canon 0 0) with (S754_zero false). cbn [SFadd].
      unfold RN. rewrite rnd_exact by lia. rewrite Z.opp_involutive. unfold pack.
      destruct (Z.eqb_spec (Zpos mq) (2 ^ 24)); [lia|]. now rewrite Pos2Z.id.
  - destruct (shift_exists p ltac:(lia)) as (jp & Hjp & Hbp).
    assert (Hjp' : 17 <= jp <= 21).
    { split.
      - assert (H : 2 ^ (23 - jp) < 2 ^ 7) by (change (2 ^ 7) with 128; lia).
        apply pow2_lt_inv in H; lia.
      - assert (H : 2 ^ 2 < 2 ^ (24 - jp)) by (change (2 ^ 2) with 4; lia).
        apply pow2_lt_inv in H; lia. }
    rewrite (canon_form p 0 jp) by lia.
    pose proof (shifted_bounds p jp Hjp Hbp) as Hmp.
    rewrite fadd_pos. rewrite Z.min_r by lia.
    rewrite Z2Pos.id, Z.sub_diag, Z.mul_1_r by lia.
    replace (p * 2 ^ jp * 2 ^ (0 - jp - eq)) with (p * 2 ^ (- eq))
      by (rewrite <- Z.mul_assoc, <- Z.pow_add_r by lia; do 2 f_equal; lia).
    set (M := p * 2 ^ (- eq) + Zpos mq).
    assert (HM : 2 ^ 23 <= M) by (unfold M; nia).
    destruct (digits_exists M ltac:(lia)) as (d & Hd & HbM).
    assert (Hd24 : 24 <= d).
    { assert (H : 2 ^ 23 < 2 ^ d) by lia. apply pow2_lt_inv in H; lia. }
    assert (Hupper : M < 2 ^ (8 - eq)).
    { unfold M. replace (2 ^ (8 - eq)) with (256 * 2 ^ (- eq))
        by (change 256 with (2 ^ 8); rewrite <- Z.pow_add_r by lia; f_equal; lia).
      assert (2 ^ 21 <= 2 ^ (- eq)) by (apply Z.pow_le_mono_r; lia).
      change (2 ^ 24) with (8 * 2 ^ 21) in Hmq. nia. }
    assert (Hd8 : d - 1 < 8 - eq).
    { assert (H : 2 ^ (d - 1) < 2 ^ (8 - eq)) by lia. apply pow2_lt_inv in H; lia. }
    rewrite (canon_large M eq (d - 24))
      by (try replace (23 + (d - 24)) with (d - 1) by lia;
          try replace (24 + (d - 24)) with d by lia; lia).
    exists (- eq - (d - 24)). split; [lia|].
    pose proof (pow2_pos (d - 24) ltac:(lia)) as Hpn.
    pose proof (pow2_pos (- eq - (d - 24)) ltac:(lia)) as Hpt.
    assert (Hsplit : 2 ^ (- eq) = 2 ^ (d - 24) * 2 ^ (- eq - (d - 24))).
    { rewrite <- Z.pow_add_r by lia. f_equal. lia. }
    split.
    + unfold binade. rewrite Hsplit.
      replace (2 ^ (d - 1)) with (2 ^ 23 * 2 ^ (d - 24)) in HbM
        by (rewrite <- Z.pow_add_r by lia; f_equal; lia).
      replace (2 ^ d) with (2 ^ 24 * 2 ^ (d - 24)) in HbM
        by (rewrite <- Z.pow_add_r by lia; f_equal; lia).
      nia.
    + unfold RN. f_equal; [|lia]. rewrite Hsplit. symmetry. apply rnd_scale; lia.
Qed.

(** ** Interpolation inside one segment of the table *)

Section Segment.
Variables K ea pa : Z.
Hypothesis HK : 0 < K /\ 5 * K < 2 ^ 24.
Hypothesis Hea : -22 <= ea <= -21.
Hypothesis Hpa : pa = 0 \/ 4 <= pa <= 95.

(** For a voltage [k] units above the lower anchor, the interpolation is
    the exact [pa + 5k/K] rounded twice: the quotient first, then the
    sum. *)
Lemma interp_steps (k : Z) :
  1 <= k <= K ->
  exists (t : Z) (mq : positive) (eq t1 : Z),
    binade (5 * k) K t /\ 0 <= t
    /\ RN (5 * k) K t = S754_finite false mq eq
    /\ 2 ^ 23 <= Zpos mq < 2 ^ 24 /\ -48 <= eq <= -21
    /\ Zpos mq <= 5 * 2 ^ (- eq)
    /\ binade (pa * 2 ^ (- eq) + Zpos mq) (2 ^ (- eq)) t1 /\ 16 <= t1 <= - eq
    /\ interp_float pa (canon k ea) (canon K ea)
       = RN (pa * 2 ^ (- eq) + Zpos mq) (2 ^ (- eq)) t1.
Proof.
  intros Hk. destruct HK as [HK0 HK5].
  destruct (fdiv_canon (5 * k) K ea ltac:(lia) ltac:(lia) Hea) as (t & Ht & Hbin & Hdiv).
  pose proof (binade_rnd (5 * k) K t HK0 Hbin) as Hm.
  pose proof (pow2_pos t ltac:(lia)) as Hpt.
  assert (Hm5 : rnd (5 * k * 2 ^ t) K <= 5 * 2 ^ t).
  { apply (rnd_between _ K 0 (5 * 2 ^ t)); nia. }
  assert (Ht21 : 21 <= t).
  { destruct (Z_le_gt_dec 21 t) as [|Hlt]; [assumption | exfalso].
    assert (2 ^ t <= 2 ^ 20) by (apply Z.pow_le_mono_r; lia).
    change (2 ^ 20) with 1048576 in *. change (2 ^ 23) with 8388608 in *.
    destruct Hbin as [Hb1 _]. nia. }
  destruct (pack_form (rnd (5 * k * 2 ^ t) K) (- t) Hm) as (mq & eq & Hpack & Hmq & Heq & Hval).
  replace (eq - - t) with (eq + t) in Hval by lia.
  pose proof (pow2_pos (eq + t) ltac:(lia)) as Hpet.
  assert (Heq21 : eq <= -21).
  { destruct (Z_le_gt_dec eq (-21)) as [|Hgt]; [assumption | exfalso].
    assert (t = 21 /\ eq = -20) as [-> ->] by lia.
    change (2 ^ (-20 + 21)) with 2 in Hval. change (2 ^ 21) with 2097152 in *.
    change (2 ^ 23) with 8388608 in *. lia. }
  pose proof (pow2_pos (- eq) ltac:(lia)) as Hpe.
  assert (Hmqv : Zpos mq <= 5 * 2 ^ (- eq)).
  { assert (Hsp : 2 ^ t = 2 ^ (eq + t) * 2 ^ (- eq))
      by (rewrite <- Z.pow_add_r by lia; f_equal; lia).
    rewrite Hval in Hm5. clear Hval Hm.
    set (u := 2 ^ (eq + t)) in *. set (w := 2 ^ (- eq)) in *.
    set (z := 2 ^ t) in *. clearbody u w z. subst z. nia. }
  destruct (fadd_canon pa mq eq ltac:(lia) Hmq ltac:(lia)) as (t1 & Ht1 & Hbin1 & Hadd).
  exists t, mq, eq, t1.
  repeat (split; [first [assumption | lia]|]).
  unfold interp_float.
  change (Float.fmul (canon k ea) (Float.float_of_int 5))
    with (SFmul 24 128 (canon k ea) (canon 5 0)).
  rewrite fmul_five by lia.
  change (Float.fdiv (canon (5 * k) ea) (canon K ea))
    with (SFdiv 24 128 (canon (5 * k) ea) (canon K ea)).
  rewrite Hdiv. unfold RN at 1. rewrite Hpack. exact Hadd.
Qed.

(** Every integer below the exact [pa + 5k/K] is below the result, every
    integer above it is above the result. *)
Lemma interp_trunc_between (k lo hi : Z) :
  1 <= k <= K -> lo * K <= 5 * k -> 5 * k <= hi * K ->
  pa + lo <= Float.trunc (interp_float pa (canon k ea) (canon K ea)) <= pa + hi.
Proof.
  intros Hk Hlo Hhi.
  destruct (interp_steps k Hk)
    as (t & mq & eq & t1 & Hbin & Ht & Hq & Hmq & Heq & _ & Hbin1 & Ht1 & ->).
  destruct HK as [HK0 _].
  pose proof (pow2_pos (- eq) ltac:(lia)) as Hpe.
  pose proof (pow2_pos t1 ltac:(lia)) as Hpt1.
  pose proof (pow2_pos t ltac:(lia)) as Hpt.
  assert (Ht1' : 1 <= t1) by lia.
  rewrite (trunc_RN _ _ _ Hpe Ht1' Hbin1).
  (* the quotient lies between the two integers *)
  assert (Hquot : lo * 2 ^ (- eq) <= Zpos mq <= hi * 2 ^ (- eq)).
  { assert (Hr : lo * 2 ^ t <= rnd (5 * k * 2 ^ t) K <= hi * 2 ^ t)
      by (apply rnd_between; [lia | nia | nia]).
    unfold RN, pack in Hq.
    destruct (Z.eqb_spec (rnd (5 * k * 2 ^ t) K) (2 ^ 24)) as [E|E].
    - injection Hq as Hm He. rewrite E in Hr. subst eq.
      replace (- (- t + 1)) with (t - 1) by lia.
      assert (Hsp : 2 ^ t = 2 * 2 ^ (t - 1)).
      { rewrite <- Z.pow_succ_r by lia. f_equal. lia. }
      rewrite <- Hm.
      replace (Zpos (Z.to_pos (2 ^ 23))) with 8388608 by reflexivity.
      change (2 ^ 24) with 16777216 in Hr. lia.
    - injection Hq as Hm He. subst eq. rewrite Z.opp_involutive.
      rewrite <- Hm.
      pose proof (binade_rnd (5 * k) K t HK0 Hbin) as Hb.
      rewrite Z2Pos.id by (change (2 ^ 23) with 8388608 in Hb; lia). exact Hr. }
  assert (Hr : (pa + lo) * 2 ^ t1
               <= rnd ((pa * 2 ^ (- eq) + Zpos mq) * 2 ^ t1) (2 ^ (- eq))
               <= (pa + hi) * 2 ^ t1).
  { clear Hbin1 Hpa Hq.
    set (u := 2 ^ (- eq)) in *. set (w := 2 ^ t1) in *. clearbody u w.
    apply rnd_between; [lia | nia | nia]. }
  split.
  - apply Z.div_le_lower_bound; lia.
  - apply Z.div_le_upper_bound; lia.
Qed.

Lemma interp_trunc_mono (k k' : Z) :
  1 <= k -> k <= k' -> k' <= K ->
  Float.trunc (interp_float pa (canon k ea) (canon K ea))
  <= Float.trunc (interp_float pa (canon k' ea) (canon K ea)).
Proof.
  intros Hk Hkk Hk'.
  destruct (interp_steps k ltac:(lia))
    as (t & mq & eq & t1 & Hb & Ht & Hq & Hmq & Heq & _ & Hbin1 & Ht1 & ->).
  destruct (interp_steps k' ltac:(lia))
    as (t' & mq' & eq' & t1' & Hb' & Ht' & Hq' & Hmq' & Heq' & _ & Hbin1' & Ht1' & ->).
  destruct HK as [HK0 HK5].
  assert (Hqle : SFleb (RN (5 * k) K t) (RN (5 * k') K t') = true)
    by (apply RN_mono; try assumption; nia).
  rewrite Hq, Hq' in Hqle. apply SFleb_pos in Hqle.
  pose proof (pow2_pos (- eq) ltac:(lia)) as Hpe.
  pose proof (pow2_pos (- eq') ltac:(lia)) as Hpe'.
  assert (Hval : Zpos mq * 2 ^ (- eq') <= Zpos mq' * 2 ^ (- eq)).
  { destruct Hqle as [Hlt|[<- Hle]]; [|nia].
    rewrite (pow2_split (- eq) (- eq')) by lia.
    assert (2 <= 2 ^ (- eq - - eq')).
    { change 2 with (2 ^ 1) at 1. apply Z.pow_le_mono_r; lia. }
    change (2 ^ 24) with 16777216 in *. change (2 ^ 23) with 8388608 in *.
    set (d := 2 ^ (- eq - - eq')) in *. set (w := 2 ^ (- eq')) in *. clearbody d w.
    assert (Zpos mq <= Zpos mq' * d) by nia.
    rewrite Z.mul_assoc. apply Z.mul_le_mono_nonneg_r; lia. }
  assert (HF : SFleb (RN (pa * 2 ^ (- eq) + Zpos mq) (2 ^ (- eq)) t1)
                     (RN (pa * 2 ^ (- eq') + Zpos mq') (2 ^ (- eq')) t1') = true).
  { apply RN_mono; try assumption; try lia; nia. }
  pose proof (binade_rnd _ _ _ Hpe Hbin1) as Hm1.
  pose proof (binade_rnd _ _ _ Hpe' Hbin1') as Hm1'.
  unfold RN in *.
  destruct (pack_form _ (- t1) Hm1) as (mF & eF & HpF & HmF & HeF & _).
  destruct (pack_form _ (- t1') Hm1') as (mF' & eF' & HpF' & HmF' & HeF' & _).
  rewrite HpF, HpF' in *. apply trunc_mono; try assumption; lia.
Qed.

End Segment.

(** ** Voltages in the range of the table *)

Lemma in_range_inv (x : spec_float) :
  in_range x = true ->
  exists (m : positive) (e : Z),
    x = S754_finite false m e /\ 2 ^ 23 <= Zpos m < 2 ^ 24 /\ -22 <= e <= -21.
Proof.
  destruct x as [| | |[] m e]; try discriminate. cbn [in_range]. intros H.
  rewrite !andb_true_iff, !Z.leb_le, Z.ltb_lt in H.
  exists m, e. split; [reflexivity | lia].
Qed.

Lemma fle_units (e0 : Z) (x y : spec_float) :
  in_range x = true -> in_range y = true ->
  -22 <= e0 -> e0 <= exponent x -> e0 <= exponent y ->
  (SFleb x y = true <-> units e0 x <= units e0 y).
Proof.
  intros Hx Hy He0 Hex Hey.
  destruct (in_range_inv x Hx) as (mx & ex & -> & Hmx & Hex').
  destruct (in_range_inv y Hy) as (my & ey & -> & Hmy & Hey').
  cbn [exponent] in *. rewrite SFleb_pos. unfold units. cbn [mantissa exponent].
  change (2 ^ 24) with 16777216 in *. change (2 ^ 23) with 8388608 in *.
  assert (ex - e0 = 0 \/ ex - e0 = 1) as [Ex|Ex] by lia;
    assert (ey - e0 = 0 \/ ey - e0 = 1) as [Ey|Ey] by lia;
    rewrite Ex, Ey; change (2 ^ 0) with 1; change (2 ^ 1) with 2; lia.
Qed.

Lemma flt_units (e0 : Z) (x y : spec_float) :
  in_range x = true -> in_range y = true ->
  -22 <= e0 -> e0 <= exponent x -> e0 <= exponent y ->
  (SFltb x y = true <-> units e0 x < units e0 y).
Proof.
  intros Hx Hy He0 Hex Hey.
  destruct (in_range_inv x Hx) as (mx & ex & -> & Hmx & Hex').
  destruct (in_range_inv y Hy) as (my & ey & -> & Hmy & Hey').
  cbn [exponent] in *. rewrite SFltb_pos. unfold units. cbn [mantissa exponent].
  change (2 ^ 24) with 16777216 in *. change (2 ^ 23) with 8388608 in *.
  assert (ex - e0 = 0 \/ ex - e0 = 1) as [Ex|Ex] by lia;
    assert (ey - e0 = 0 \/ ey - e0 = 1) as [Ey|Ey] by lia;
    rewrite Ex, Ey; change (2 ^ 0) with 1; change (2 ^ 1) with 2; lia.
Qed.

Lemma fle_exponent (x y : spec_float) :
  in_range x = true -> in_range y = true -> SFleb x y = true ->
  exponent x <= exponent y.
Proof.
  intros Hx Hy.
  destruct (in_range_inv x Hx) as (mx & ex & -> & Hmx & Hex').
  destruct (in_range_inv y Hy) as (my & ey & -> & Hmy & Hey').
  rewrite SFleb_pos. cbn [exponent]. lia.
Qed.

Lemma in_range_exponent (x : spec_float) :
  in_range x = true -> -22 <= exponent x <= -21.
Proof.
  intros Hx. destruct (in_range_inv x Hx) as (mx & ex & -> & Hmx & Hex'). exact Hex'.
Qed.

Lemma fsub_units (v a : spec_float) :
  in_range v = true -> in_range a = true -> exponent a <= exponent v ->
  Float.fsub v a = canon (units (exponent a) v - units (exponent a) a) (exponent a).
Proof.
  intros Hv Ha.
  destruct (in_range_inv v Hv) as (m & e & -> & Hm & He).
  destruct (in_range_inv a Ha) as (ma & ea & -> & Hma & Hea).
  cbn [exponent]. intros Hle.
  change (Float.fsub (S754_finite false m e) (S754_finite false ma ea))
    with (SFsub 24 128 (S754_finite false m e) (S754_finite false ma ea)).
  rewrite fsub_pos, Z.min_r by lia. unfold units. cbn [mantissa exponent].
  reflexivity.
Qed.

(** *** One segment *)

Section SegmentOfTable.
Variables a b : Main.batt_point_t.
Hypothesis Hcheck : seg_check a b = true.

Lemma seg_check_inv :
  in_range (Main.voltage a) = true /\ in_range (Main.voltage b) = true
  /\ exponent (Main.voltage a) <= exponent (Main.voltage b)
  /\ (0 < seg_K a b /\ 5 * seg_K a b < 2 ^ 24)
  /\ (Main.percent a = 0 \/ 4 <= Main.percent a <= 95)
  /\ Main.percent b = Main.percent a + 5
  /\ seg_T a b 0 = Main.percent a.
Proof.
  unfold seg_check in Hcheck.
  rewrite !andb_true_iff, orb_true_iff, !andb_true_iff in Hcheck.
  rewrite !Z.leb_le, !Z.ltb_lt, !Z.eqb_eq in Hcheck.
  intuition.
Qed.

Lemma seg_T_between (k lo hi : Z) :
  0 <= k <= seg_K a b -> lo * seg_K a b <= 5 * k -> 5 * k <= hi * seg_K a b ->
  Main.percent a + lo <= seg_T a b k <= Main.percent a + hi.
Proof.
  intros Hk Hlo Hhi.
  destruct seg_check_inv as (Hra & Hrb & Hexp & HK & Hpa & Hpb & H0).
  pose proof (in_range_exponent _ Hra) as Hea.
  destruct (Z.eq_dec k 0) as [->|Hne].
  - rewrite H0. nia.
  - apply (interp_trunc_between _ _ _ HK Hea Hpa k lo hi); lia.
Qed.

Lemma seg_T_mono (k k' : Z) :
  0 <= k -> k <= k' -> k' <= seg_K a b -> seg_T a b k <= seg_T a b k'.
Proof.
  intros Hk Hkk Hk'.
  destruct seg_check_inv as (Hra & Hrb & Hexp & HK & Hpa & Hpb & H0).
  pose proof (in_range_exponent _ Hra) as Hea.
  destruct (Z.eq_dec k 0) as [->|Hne].
  - rewrite H0.
    pose proof (seg_T_between k' 0 5 ltac:(lia) ltac:(lia) ltac:(lia)). lia.
  - apply (interp_trunc_mono _ _ _ HK Hea Hpa k k'); lia.
Qed.

(** The code's formula on a voltage of the segment. *)
Lemma interpolate_units (v : spec_float) :
  in_range v = true ->
  SFleb (Main.voltage a) v = true -> SFleb v (Main.voltage b) = true ->
  0 <= above a v <= seg_K a b
  /\ Main.interpolate a b v = seg_T a b (above a v).
Proof.
  intros Hv Hav Hvb.
  destruct seg_check_inv as (Hra & Hrb & Hexp & HK & Hpa & Hpb & H0).
  pose proof (in_range_exponent _ Hra) as Hea.
  pose proof (fle_exponent _ v Hra Hv Hav) as Hev.
  assert (Hk : 0 <= above a v <= seg_K a b).
  { apply (fle_units (exponent (Main.voltage a)) _ v Hra Hv) in Hav;
      [|lia|lia|exact Hev].
    apply (fle_units (exponent (Main.voltage a)) v _ Hv Hrb) in Hvb;
      [|lia|exact Hev|exact Hexp].
    unfold seg_K, above. lia. }
  split; [exact Hk|].
  pose proof (seg_T_between _ 0 5 Hk ltac:(lia) ltac:(lia)) as HT.
  unfold Main.interpolate.
  replace (Main.percent b - Main.percent a) with 5 by lia.
  rewrite (fsub_units v _ Hv Hra Hev), (fsub_units _ _ Hrb Hra Hexp).
  unfold uint8_t.
  change (seg_T a b (above a v) mod 256 = seg_T a b (above a v)).
  apply Z.mod_small. lia.
Qed.

Lemma interpolate_bounds (v : spec_float) :
  in_range v = true ->
  SFleb (Main.voltage a) v = true -> SFleb v (Main.voltage b) = true ->
  Main.percent a <= Main.interpolate a b v <= Main.percent b.
Proof.
  intros Hv Hav Hvb.
  destruct (interpolate_units v Hv Hav Hvb) as [Hk ->].
  destruct seg_check_inv as (_ & _ & _ & _ & _ & Hpb & _).
  pose proof (seg_T_between _ 0 5 Hk ltac:(lia) ltac:(lia)). lia.
Qed.

Lemma interpolate_mono (v w : spec_float) :
  in_range v = true -> in_range w = true ->
  SFleb (Main.voltage a) v = true -> SFleb v w = true ->
  SFleb w (Main.voltage b) = true ->
  Main.interpolate a b v <= Main.interpolate a b w.
Proof.
  intros Hv Hw Hav Hvw Hwb.
  destruct seg_check_inv as (Hra & Hrb & Hexp & HK & Hpa & Hpb & H0).
  pose proof (in_range_exponent _ Hra) as Hea.
  pose proof (fle_exponent _ v Hra Hv Hav) as Hev.
  pose proof (fle_exponent v w Hv Hw Hvw) as Hew.
  pose proof (in_range_exponent _ Hrb) as Heb.
  pose proof (in_range_exponent _ Hv) as Hev'.
  pose proof (in_range_exponent _ Hw) as Hew'.
  assert (Haw : SFleb (Main.voltage a) w = true).
  { apply (fle_units (exponent (Main.voltage a)) _ w Hra Hw); try lia.
    apply (fle_units (exponent (Main.voltage a)) _ v Hra Hv) in Hav; try lia.
    apply (fle_units (exponent (Main.voltage a)) v w Hv Hw) in Hvw; try lia. }
  assert (Hvb : SFleb v (Main.voltage b) = true).
  { apply (fle_units (exponent (Main.voltage a)) v _ Hv Hrb); try lia.
    apply (fle_units (exponent (Main.voltage a)) v w Hv Hw) in Hvw; try lia.
    apply (fle_units (exponent (Main.voltage a)) w _ Hw Hrb) in Hwb; try lia. }
  destruct (interpolate_units v Hv Hav Hvb) as [Hk ->].
  destruct (interpolate_units w Hw Haw Hwb) as [Hk' ->].
  apply (fle_units (exponent (Main.voltage a)) v w Hv Hw) in Hvw; try lia.
  apply seg_T_mono; unfold above in *; lia.
Qed.

End SegmentOfTable.

(** ** The whole table *)

Lemma batt_table_checked : chain_check Main.batt_table = true.
Proof. vm_compute. reflexivity. Qed.

(** *** The order of the voltages of the range *)

Lemma fle_total (x y : spec_float) :
  in_range x = true -> in_range y = true -> SFleb x y = false -> SFleb y x = true.
Proof.
  intros Hx Hy Hxy.
  pose proof (in_range_exponent x Hx). pose proof (in_range_exponent y Hy).
  apply (fle_units (-22) y x Hy Hx); try lia.
  destruct (Z_le_gt_dec (units (-22) x) (units (-22) y)) as [Hle|Hgt]; [|lia].
  apply (fle_units (-22) x y Hx Hy) in Hle; try lia. congruence.
Qed.

Lemma fle_trans (x y z : spec_float) :
  in_range x = true -> in_range y = true -> in_range z = true ->
  SFleb x y = true -> SFleb y z = true -> SFleb x z = true.
Proof.
  intros Hx Hy Hz Hxy Hyz.
  pose proof (in_range_exponent x Hx). pose proof (in_range_exponent y Hy).
  pose proof (in_range_exponent z Hz).
  apply (fle_units (-22) x y Hx Hy) in Hxy; try lia.
  apply (fle_units (-22) y z Hy Hz) in Hyz; try lia.
  apply (fle_units (-22) x z Hx Hz); lia.
Qed.

Lemma fle_refl (x : spec_float) : in_range x = true -> SFleb x x = true.
Proof.
  intros Hx. pose proof (in_range_exponent x Hx).
  apply (fle_units (-22) x x Hx Hx); lia.
Qed.

Lemma fle_antisym (x y : spec_float) :
  in_range x = true -> in_range y = true ->
  SFleb x y = true -> SFleb y x = true -> x = y.
Proof.
  intros Hx Hy.
  destruct (in_range_inv x Hx) as (mx & ex & -> & Hmx & Hex).
  destruct (in_range_inv y Hy) as (my & ey & -> & Hmy & Hey).
  rewrite !SFleb_pos. intros H1 H2.
  assert (ex = ey) as -> by lia. assert (Zpos mx = Zpos my) as E by lia.
  injection E as ->. reflexivity.
Qed.

Lemma flt_fle (x y : spec_float) :
  in_range x = true -> in_range y = true -> SFltb x y = true -> SFleb x y = true.
Proof.
  intros Hx Hy.
  destruct (in_range_inv x Hx) as (mx & ex & -> & Hmx & Hex).
  destruct (in_range_inv y Hy) as (my & ey & -> & Hmy & Hey).
  rewrite SFltb_pos, SFleb_pos. lia.
Qed.

Lemma flt_not_fle (x y : spec_float) :
  in_range x = true -> in_range y = true ->
  SFltb x y = true -> SFleb y x = true -> False.
Proof.
  intros Hx Hy.
  destruct (in_range_inv x Hx) as (mx & ex & -> & Hmx & Hex).
  destruct (in_range_inv y Hy) as (my & ey & -> & Hmy & Hey).
  rewrite SFltb_pos, SFleb_pos. lia.
Qed.

(** *** What the check of a segment gives *)

Lemma seg_check_range (a b : Main.batt_point_t) :
  seg_check a b = true ->
  in_range (Main.voltage a) = true /\ in_range (Main.voltage b) = true
  /\ SFltb (Main.voltage a) (Main.voltage b) = true
  /\ Main.percent b = Main.percent a + 5.
Proof.
  intros Hc. destruct (seg_check_inv a b Hc) as (Hra & Hrb & Hexp & [HK _] & _ & Hpb & _).
  pose proof (in_range_exponent _ Hra) as Hea.
  repeat split; try assumption.
  apply (flt_units (exponent (Main.voltage a)) _ _ Hra Hrb); try lia.
  unfold seg_K, above in HK. lia.
Qed.

Lemma interpolate_low (a b : Main.batt_point_t) :
  seg_check a b = true -> Main.interpolate a b (Main.voltage a) = Main.percent a.
Proof.
  intros Hc. destruct (seg_check_range a b Hc) as (Hra & Hrb & Hlt & Hpb).
  destruct (interpolate_units a b Hc (Main.voltage a) Hra (fle_refl _ Hra)
              (flt_fle _ _ Hra Hrb Hlt)) as [Hk ->].
  replace (above a (Main.voltage a)) with 0 by (unfold above; lia).
  apply (seg_check_inv a b Hc).
Qed.

Lemma interpolate_high (a b : Main.batt_point_t) :
  seg_check a b = true -> Main.interpolate a b (Main.voltage b) = Main.percent b.
Proof.
  intros Hc. destruct (seg_check_range a b Hc) as (Hra & Hrb & Hlt & Hpb).
  destruct (interpolate_units a b Hc (Main.voltage b) Hrb (flt_fle _ _ Hra Hrb Hlt)
              (fle_refl _ Hrb)) as [Hk ->].
  pose proof (seg_T_between a b Hc _ 5 5 Hk) as H.
  unfold seg_K in H. lia.
Qed.

(** *** The loop over the segments *)

Lemma chain_check_cons (a b : Main.batt_point_t) (rest : list Main.batt_point_t) :
  chain_check (a :: b :: rest) = true ->
  seg_check a b = true /\ chain_check (b :: rest) = true.
Proof.
  intros Hc.
  change (chain_check (a :: b :: rest))
    with (seg_check a b && chain_check (b :: rest)) in Hc.
  apply andb_prop in Hc. exact Hc.
Qed.

Lemma chain_percent_le (rest : list Main.batt_point_t) (a d : Main.batt_point_t) :
  chain_check (a :: rest) = true ->
  Main.percent a <= Main.percent (List.last (a :: rest) d).
Proof.
  revert a. induction rest as [|b rest IH]; intros a Hc.
  - cbn. lia.
  - apply chain_check_cons in Hc as [Hab Hc].
    destruct (seg_check_range a b Hab) as (_ & _ & _ & Hpb).
    specialize (IH b Hc).
    change (List.last (a :: b :: rest) d) with (List.last (b :: rest) d). lia.
Qed.

Lemma chain_last_range (rest : list Main.batt_point_t) (a b d : Main.batt_point_t) :
  chain_check (a :: b :: rest) = true ->
  in_range (Main.voltage (List.last (a :: b :: rest) d)) = true
  /\ SFleb (Main.voltage b) (Main.voltage (List.last (a :: b :: rest) d)) = true.
Proof.
  revert a b. induction rest as [|c rest IH]; intros a b Hc.
  - apply chain_check_cons in Hc as [Hab _].
    destruct (seg_check_range a b Hab) as (_ & Hrb & _ & _).
    cbn [List.last]. split; [exact Hrb | apply fle_refl; exact Hrb].
  - apply chain_check_cons in Hc as [Hab Hc].
    destruct (seg_check_range a b Hab) as (_ & Hrb & _ & _).
    pose proof Hc as Hc'. apply chain_check_cons in Hc' as [Hbc _].
    destruct (seg_check_range b c Hbc) as (_ & Hrc & Hlt & _).
    destruct (IH b c Hc) as [Hl Hle].
    change (List.last (a :: b :: c :: rest) d) with (List.last (b :: c :: rest) d).
    split; [exact Hl|].
    apply (fle_trans _ (Main.voltage c)); try assumption.
    apply flt_fle; assumption.
Qed.

(** Between the first and the last voltage of a checked table, the loop
    is monotone and stays between the first and the last percentage. *)
Lemma interpolation_loop_mono (rest : list Main.batt_point_t) (a b d : Main.batt_point_t)
    (v w : spec_float) :
  chain_check (a :: b :: rest) = true ->
  in_range v = true -> in_range w = true ->
  SFleb (Main.voltage a) v = true -> SFleb v w = true ->
  SFleb w (Main.voltage (List.last (a :: b :: rest) d)) = true ->
  Main.percent a <= Main.interpolation_loop (a :: b :: rest) v
  /\ Main.interpolation_loop (a :: b :: rest) v
     <= Main.interpolation_loop (a :: b :: rest) w
  /\ Main.interpolation_loop (a :: b :: rest) w
     <= Main.percent (List.last (a :: b :: rest) d).
Proof.
  revert a b v w. induction rest as [|c rest IH]; intros a b v w Hc Hv Hw Hav Hvw Hwl.
  - apply chain_check_cons in Hc as [Hab _].
    destruct (seg_check_range a b Hab) as (Hra & Hrb & _ & _).
    cbn [List.last] in *.
    assert (Haw : SFleb (Main.voltage a) w = true) by (apply (fle_trans _ v); assumption).
    assert (Hvb : SFleb v (Main.voltage b) = true) by (apply (fle_trans _ w); assumption).
    cbn [Main.interpolation_loop]. unfold Float.fle.
    rewrite Hav, Hvb, Haw, Hwl. cbn [andb].
    pose proof (interpolate_bounds a b Hab v Hv Hav Hvb).
    pose proof (interpolate_bounds a b Hab w Hw Haw Hwl).
    pose proof (interpolate_mono a b Hab v w Hv Hw Hav Hvw Hwl). lia.
  - pose proof Hc as Hc0.
    apply chain_check_cons in Hc as [Hab Hc].
    destruct (seg_check_range a b Hab) as (Hra & Hrb & Hlt & Hpb).
    change (List.last (a :: b :: c :: rest) d) with (List.last (b :: c :: rest) d) in *.
    pose proof (chain_percent_le (c :: rest) b d Hc) as Hpl.
    assert (Haw : SFleb (Main.voltage a) w = true) by (apply (fle_trans _ v); assumption).
    change (Main.interpolation_loop (a :: b :: c :: rest) v)
      with (if Float.fle (Main.voltage a) v && Float.fle v (Main.voltage b)
            then Main.interpolate a b v
            else Main.interpolation_loop (b :: c :: rest) v).
    change (Main.interpolation_loop (a :: b :: c :: rest) w)
      with (if Float.fle (Main.voltage a) w && Float.fle w (Main.voltage b)
            then Main.interpolate a b w
            else Main.interpolation_loop (b :: c :: rest) w).
    unfold Float.fle. rewrite Hav, Haw. cbn [andb].
    destruct (SFleb v (Main.voltage b)) eqn:Hvb.
    + pose proof (interpolate_bounds a b Hab v Hv Hav Hvb).
      destruct (SFleb w (Main.voltage b)) eqn:Hwb.
      * pose proof (interpolate_bounds a b Hab w Hw Haw Hwb).
        pose proof (interpolate_mono a b Hab v w Hv Hw Hav Hvw Hwb). lia.
      * apply (fle_total _ _ Hw Hrb) in Hwb.
        destruct (IH b c w w Hc Hw Hw Hwb (fle_refl _ Hw) Hwl) as (H1 & _ & H3). lia.
    + apply (fle_total _ _ Hv Hrb) in Hvb.
      destruct (SFleb w (Main.voltage b)) eqn:Hwb.
      * (* then v = w = the anchor, and the next segment gives its percentage *)
        assert (Evb : v = Main.voltage b).
        { apply fle_antisym; try assumption. apply (fle_trans _ w); assumption. }
        assert (Ewb : w = Main.voltage b).
        { apply fle_antisym; try assumption. rewrite <- Evb. exact Hvw. }
        pose proof (interpolate_high a b Hab) as Hhigh. rewrite <- Ewb in Hhigh.
        destruct (IH b c v v Hc Hv Hv Hvb (fle_refl _ Hv)
                    ltac:(rewrite Evb, <- Ewb; exact Hwl))
          as (H1 & _ & H3).
        assert (Hloop : Main.interpolation_loop (b :: c :: rest) v = Main.percent b).
        { apply chain_check_cons in Hc as [Hbc _].
          destruct (seg_check_range b c Hbc) as (_ & Hrc & Hltc & _).
          cbn [Main.interpolation_loop]. unfold Float.fle. rewrite Evb.
          rewrite (fle_refl _ Hrb), (flt_fle _ _ Hrb Hrc Hltc). cbn [andb].
          apply interpolate_low. exact Hbc. }
        lia.
      * apply (fle_total _ _ Hw Hrb) in Hwb.
        destruct (IH b c v w Hc Hv Hw Hvb Hvw Hwl) as (H1 & H2 & H3). lia.
Qed.

(** *** Comparisons with any float *)

Ltac float_cases v :=
  destruct v as [[]|[]| |[] ? ?].

Lemma fle_not_nan (x y : spec_float) :
  SFleb x y = true -> x <> S754_nan /\ y <> S754_nan.
Proof.
  intros H; split; intros ->; [|destruct x]; discriminate.
Qed.

Lemma above_stays_above (hi v w : spec_float) :
  in_range hi = true -> SFltb hi v = true -> SFleb v w = true -> SFltb hi w = true.
Proof.
  intros Hhi. destruct (in_range_inv hi Hhi) as (mh & eh & -> & _ & _).
  float_cases v; float_cases w; try (cbn; congruence).
  rewrite !SFltb_pos, SFleb_pos. lia.
Qed.

Lemma above_not_below (lo hi w : spec_float) :
  in_range lo = true -> in_range hi = true -> SFleb lo hi = true ->
  SFltb hi w = true -> SFltb w lo = false.
Proof.
  intros Hlo Hhi.
  destruct (in_range_inv lo Hlo) as (ml & el & -> & _ & _).
  destruct (in_range_inv hi Hhi) as (mh & eh & -> & _ & _).
  float_cases w; try (cbn; congruence).
  intros H1 H2. apply not_true_iff_false. revert H1 H2.
  rewrite !SFltb_pos, SFleb_pos. lia.
Qed.

Lemma below_not_above (lo v w : spec_float) :
  in_range lo = true -> SFltb v lo = false -> SFleb v w = true -> SFltb w lo = false.
Proof.
  intros Hlo. destruct (in_range_inv lo Hlo) as (ml & el & -> & _ & _).
  float_cases v; float_cases w; try (cbn; congruence).
  intros H1 H2. apply not_true_iff_false. apply not_true_iff_false in H1.
  revert H1 H2. rewrite !SFltb_pos, SFleb_pos. lia.
Qed.

(** A float that is neither below the lowest nor above the highest anchor
    is a positive normal number of their binades. *)
Lemma valid_in_range (v lo hi : spec_float) :
  Float.is_float v -> in_range lo = true -> in_range hi = true ->
  v <> S754_nan -> SFltb v lo = false -> SFltb hi v = false ->
  in_range v = true /\ SFleb lo v = true /\ SFleb v hi = true.
Proof.
  intros Hval Hlo Hhi Hnan.
  destruct (in_range_inv lo Hlo) as (ml & el & -> & Hml & Hel).
  destruct (in_range_inv hi Hhi) as (mh & eh & -> & Hmh & Heh).
  destruct v as [[]|[]| |[] m e]; try (cbn; congruence).
  intros H1 H2. apply not_true_iff_false in H1, H2.
  rewrite SFltb_pos in H1, H2. rewrite !SFleb_pos.
  unfold Float.is_float, valid_binary, bounded, canonical_mantissa in Hval.
  apply andb_prop in Hval as [Hcan _].
  apply Z.eqb_eq in Hcan.
  pose proof (digits2_pos_bounds m) as Hd.
  rewrite fexp32 in Hcan by lia.
  assert (Ed : Zpos (digits2_pos m) = 24) by lia. rewrite Ed in Hd.
  change (2 ^ (24 - 1)) with (2 ^ 23) in Hd.
  split; [|lia]. cbn [in_range].
  rewrite !andb_true_iff, !Z.leb_le, Z.ltb_lt. lia.
Qed.

(** *** Which segment the loop takes *)

Lemma flt_fle_trans (x y z : spec_float) :
  in_range x = true -> in_range y = true -> in_range z = true ->
  SFltb x y = true -> SFleb y z = true -> SFltb x z = true.
Proof.
  intros Hx Hy Hz Hxy Hyz.
  pose proof (in_range_exponent x Hx). pose proof (in_range_exponent y Hy).
  pose proof (in_range_exponent z Hz).
  apply (flt_units (-22) x y Hx Hy) in Hxy; try lia.
  apply (fle_units (-22) y z Hy Hz) in Hyz; try lia.
  apply (flt_units (-22) x z Hx Hz); lia.
Qed.

Lemma segments_anchor (rest : list Main.batt_point_t) (a0 a b : Main.batt_point_t) :
  chain_check (a0 :: rest) = true -> In (a, b) (segments (a0 :: rest)) ->
  seg_check a b = true
  /\ (a = a0 \/ SFltb (Main.voltage a0) (Main.voltage a) = true).
Proof.
  revert a0. induction rest as [|b0 rest IH]; intros a0 Hc Hin.
  - destruct Hin.
  - apply chain_check_cons in Hc as [Hab Hc].
    change (segments (a0 :: b0 :: rest)) with ((a0, b0) :: segments (b0 :: rest)) in Hin.
    destruct Hin as [E|Hin].
    + injection E as <- <-. split; [exact Hab | left; reflexivity].
    + destruct (IH b0 Hc Hin) as [Hs Hor]. split; [exact Hs|]. right.
      destruct (seg_check_range a0 b0 Hab) as (Hr0 & Hrb0 & Hlt & _).
      destruct (seg_check_range a b Hs) as (Hra & _ & _ & _).
      destruct Hor as [->|Hlt']; [exact Hlt|].
      apply (flt_fle_trans _ (Main.voltage b0)); try assumption.
      apply flt_fle; assumption.
Qed.

(** On a voltage between two adjacent anchors the loop gives the
    interpolation between these two, also where two segments meet. *)
Lemma interpolation_loop_pick (rest : list Main.batt_point_t)
    (a0 a b : Main.batt_point_t) (v : spec_float) :
  chain_check (a0 :: rest) = true -> In (a, b) (segments (a0 :: rest)) ->
  in_range v = true ->
  SFleb (Main.voltage a) v = true -> SFleb v (Main.voltage b) = true ->
  Main.interpolation_loop (a0 :: rest) v = Main.interpolate a b v.
Proof.
  revert a0. induction rest as [|b0 rest IH]; intros a0 Hc Hin Hv Hav Hvb.
  - destruct Hin.
  - apply chain_check_cons in Hc as [Hab Hc].
    change (segments (a0 :: b0 :: rest)) with ((a0, b0) :: segments (b0 :: rest)) in Hin.
    change (Main.interpolation_loop (a0 :: b0 :: rest) v)
      with (if Float.fle (Main.voltage a0) v && Float.fle v (Main.voltage b0)
            then Main.interpolate a0 b0 v
            else Main.interpolation_loop (b0 :: rest) v).
    unfold Float.fle.
    destruct Hin as [E|Hin].
    + injection E as <- <-. rewrite Hav, Hvb. reflexivity.
    + destruct (segments_anchor rest b0 a b Hc Hin) as [Hs Hor].
      destruct (seg_check_range a0 b0 Hab) as (Hr0 & Hrb0 & Hlt0 & _).
      destruct (seg_check_range a b Hs) as (Hra & Hrb & _ & _).
      destruct (SFleb (Main.voltage a0) v && SFleb v (Main.voltage b0)) eqn:Hcond.
      * apply andb_prop in Hcond as [_ Hvb0].
        destruct Hor as [->|Hlt].
        -- assert (Ev : v = Main.voltage b0) by (apply fle_antisym; assumption).
           rewrite Ev, interpolate_high, interpolate_low by assumption. reflexivity.
        -- exfalso. apply (flt_not_fle _ _ Hrb0 Hra Hlt).
           apply (fle_trans _ v); assumption.
      * apply IH; assumption.
Qed.

(** ** The exact interpolation *)

Lemma to_Q_units (e0 : Z) (x : spec_float) :
  in_range x = true -> -22 <= e0 <= exponent x ->
  (to_Q x == inject_Z (units e0 x) / inject_Z (2 ^ (- e0)))%Q.
Proof.
  intros Hx. destruct (in_range_inv x Hx) as (m & e & -> & Hm & He).
  cbn [exponent]. intros He0. unfold units. cbn [mantissa exponent].
  assert (e = -22 \/ e = -21) as [->| ->] by lia;
    assert (e0 = -22 \/ e0 = -21) as [->| ->] by lia; try lia;
    cbn [to_Q cond_Zopp];
    try change (-21 - -22) with 1; try change (-22 - -22) with 0;
    try change (-21 - -21) with 0;
    try change (- (-22)) with 22; try change (- (-21)) with 21;
    try change (2 ^ 22) with 4194304; try change (2 ^ 21) with 2097152;
    try change (2 ^ 1) with 2; try change (2 ^ 0) with 1;
    try change (2 ^ 22)%positive with 4194304%positive;
    try change (2 ^ 21)%positive with 2097152%positive;
    unfold Qeq, Qdiv, Qmult, Qinv, inject_Z; cbn [Qnum Qden]; lia.
Qed.

Lemma linear_units (a b : Main.batt_point_t) (v : spec_float) :
  seg_check a b = true -> in_range v = true ->
  SFleb (Main.voltage a) v = true -> SFleb v (Main.voltage b) = true ->
  (linear_interpolation a b v
   == Qmake (Main.percent a * seg_K a b + 5 * above a v) (Z.to_pos (seg_K a b)))%Q.
Proof.
  intros Hc Hv Hav Hvb.
  destruct (seg_check_inv a b Hc) as (Hra & Hrb & Hexp & [HK _] & _ & Hpb & _).
  pose proof (in_range_exponent _ Hra) as Hea.
  pose proof (fle_exponent _ _ Hra Hv Hav) as Hev.
  unfold linear_interpolation. replace (Main.percent b - Main.percent a) with 5 by lia.
  rewrite (to_Q_units (exponent (Main.voltage a)) v Hv) by lia.
  rewrite (to_Q_units (exponent (Main.voltage a)) (Main.voltage a) Hra) by lia.
  rewrite (to_Q_units (exponent (Main.voltage a)) (Main.voltage b) Hrb) by lia.
  rewrite (Qmake_Qdiv _ (Z.to_pos (seg_K a b))), Z2Pos.id by exact HK.
  unfold seg_K, above in *.
  set (u := units (exponent (Main.voltage a)) v) in *.
  set (ua := units (exponent (Main.voltage a)) (Main.voltage a)) in *.
  set (ub := units (exponent (Main.voltage a)) (Main.voltage b)) in *.
  set (D := 2 ^ (- exponent (Main.voltage a))).
  assert (HD : 0 < D) by (apply pow2_pos; lia).
  rewrite inject_Z_plus, !inject_Z_mult.
  unfold Z.sub. rewrite !inject_Z_plus, !inject_Z_opp.
  assert (HDq : ~ (inject_Z D == 0)%Q).
  { change 0%Q with (inject_Z 0). rewrite inject_Z_injective. lia. }
  assert (HKq : ~ (inject_Z ub + - inject_Z ua == 0)%Q).
  { rewrite <- inject_Z_opp, <- inject_Z_plus. change 0%Q with (inject_Z 0).
    rewrite inject_Z_injective. lia. }
  field. split; [exact HKq | exact HDq].
Qed.

(** The code's result is the exact interpolation rounded down or up to
    the next integer. *)
Lemma interpolate_exact (a b : Main.batt_point_t) (v : spec_float) :
  seg_check a b = true -> in_range v = true ->
  SFleb (Main.voltage a) v = true -> SFleb v (Main.voltage b) = true ->
  Qfloor (linear_interpolation a b v) <= Main.interpolate a b v
  <= Qceiling (linear_interpolation a b v).
Proof.
  intros Hc Hv Hav Hvb.
  destruct (seg_check_inv a b Hc) as (_ & _ & _ & [HK _] & _ & _ & _).
  destruct (interpolate_units a b Hc v Hv Hav Hvb) as [Hk ->].
  unfold Qceiling. rewrite (linear_units a b v Hc Hv Hav Hvb).
  set (k := above a v) in *.
  cbn [Qfloor Qopp Qnum Qden]. rewrite Z2Pos.id by exact HK.
  pose proof (Z.mul_div_le (Main.percent a * seg_K a b + 5 * k) (seg_K a b) HK) as Hlo.
  pose proof (Z.mul_div_le (- (Main.percent a * seg_K a b + 5 * k)) (seg_K a b) HK) as Hhi.
  pose proof (seg_T_between a b Hc k
                ((Main.percent a * seg_K a b + 5 * k) / seg_K a b - Main.percent a)
                (- (- (Main.percent a * seg_K a b + 5 * k) / seg_K a b) - Main.percent a)
                Hk ltac:(nia) ltac:(nia)).
  lia.
Qed.

(** ** The estimator on the table of the firmware *)

Lemma fle_not_flt (x v : spec_float) :
  in_range x = true -> SFleb x v = true -> SFltb v x = false.
Proof.
  intros Hx. destruct (in_range_inv x Hx) as (mx & ex & -> & _ & _).
  float_cases v; try (cbn; congruence).
  intros H. apply not_true_iff_false. revert H. rewrite SFltb_pos, SFleb_pos. lia.
Qed.

Lemma fle_not_flt_r (x v : spec_float) :
  in_range x = true -> SFleb v x = true -> SFltb x v = false.
Proof.
  intros Hx. destruct (in_range_inv x Hx) as (mx & ex & -> & _ & _).
  float_cases v; try (cbn; congruence).
  intros H. apply not_true_iff_false. revert H. rewrite SFltb_pos, SFleb_pos. lia.
Qed.

Lemma segments_bounds (rest : list Main.batt_point_t) (a0 a b d : Main.batt_point_t) :
  chain_check (a0 :: rest) = true -> In (a, b) (segments (a0 :: rest)) ->
  SFleb (Main.voltage a0) (Main.voltage a) = true
  /\ SFleb (Main.voltage b) (Main.voltage (List.last (a0 :: rest) d)) = true
  /\ in_range (Main.voltage (List.last (a0 :: rest) d)) = true.
Proof.
  intros Hc Hin. split.
  - destruct (segments_anchor rest a0 a b Hc Hin) as [Hs [->|Hlt]].
    + apply fle_refl. apply (seg_check_range a0 b Hs).
    + destruct rest as [|b0 rest]; [destruct Hin|].
      apply chain_check_cons in Hc as [Hab _].
      apply flt_fle; try assumption.
      * apply (seg_check_range a0 b0 Hab).
      * apply (seg_check_range a b Hs).
  - revert a0 Hc Hin. induction rest as [|b0 rest IH]; intros a0 Hc Hin.
    + destruct Hin.
    + change (segments (a0 :: b0 :: rest)) with ((a0, b0) :: segments (b0 :: rest)) in Hin.
      destruct (chain_last_range rest a0 b0 d Hc) as [Hl Hle].
      destruct Hin as [E|Hin].
      * injection E as <- <-. split; assumption.
      * apply chain_check_cons in Hc as [_ Hc].
        change (List.last (a0 :: b0 :: rest) d) with (List.last (b0 :: rest) d).
        apply IH; assumption.
Qed.

Lemma table_shape :
  exists (a0 b0 : Main.batt_point_t) (rest : list Main.batt_point_t),
    Main.batt_table = a0 :: b0 :: rest
    /\ lowest_anchor = a0
    /\ highest_anchor = List.last (a0 :: b0 :: rest) Main.batt_last.
Proof. eexists _, _, _. repeat split; reflexivity. Qed.

Lemma anchors_in_range :
  in_range (Main.voltage lowest_anchor) = true
  /\ in_range (Main.voltage highest_anchor) = true
  /\ SFleb (Main.voltage lowest_anchor) (Main.voltage highest_anchor) = true.
Proof. vm_compute. repeat split. Qed.

Lemma battery_percent_below (v : spec_float) :
  SFltb v (Main.voltage lowest_anchor) = true -> Main.battery_percent v = 0.
Proof.
  intros H. unfold Main.battery_percent, Float.flt.
  change (hd Main.batt_first Main.batt_table) with lowest_anchor.
  rewrite H. reflexivity.
Qed.

Lemma battery_percent_above (v : spec_float) :
  SFltb (Main.voltage highest_anchor) v = true -> Main.battery_percent v = 100.
Proof.
  intros H. destruct anchors_in_range as (Hlo & Hhi & Hle).
  unfold Main.battery_percent, Float.flt.
  change (hd Main.batt_first Main.batt_table) with lowest_anchor.
  change (List.last Main.batt_table Main.batt_last) with highest_anchor.
  rewrite (above_not_below _ _ v Hlo Hhi Hle H), H. reflexivity.
Qed.

Lemma battery_percent_middle (v : spec_float) :
  SFltb v (Main.voltage lowest_anchor) = false ->
  SFltb (Main.voltage highest_anchor) v = false ->
  Main.battery_percent v = Main.interpolation_loop Main.batt_table v.
Proof.
  intros H1 H2. unfold Main.battery_percent, Float.flt.
  change (hd Main.batt_first Main.batt_table) with lowest_anchor.
  change (List.last Main.batt_table Main.batt_last) with highest_anchor.
  rewrite H1, H2. reflexivity.
Qed.

(** Between the lowest and the highest anchor. *)
Lemma battery_percent_mono_middle (v w : spec_float) :
  in_range v = true -> in_range w = true ->
  SFleb (Main.voltage lowest_anchor) v = true -> SFleb v w = true ->
  SFleb w (Main.voltage highest_anchor) = true ->
  0 <= Main.interpolation_loop Main.batt_table v
  /\ Main.interpolation_loop Main.batt_table v <= Main.interpolation_loop Main.batt_table w
  /\ Main.interpolation_loop Main.batt_table w <= 100.
Proof.
  pose proof batt_table_checked as Hc.
  destruct table_shape as (a0 & b0 & rest & Et & El & Eh).
  assert (E0 : Main.percent lowest_anchor = 0) by reflexivity.
  assert (E100 : Main.percent highest_anchor = 100) by reflexivity.
  rewrite <- E0, <- E100. rewrite Et in *. rewrite El, Eh in *.
  apply interpolation_loop_mono. exact Hc.
Qed.

Lemma battery_percent_segment (a b : Main.batt_point_t) (v : spec_float) :
  In (a, b) (segments Main.batt_table) -> Float.is_float v ->
  SFleb (Main.voltage a) v = true -> SFleb v (Main.voltage b) = true ->
  Main.battery_percent v = Main.interpolate a b v
  /\ Qfloor (linear_interpolation a b v) <= Main.battery_percent v
     <= Qceiling (linear_interpolation a b v).
Proof.
  intros Hin Hval Hav Hvb.
  pose proof batt_table_checked as Hc.
  destruct anchors_in_range as (Hlo & Hhi & _).
  destruct table_shape as (a0 & b0 & rest & Et & El & Eh).
  assert (Hmid : Main.battery_percent v = Main.interpolation_loop Main.batt_table v
                 /\ seg_check a b = true /\ in_range v = true).
  { rewrite Et in Hc, Hin. rewrite El, Eh in *.
    destruct (segments_anchor _ _ a b Hc Hin) as [Hs _].
    destruct (segments_bounds _ _ a b Main.batt_last Hc Hin) as (Hla & Hbh & _).
    destruct (seg_check_range a b Hs) as (Hra & Hrb & _ & _).
    destruct (fle_not_nan _ _ Hav) as [_ Hnan].
    destruct (valid_in_range v _ _ Hval Hra Hrb Hnan
                (fle_not_flt _ _ Hra Hav) (fle_not_flt_r _ _ Hrb Hvb)) as (Hv & _ & _).
    split; [|split; assumption].
    apply battery_percent_middle.
    - rewrite El. apply fle_not_flt; [assumption|].
      apply (fle_trans _ (Main.voltage a)); assumption.
    - rewrite Eh. apply fle_not_flt_r; [assumption|].
      apply (fle_trans _ (Main.voltage b)); assumption. }
  destruct Hmid as (Hmid & Hs & Hv).
  assert (Hpick : Main.battery_percent v = Main.interpolate a b v).
  { rewrite Hmid. rewrite Et in *. apply interpolation_loop_pick; assumption. }
  split; [exact Hpick|]. rewrite Hpick. apply interpolate_exact; assumption.
Qed.

Lemma battery_percent_monotone (v w : spec_float) :
  Float.is_float v -> Float.is_float w -> SFleb v w = true ->
  Main.battery_percent v <= Main.battery_percent w.
Proof.
  intros Hv Hw Hvw.
  destruct anchors_in_range as (Hlo & Hhi & Hle).
  destruct (fle_not_nan _ _ Hvw) as [Hnv Hnw].
  (* the percentage of a single voltage lies between 0 and 100 *)
  assert (Hbounds : forall x, Float.is_float x -> x <> S754_nan ->
                              0 <= Main.battery_percent x <= 100).
  { intros x Hx Hnx.
    destruct (SFltb x (Main.voltage lowest_anchor)) eqn:H1.
    { rewrite battery_percent_below by exact H1. lia. }
    destruct (SFltb (Main.voltage highest_anchor) x) eqn:H2.
    { rewrite battery_percent_above by exact H2. lia. }
    rewrite battery_percent_middle by assumption.
    destruct (valid_in_range x _ _ Hx Hlo Hhi Hnx H1 H2) as (Hrx & Hlx & Hxh).
    pose proof (battery_percent_mono_middle x x Hrx Hrx Hlx (fle_refl _ Hrx) Hxh). lia. }
  destruct (SFltb v (Main.voltage lowest_anchor)) eqn:Hv1.
  { rewrite (battery_percent_below v Hv1). apply Hbounds; assumption. }
  pose proof (below_not_above _ v w Hlo Hv1 Hvw) as Hw1.
  destruct (SFltb (Main.voltage highest_anchor) v) eqn:Hv2.
  { rewrite (battery_percent_above v Hv2).
    rewrite (battery_percent_above w (above_stays_above _ v w Hhi Hv2 Hvw)). lia. }
  destruct (SFltb (Main.voltage highest_anchor) w) eqn:Hw2.
  { rewrite (battery_percent_above w Hw2). apply Hbounds; assumption. }
  rewrite !battery_percent_middle by assumption.
  destruct (valid_in_range v _ _ Hv Hlo Hhi Hnv Hv1 Hv2) as (Hrv & Hlv & _).
  destruct (valid_in_range w _ _ Hw Hlo Hhi Hnw Hw1 Hw2) as (Hrw & _ & Hwh).
  apply (battery_percent_mono_middle v w); assumption.
Qed.

(** C4.  Below the lowest anchor (3.27 V) the percentage is 0, above the
    highest (4.20 V) it is 100; at the voltage of an anchor it is the
    percentage of that anchor; between two adjacent anchors it is the
    interpolation between these two, which is the exact linear
    interpolation of their percentages rounded down or up to the next
    integer; and the percentage does not decrease when the voltage
    increases. *)
Theorem battery_percent_piecewise_linear :
  (forall v, Float.flt v (Float.float_lit 327 100) = true -> Main.battery_percent v = 0)
  /\ (forall v, Float.flt (Float.float_lit 420 100) v = true -> Main.battery_percent v = 100)
  /\ Forall (fun a => Main.battery_percent (Main.voltage a) = Main.percent a)
            Main.batt_table
  /\ (forall a b v,
        In (a, b) (segments Main.batt_table) -> Float.is_float v ->
        Float.fle (Main.voltage a) v = true -> Float.fle v (Main.voltage b) = true ->
        Main.battery_percent v = Main.interpolate a b v
        /\ Qfloor (linear_interpolation a b v) <= Main.battery_percent v
           <= Qceiling (linear_interpolation a b v))
  /\ (forall v w,
        Float.is_float v -> Float.is_float w -> Float.fle v w = true ->
        Main.battery_percent v <= Main.battery_percent w).
Proof.
  split; [exact battery_percent_below|].
  split; [exact battery_percent_above|].
  split.
  - unfold Main.batt_table.
    repeat (apply List.Forall_cons; [vm_compute; reflexivity|]). apply List.Forall_nil.
  - split.
    + exact battery_percent_segment.
    + exact battery_percent_monotone.
Qed.

Lemma battery_percent_piecewise_linear_witness :
  In (Main.mk_batt_point (Float.float_lit 327 100) 0,
      Main.mk_batt_point (Float.float_lit 361 100) 5) (segments Main.batt_table)
  /\ Float.is_float (Float.float_lit 350 100)
  /\ Float.is_float (Float.float_lit 390 100)
  /\ Float.fle (Float.float_lit 327 100) (Float.float_lit 350 100) = true
  /\ Float.fle (Float.float_lit 350 100) (Float.float_lit 361 100) = true
  /\ Float.fle (Float.float_lit 350 100) (Float.float_lit 390 100) = true
  /\ Main.battery_percent (Float.float_lit 350 100)
     = Main.interpolate (Main.mk_batt_point (Float.float_lit 327 100) 0)
                        (Main.mk_batt_point (Float.float_lit 361 100) 5)
                        (Float.float_lit 350 100)
  /\ Main.battery_percent (Float.float_lit 350 100)
     <= Main.battery_percent (Float.float_lit 390 100).
Proof.
  assert (H1 : In (Main.mk_batt_point (Float.float_lit 327 100) 0,
                   Main.mk_batt_point (Float.float_lit 361 100) 5)
                  (segments Main.batt_table)) by (left; reflexivity).
  assert (H2 : Float.is_float (Float.float_lit 350 100)) by (vm_compute; reflexivity).
  assert (H3 : Float.is_float (Float.float_lit 390 100)) by (vm_compute; reflexivity).
  assert (H4 : Float.fle (Float.float_lit 327 100) (Float.float_lit 350 100) = true)
    by (vm_compute; reflexivity).
  assert (H5 : Float.fle (Float.float_lit 350 100) (Float.float_lit 361 100) = true)
    by (vm_compute; reflexivity).
  assert (H6 : Float.fle (Float.float_lit 350 100) (Float.float_lit 390 100) = true)
    by (vm_compute; reflexivity).
  split; [exact H1|]. split; [exact H2|]. split; [exact H3|]. split; [exact H4|].
  split; [exact H5|]. split; [exact H6|].
  destruct battery_percent_piecewise_linear as (_ & _ & _ & Hseg & Hmono).
  split.
  - exact (proj1 (Hseg _ _ _ H1 H2 H4 H5)).
  - exact (Hmono _ _ H2 H3 H6).
Defined.

(** The chain from a reading to the percentage, on a few readings. *)
Example battery_percent_of_readings :
  map (fun r => Main.battery_percent (Main.battery_voltage r))
      [0; 4232; 4600; 4900; 5200; 5385; 5386; 6000]
  = [0; 0; 4; 42; 82; 99; 100; 100].
Proof. vm_compute. reflexivity. Qed.

(** * Further properties *)

(** ** The command handler *)

Lemma prefix_dec (cmd : string) (data : list Z) :
  {uppercased_prefix cmd data} + {~ uppercased_prefix cmd data}.
Proof. unfold uppercased_prefix. apply (List.list_eq_dec Z.eq_dec). Qed.

(** What a write that is handled returns: the payload has at most 19
    bytes, the value returned is 0, and the state and the calls are those
    of [decode] followed by the notification of the response. *)
Lemma write_handled (d d' : device) (conn attr rc : Z) (data : list Z)
    (env : Gatt.host_env) (calls : list call) :
  Gatt.gatt_svr_chr_access_cb d conn attr (write_of data) env = Some (d', calls, rc) ->
  (length data <= 19)%nat /\ rc = 0
  /\ exists pre response,
       Gatt.decode d (map toupper data ++ replicate (20 - length data) 0)
       = (d', pre, response)
       /\ calls = pre ++ Gatt.notify_response conn attr (bytes_of_string response) env.
Proof.
  intros H. unfold Gatt.gatt_svr_chr_access_cb in H. cbn [Gatt.op write_of] in H.
  destruct (le_lt_dec (length data) 19) as [Hlen|Hlen].
  - rewrite cmd_buffer_of_short in H by exact Hlen. rewrite option_bind_Some in H.
    unfold Gatt.om_len in H. cbn [Gatt.om_data] in H.
    destruct (Gatt.decode d _) as [[d1 pre] response] eqn:Hd.
    injection H as <- <- <-. split; [exact Hlen|]. split; [reflexivity|].
    exists pre, response. split; reflexivity.
  - rewrite cmd_buffer_of_long in H by (unfold Gatt.om_len; cbn; lia). discriminate.
Qed.

(** X1.  The write is handled exactly when the payload has at most 19 bytes. *)
Theorem write_handled_iff (d : device) (conn attr : Z) (data : list Z) (env : Gatt.host_env) :
  is_Some (Gatt.gatt_svr_chr_access_cb d conn attr (write_of data) env)
  <-> (length data <= 19)%nat.
Proof.
  split.
  - intros [[[d' calls] rc] H]. apply (write_handled _ _ _ _ _ _ _ _ H).
  - intros Hlen. unfold Gatt.gatt_svr_chr_access_cb. cbn [Gatt.op write_of].
    rewrite cmd_buffer_of_short by exact Hlen. rewrite option_bind_Some.
    destruct (Gatt.decode d _) as [[d1 pre] response]. eexists. reflexivity.
Qed.

Lemma decode_cases (d : device) (buf : list Z) :
  Gatt.decode d buf
    = (set_streaming true d,
       [led_strip_show 0 BLUE 10;
        ESP_LOGI Gatt.TAG "Command: START received, streaming started." []],
       "RUNNING"%string)
  \/ Gatt.decode d buf
    = (set_streaming false d,
       [led_strip_show 0 GREEN 10;
        ESP_LOGI Gatt.TAG "Command: STOP received, streaming stopped." []],
       "STOPPED"%string)
  \/ Gatt.decode d buf
    = (d, [ESP_LOGI Gatt.TAG "Command: WHORU received." []], "NPG-LITE"%string)
  \/ Gatt.decode d buf
    = (d, [ESP_LOGI Gatt.TAG "Command: STATUS received." []], Gatt.status_string d)
  \/ Gatt.decode d buf = (d, [], "UNKNOWN COMMAND"%string).
Proof.
  unfold Gatt.decode.
  destruct (strncmp buf (bytes_of_string "START") 5 =? 0); [left; reflexivity|].
  destruct (strncmp buf (bytes_of_string "STOP") 4 =? 0); [right; left; reflexivity|].
  destruct (strncmp buf (bytes_of_string "WHORU") 5 =? 0);
    [right; right; left; reflexivity|].
  destruct (strncmp buf (bytes_of_string "STATUS") 6 =? 0);
    [right; right; right; left; reflexivity|].
  right; right; right; right; reflexivity.
Qed.

Lemma notify_response_hands (conn attr : Z) (response : list Z) (env : Gatt.host_env) :
  flats (Gatt.notify_response conn attr response env) = [response]
  /\ notifications (Gatt.notify_response conn attr response env)
     = if Gatt.om_alloc env then [(conn, attr, response)] else [].
Proof.
  unfold Gatt.notify_response. destruct (Gatt.om_alloc env); [|split; reflexivity].
  destruct (negb _); split; reflexivity.
Qed.

(** X2.  Every write that is handled is answered once: one response, among
    four, is handed to the host and notified on the connection and the
    attribute of the write, and the callback returns 0, also when the
    host refuses the notification. *)
Theorem write_answered_once (d d' : device) (conn attr rc : Z) (data : list Z)
    (env : Gatt.host_env) (calls : list call) :
  Gatt.gatt_svr_chr_access_cb d conn attr (write_of data) env = Some (d', calls, rc) ->
  rc = 0
  /\ exists response : string,
       In response ["RUNNING"; "STOPPED"; "NPG-LITE"; "UNKNOWN COMMAND"]%string
       /\ flats calls = [bytes_of_string response]
       /\ notifications calls
          = if Gatt.om_alloc env then [(conn, attr, bytes_of_string response)] else [].
Proof.
  intros H. destruct (write_handled _ _ _ _ _ _ _ _ H) as (_ & Hrc & pre & response & Hd & ->).
  split; [exact Hrc|]. exists response.
  rewrite flats_app, notifications_app.
  destruct (notify_response_hands conn attr (bytes_of_string response) env) as [-> ->].
  destruct (decode_cases d (map toupper data ++ replicate (20 - length data) 0))
    as [E|[E|[E|[E|E]]]]; rewrite E in Hd; injection Hd as <- <- <-;
    (split; [|split; reflexivity]).
  - left; reflexivity.
  - right; left; reflexivity.
  - right; right; left; reflexivity.
  - unfold Gatt.status_string. destruct (streaming d);
      [left; reflexivity | right; left; reflexivity].
  - right; right; right; left; reflexivity.
Qed.

Lemma write_answered_once_witness :
  Gatt.gatt_svr_chr_access_cb sample_device 1 14 (write_of (bytes_of_string "whoru?"))
    (Gatt.mk_host_env true 7 0)
  = Some (sample_device,
          [ESP_LOGI Gatt.TAG "Command: WHORU received." [];
           ble_hs_mbuf_from_flat (bytes_of_string "NPG-LITE");
           ble_gatts_notify_custom 1 14 (bytes_of_string "NPG-LITE");
           ESP_LOGE Gatt.TAG "Failed to notify control response, rc=%d" [7]], 0)
  /\ (0 = 0
      /\ exists response : string,
           In response ["RUNNING"; "STOPPED"; "NPG-LITE"; "UNKNOWN COMMAND"]%string
           /\ flats [ESP_LOGI Gatt.TAG "Command: WHORU received." [];
                     ble_hs_mbuf_from_flat (bytes_of_string "NPG-LITE");
                     ble_gatts_notify_custom 1 14 (bytes_of_string "NPG-LITE");
                     ESP_LOGE Gatt.TAG "Failed to notify control response, rc=%d" [7]]
              = [bytes_of_string response]
           /\ notifications
                [ESP_LOGI Gatt.TAG "Command: WHORU received." [];
                 ble_hs_mbuf_from_flat (bytes_of_string "NPG-LITE");
                 ble_gatts_notify_custom 1 14 (bytes_of_string "NPG-LITE");
                 ESP_LOGE Gatt.TAG "Failed to notify control response, rc=%d" [7]]
              = if Gatt.om_alloc (Gatt.mk_host_env true 7 0)
                then [(1, 14, bytes_of_string response)] else []).
Proof.
  assert (H : Gatt.gatt_svr_chr_access_cb sample_device 1 14
                (write_of (bytes_of_string "whoru?")) (Gatt.mk_host_env true 7 0)
              = Some (sample_device,
                      [ESP_LOGI Gatt.TAG "Command: WHORU received." [];
                       ble_hs_mbuf_from_flat (bytes_of_string "NPG-LITE");
                       ble_gatts_notify_custom 1 14 (bytes_of_string "NPG-LITE");
                       ESP_LOGE Gatt.TAG "Failed to notify control response, rc=%d" [7]], 0))
    by reflexivity.
  split; [exact H|].
  exact (write_answered_once _ _ _ _ _ _ _ _ H).
Defined.

(** X3.  A write changes no variable but the streaming flag, and the flag it
    leaves is read off the upper-cased payload: set for a payload that
    starts with START, cleared for one that starts with STOP, kept for
    every other one. *)
Theorem write_changes_flag_only (d d' : device) (conn attr rc : Z) (data : list Z)
    (env : Gatt.host_env) (calls : list call) :
  Gatt.gatt_svr_chr_access_cb d conn attr (write_of data) env = Some (d', calls, rc) ->
  d' = set_streaming (streaming d') d
  /\ streaming d' = (if prefix_dec "START" data then true
                     else if prefix_dec "STOP" data then false
                     else streaming d).
Proof.
  intros H. destruct (write_handled _ _ _ _ _ _ _ _ H) as (Hlen & _ & pre & response & Hd & _).
  destruct (decode_by_prefix d data (20 - length data)) as (H1 & H2 & H3 & H4 & H5).
  cbv zeta in H1, H2, H3, H4, H5.
  destruct (prefix_dec "START" data) as [P1|N1].
  { rewrite (H1 P1) in Hd. injection Hd as <- _ _. split; reflexivity. }
  destruct (prefix_dec "STOP" data) as [P2|N2].
  { rewrite (H2 P2) in Hd. injection Hd as <- _ _. split; reflexivity. }
  destruct (prefix_dec "WHORU" data) as [P3|N3].
  { rewrite (H3 P3) in Hd. injection Hd as <- _ _.
    split; [symmetry; apply set_streaming_same | reflexivity]. }
  destruct (prefix_dec "STATUS" data) as [P4|N4].
  { rewrite (H4 P4) in Hd. injection Hd as <- _ _.
    split; [symmetry; apply set_streaming_same | reflexivity]. }
  rewrite (H5 N1 N2 N3 N4) in Hd. injection Hd as <- _ _.
  split; [symmetry; apply set_streaming_same | reflexivity].
Qed.

Lemma write_changes_flag_only_witness :
  Gatt.gatt_svr_chr_access_cb streaming_device 1 14
    (write_of (bytes_of_string "Stop, please")) host_ok
  = Some (set_streaming false streaming_device,
          [led_strip_show 0 GREEN 10;
           ESP_LOGI Gatt.TAG "Command: STOP received, streaming stopped." [];
           ble_hs_mbuf_from_flat (bytes_of_string "STOPPED");
           ble_gatts_notify_custom 1 14 (bytes_of_string "STOPPED")], 0)
  /\ streaming (set_streaming false streaming_device)
     = (if prefix_dec "START" (bytes_of_string "Stop, please") then true
        else if prefix_dec "STOP" (bytes_of_string "Stop, please") then false
        else streaming streaming_device).
Proof.
  assert (H : Gatt.gatt_svr_chr_access_cb streaming_device 1 14
                (write_of (bytes_of_string "Stop, please")) host_ok
              = Some (set_streaming false streaming_device,
                      [led_strip_show 0 GREEN 10;
                       ESP_LOGI Gatt.TAG "Command: STOP received, streaming stopped." [];
                       ble_hs_mbuf_from_flat (bytes_of_string "STOPPED");
                       ble_gatts_notify_custom 1 14 (bytes_of_string "STOPPED")], 0))
    by reflexivity.
  split; [exact H|].
  exact (proj2 (write_changes_flag_only _ _ _ _ _ _ _ _ H)).
Defined.

(** X4.  The answer of a write depends on the payload through its upper case
    only. *)
Theorem write_ignores_case (d : device) (conn attr : Z) (data1 data2 : list Z)
    (env : Gatt.host_env) :
  map toupper data1 = map toupper data2 ->
  Gatt.gatt_svr_chr_access_cb d conn attr (write_of data1) env
  = Gatt.gatt_svr_chr_access_cb d conn attr (write_of data2) env.
Proof.
  intros Hup.
  assert (Hlen : length data1 = length data2).
  { rewrite <- (length_map toupper data1), Hup. apply length_map. }
  unfold Gatt.gatt_svr_chr_access_cb. cbn [Gatt.op write_of].
  destruct (le_lt_dec (length data1) 19) as [H|H].
  - rewrite !cmd_buffer_of_short by (unfold Gatt.om_len; cbn; lia).
    unfold Gatt.om_len, write_of. cbn [Gatt.om_data]. now rewrite Hup, Hlen.
  - now rewrite !cmd_buffer_of_long by (unfold Gatt.om_len; cbn; lia).
Qed.

Lemma write_ignores_case_witness :
  map toupper (bytes_of_string "sTaRt") = map toupper (bytes_of_string "START")
  /\ Gatt.gatt_svr_chr_access_cb sample_device 1 14
       (write_of (bytes_of_string "sTaRt")) host_ok
     = Gatt.gatt_svr_chr_access_cb sample_device 1 14
         (write_of (bytes_of_string "START")) host_ok.
Proof.
  assert (H : map toupper (bytes_of_string "sTaRt") = map toupper (bytes_of_string "START"))
    by reflexivity.
  split; [exact H|].
  exact (write_ignores_case sample_device 1 14 _ _ host_ok H).
Defined.



(** X6.  The strings RUNNING and STOPPED never lie: when a write is answered by
    one of them, a read of the control characteristic that follows it
    returns the same string. *)
Theorem read_agrees_with_answer (d d' : device) (conn attr rc conn' : Z) (data : list Z)
    (env env' : Gatt.host_env) (calls : list call) (response : list Z) :
  Gatt.gatt_svr_chr_access_cb d conn attr (write_of data) env = Some (d', calls, rc) ->
  flats calls = [response] ->
  response = bytes_of_string "RUNNING" \/ response = bytes_of_string "STOPPED" ->
  Gatt.gatt_svr_chr_access_cb d' conn' (control_char_handle d')
    (Gatt.mk_ctxt Gatt.BLE_GATT_ACCESS_OP_READ_CHR []) env'
  = Some (d', [os_mbuf_append response], Gatt.append_rc env').
Proof.
  intros H Hfl Hresp.
  destruct (write_handled _ _ _ _ _ _ _ _ H) as (_ & _ & pre & resp & Hd & ->).
  rewrite flats_app in Hfl.
  rewrite (proj1 (notify_response_hands _ _ _ _)) in Hfl.
  unfold Gatt.gatt_svr_chr_access_cb. cbn [Gatt.op]. rewrite Z.eqb_refl.
  assert (Hst : bytes_of_string (Gatt.status_string d') = response).
  { destruct (decode_cases d (map toupper data ++ replicate (20 - length data) 0))
      as [E|[E|[E|[E|E]]]]; rewrite E in Hd; injection Hd as <- <- <-;
      cbn in Hfl; injection Hfl as <-.
    - reflexivity.
    - reflexivity.
    - destruct Hresp as [Hr|Hr]; discriminate Hr.
    - reflexivity.
    - destruct Hresp as [Hr|Hr]; discriminate Hr. }
  now rewrite Hst.
Qed.

Lemma read_agrees_with_answer_witness :
  Gatt.gatt_svr_chr_access_cb sample_device 1 14 (write_of (bytes_of_string "start")) host_ok
  = Some (set_streaming true sample_device,
          [led_strip_show 0 BLUE 10;
           ESP_LOGI Gatt.TAG "Command: START received, streaming started." [];
           ble_hs_mbuf_from_flat (bytes_of_string "RUNNING");
           ble_gatts_notify_custom 1 14 (bytes_of_string "RUNNING")], 0)
  /\ Gatt.gatt_svr_chr_access_cb (set_streaming true sample_device) 1 14
       (Gatt.mk_ctxt Gatt.BLE_GATT_ACCESS_OP_READ_CHR []) host_ok
     = Some (set_streaming true sample_device,
             [os_mbuf_append (bytes_of_string "RUNNING")], 0).
Proof.
  assert (H : Gatt.gatt_svr_chr_access_cb sample_device 1 14
                (write_of (bytes_of_string "start")) host_ok
              = Some (set_streaming true sample_device,
                      [led_strip_show 0 BLUE 10;
                       ESP_LOGI Gatt.TAG "Command: START received, streaming started." [];
                       ble_hs_mbuf_from_flat (bytes_of_string "RUNNING");
                       ble_gatts_notify_custom 1 14 (bytes_of_string "RUNNING")], 0))
    by reflexivity.
  split; [exact H|].
  exact (read_agrees_with_answer _ _ 1 14 0 1 _ host_ok host_ok _ _ H
           eq_refl (or_introl eq_refl)).
Defined.

(** ** The connection handler *)

(** The cases of a membership in a list that is written out. *)
Ltac in_cases H :=
  cbn in H; repeat (destruct H as [H|H]; [try discriminate H|]); try contradiction H.

(** X7.  No GAP event sets the streaming flag or writes a characteristic
    handle; the connection handle is written by a connection event of
    status 0 whose descriptor the host finds, and by nothing else: a
    failed update of the connection parameters comes after the write. *)
Theorem gap_event_state_effects (d : device) (event : Gap.ble_gap_event) (env : Gap.gap_env) :
  let d' := fst (fst (Gap.gap_event_handler d event env)) in
  (streaming d' = true -> streaming d = true)
  /\ data_char_handle d' = data_char_handle d
  /\ control_char_handle d' = control_char_handle d
  /\ conn_handle d'
     = match event with
       | Gap.BLE_GAP_EVENT_CONNECT status conn =>
           if (status =? 0) && (Gap.conn_find_rc env =? 0) then conn else conn_handle d
       | _ => conn_handle d
       end.
Proof.
  destruct event; cbn [Gap.gap_event_handler fst snd]; cbv zeta.
  - destruct (status =? 0); cbn [andb]; [|cbn; tauto].
    destruct (Gap.conn_find_rc env =? 0); cbn [negb]; [|cbn; tauto].
    destruct (negb (Gap.update_params_rc env =? 0)); cbn; tauto.
  - cbn. repeat split. discriminate.
  - cbn. tauto.
  - cbn. tauto.
  - cbn. tauto.
  - cbn. tauto.
Qed.

(** X8.  The handler reports a failure in one case only: a connection event
    of status 0 for which the host does not find the descriptor or
    refuses the update of the parameters. *)
Theorem gap_event_failure_reported (d : device) (event : Gap.ble_gap_event)
    (env : Gap.gap_env) :
  snd (Gap.gap_event_handler d event env) <> 0
  <-> exists conn, event = Gap.BLE_GAP_EVENT_CONNECT 0 conn
                   /\ (Gap.conn_find_rc env <> 0 \/ Gap.update_params_rc env <> 0).
Proof.
  destruct event; cbn [Gap.gap_event_handler snd];
    try (split; [intros H; now contradiction H | intros (c & Hc & _); discriminate Hc]).
  destruct (Z.eqb_spec status 0) as [->|Hs].
  - destruct (Z.eqb_spec (Gap.conn_find_rc env) 0) as [Hf|Hf]; cbn [negb].
    + cbv zeta.
      destruct (Z.eqb_spec (Gap.update_params_rc env) 0) as [Hu|Hu]; cbn [negb snd].
      * split; [intros H; now contradiction H | intros (c & _ & [H|H]); contradiction].
      * split; [intros _; exists conn; split; [reflexivity | right; exact Hu] | intros _; exact Hu].
    + cbn [snd]. split; [intros _; exists conn; split; [reflexivity | left; exact Hf]|].
      intros _. exact Hf.
  - cbn [snd]. split; [intros H; now contradiction H|].
    intros (c & Hc & _). injection Hc as Hc _. contradiction.
Qed.

(** X9.  Advertising is started again on a link loss, at the end of an
    advertising period and on a connection attempt that failed, and on no
    other event; the light of pixel 0 is driven on a link loss and on a
    connection whose descriptor is found, and on no other event. *)
Theorem gap_event_readvertises_iff (d : device) (event : Gap.ble_gap_event)
    (env : Gap.gap_env) :
  let calls := snd (fst (Gap.gap_event_handler d event env)) in
  (In ble_gap_adv_set_fields calls <-> ends_link_or_attempt event)
  /\ (forall pixel color brightness,
        In (led_strip_show pixel color brightness) calls ->
        pixel = 0 /\ brightness = 10
        /\ ((color = RED /\ exists reason, event = Gap.BLE_GAP_EVENT_DISCONNECT reason)
            \/ (color = GREEN /\ Gap.conn_find_rc env = 0
                /\ exists conn, event = Gap.BLE_GAP_EVENT_CONNECT 0 conn))).
Proof.
  cbv zeta.
  assert (Hadv : In ble_gap_adv_set_fields (Gap.start_advertising env)) by (left; reflexivity).
  assert (Hled : forall p c b, ~ In (led_strip_show p c b) (Gap.start_advertising env)).
  { intros p c b Hin. unfold Gap.start_advertising in Hin.
    destruct (Gap.adv_set_fields_rc env =? 0); [destruct (Gap.adv_start_rc env =? 0)|];
      in_cases Hin. }
  destruct event; cbn [Gap.gap_event_handler fst snd ends_link_or_attempt].
  - destruct (Z.eqb_spec status 0) as [->|Hs].
    + destruct (Z.eqb_spec (Gap.conn_find_rc env) 0) as [Hf|Hf]; cbn [negb].
      * cbv zeta. split.
        -- split; [|intros H; now contradiction H].
           intros Hin.
           destruct (negb (Gap.update_params_rc env =? 0)); in_cases Hin.
        -- intros p c b Hin.
           assert (Hpcb : led_strip_show p c b = led_strip_show 0 GREEN 10).
           { destruct (negb (Gap.update_params_rc env =? 0)); in_cases Hin;
               symmetry; exact Hin. }
           injection Hpcb as -> -> ->. split; [reflexivity|]. split; [reflexivity|].
           right. split; [reflexivity|]. split; [exact Hf|]. exists conn; reflexivity.
      * split.
        -- split; [|intros H; now contradiction H]. intros Hin. in_cases Hin.
        -- intros p c b Hin. in_cases Hin.
    + split.
      * split; [intros _; exact Hs | intros _; right; exact Hadv].
      * intros p c b [Hin|Hin]; [discriminate Hin | now apply Hled in Hin].
  - split.
    + split; [intros _; exact I|]. intros _. cbn. right; right. exact Hadv.
    + intros p c b Hin. cbn in Hin. destruct Hin as [Hin|[Hin|Hin]].
      * injection Hin as <- <- <-. split; [reflexivity|]. split; [reflexivity|].
        left. split; [reflexivity|]. exists reason; reflexivity.
      * discriminate Hin.
      * now apply Hled in Hin.
  - split.
    + split; [intros _; exact I | intros _; right; exact Hadv].
    + intros p c b [Hin|Hin]; [discriminate Hin | now apply Hled in Hin].
  - split.
    + split; [|intros H; now contradiction H]. intros Hin.
      destruct (attr_handle =? data_char_handle d);
        destruct (attr_handle =? control_char_handle d); in_cases Hin.
    + intros p c b Hin.
      destruct (attr_handle =? data_char_handle d);
        destruct (attr_handle =? control_char_handle d); in_cases Hin.
  - split.
    + split; [|intros H; now contradiction H]. intros Hin. in_cases Hin.
    + intros p c b Hin. in_cases Hin.
  - split.
    + split; [intros H; now contradiction H | intros H; now contradiction H].
    + intros p c b Hin. contradiction Hin.
Qed.

(** ** Runs of the device *)

Lemma gap_event_keeps_flag_clear (d : device) (event : Gap.ble_gap_event) (env : Gap.gap_env) :
  streaming d = false -> streaming (fst (fst (Gap.gap_event_handler d event env))) = false.
Proof.
  intros Hs. destruct event; cbn [Gap.gap_event_handler fst]; try exact Hs; try reflexivity.
  destruct (status =? 0); [|exact Hs].
  destruct (negb (Gap.conn_find_rc env =? 0)); [exact Hs|]. cbv zeta.
  destruct (negb (Gap.update_params_rc env =? 0)); exact Hs.
Qed.

Lemma gatt_access_keeps_flag_clear (d d' : device) (conn attr rc : Z)
    (ctxt : Gatt.ble_gatt_access_ctxt) (env : Gatt.host_env) (calls : list call) :
  Gatt.gatt_svr_chr_access_cb d conn attr ctxt env = Some (d', calls, rc) ->
  ~ is_start_write (gatt_access conn attr ctxt env) ->
  streaming d = false -> streaming d' = false.
Proof.
  intros H Hno Hs. destruct ctxt as [op data]. destruct op;
    try (unfold Gatt.gatt_svr_chr_access_cb in H; cbn [Gatt.op] in H;
         repeat match type of H with context [if ?b then _ else _] => destruct b end;
         injection H as <- _ _; exact Hs).
  change (Gatt.mk_ctxt Gatt.BLE_GATT_ACCESS_OP_WRITE_CHR data) with (write_of data) in H.
  destruct (write_handled _ _ _ _ _ _ _ _ H) as (_ & _ & pre & response & Hd & _).
  assert (N1 : ~ uppercased_prefix "START" data).
  { intros P. apply Hno. split; [reflexivity | exact P]. }
  destruct (decode_by_prefix d data (20 - length data)) as (_ & H2 & H3 & H4 & H5).
  cbv zeta in H2, H3, H4, H5.
  destruct (prefix_dec "STOP" data) as [P2|N2].
  { rewrite (H2 P2) in Hd. injection Hd as <- _ _. reflexivity. }
  destruct (prefix_dec "WHORU" data) as [P3|N3].
  { rewrite (H3 P3) in Hd. injection Hd as <- _ _. exact Hs. }
  destruct (prefix_dec "STATUS" data) as [P4|N4].
  { rewrite (H4 P4) in Hd. injection Hd as <- _ _. exact Hs. }
  rewrite (H5 N1 N2 N3 N4) in Hd. injection Hd as <- _ _. exact Hs.
Qed.

(** One pass hands at most one packet over and leaves the flag as it
    is. *)
Lemma adc_cycle_one_packet (d : device) (env : Main.cycle_env) :
  (length (flats (snd (Main.adc_cycle d env))) <= 1)%nat
  /\ streaming (fst (Main.adc_cycle d env)) = streaming d.
Proof.
  unfold Main.adc_cycle.
  destruct ((Main.ret env =? ESP_OK) && (Main.size_ret env =? Main.CONV_FRAME_SIZE));
    [|split; [cbn; lia | reflexivity]].
  cbv zeta. cbn [fst snd]. split; [|reflexivity].
  rewrite flats_app, (proj1 (battery_check_hands_nothing _)),
    (proj1 (send_packet_hands _ _ _)). cbn. lia.
Qed.

(** X10.  The device streams on a START command only, the pass it already
    waits for apart.  In an interleaving of the two tasks that begins
    with the flag clear and holds no write whose payload starts with
    START, in any case, the flag stays clear.  When the acquisition task
    stands at its test (at boot, or once it has seen the flag clear), it
    does not enter the wait, no data packet is handed to the host and the
    counter keeps its value.  When it is in the wait, the flag having
    been cleared after its test, the signal it waits for still starts a
    pass: at most one packet is handed over. *)
Theorem streaming_needs_start (ms : list Tasks.moment) :
  forall (s s' : Tasks.system) (trace : list (task * call)),
  Tasks.run s ms = Some (s', trace) ->
  streaming (Tasks.dev s) = false ->
  Forall no_start ms ->
  streaming (Tasks.dev s') = false
  /\ (length (packets trace) <= 1)%nat
  /\ (Tasks.acquisition s = Tasks.at_test ->
      Tasks.acquisition s' = Tasks.at_test
      /\ packets trace = [] /\ counter (Tasks.dev s') = counter (Tasks.dev s)).
Proof.
  induction ms as [|m rest IH]; intros s s' trace Hrun Hs Hno; cbn [Tasks.run] in Hrun.
  - injection Hrun as <- <-. split; [exact Hs|]. split; [cbn; lia|].
    intros Hloc. repeat split; try reflexivity; exact Hloc.
  - inversion Hno as [|? ? Hm Hrest]; subst.
    destruct (Tasks.step s m) as [[s1 calls]|] eqn:Hstep; [|discriminate Hrun].
    rewrite option_bind_Some in Hrun.
    destruct (Tasks.run s1 rest) as [[s2 tr]|] eqn:Hr; [|discriminate Hrun].
    rewrite option_bind_Some in Hrun. injection Hrun as <- <-.
    assert (H1 : streaming (Tasks.dev s1) = false
                 /\ ((packets (map (pair (Tasks.task_of_moment m)) calls) = []
                      /\ counter (Tasks.dev s1) = counter (Tasks.dev s)
                      /\ Tasks.acquisition s1 = Tasks.acquisition s)
                     \/ ((length (packets (map (pair (Tasks.task_of_moment m)) calls)) <= 1)%nat
                         /\ Tasks.acquisition s = Tasks.in_wait
                         /\ Tasks.acquisition s1 = Tasks.at_test))).
    { destruct m as [|[env | event env | conn attr ctxt env]];
        cbn [Tasks.step Tasks.task_of_moment task_of no_start] in *.
      - destruct (Tasks.acquisition s) eqn:Hloc; [rewrite Hs in Hstep|];
          injection Hstep as <- <-; (split; [exact Hs|]); left; repeat split;
          try reflexivity; try exact Hloc.
      - destruct (Tasks.acquisition s) eqn:Hloc.
        + injection Hstep as <- <-. split; [exact Hs|]. left. repeat split; try reflexivity.
          exact Hloc.
        + pose proof (adc_cycle_one_packet (Tasks.dev s) env) as [Hlen Hflag].
          destruct (Main.adc_cycle (Tasks.dev s) env) as [d1 c1]. cbn [fst snd] in *.
          injection Hstep as <- <-. cbn [Tasks.dev Tasks.acquisition].
          split; [congruence|]. right. rewrite packets_of_acquisition.
          repeat split; try reflexivity. exact Hlen.
      - pose proof (gap_event_keeps_flag_clear (Tasks.dev s) event env Hs) as Hf.
        pose proof (gap_event_keeps_acquisition (Tasks.dev s) event env) as [Hc _].
        destruct (Gap.gap_event_handler (Tasks.dev s) event env) as [[dx cx] rc].
        injection Hstep as <- <-. rewrite packets_of_host.
        split; [exact Hf|]. left. repeat split; try reflexivity. exact Hc.
      - destruct (Gatt.gatt_svr_chr_access_cb (Tasks.dev s) conn attr ctxt env)
          as [[[dx cx] rc]|] eqn:E; [|discriminate Hstep].
        rewrite option_bind_Some in Hstep. injection Hstep as <- <-.
        rewrite packets_of_host.
        split; [exact (gatt_access_keeps_flag_clear _ _ _ _ _ _ _ _ E Hm Hs)|].
        left. repeat split; try reflexivity.
        apply (gatt_access_keeps_acquisition _ _ _ _ _ _ _ _ E). }
    destruct H1 as (Hs1 & Hcase).
    destruct (IH s1 s2 tr Hr Hs1 Hrest) as (Hs2 & Hlen2 & Hat).
    split; [exact Hs2|]. rewrite packets_app.
    destruct Hcase as [(Hp1 & Hc1 & Hl1) | (Hlen1 & Hw & Hl1)].
    + rewrite Hp1. cbn [app]. split; [exact Hlen2|].
      intros Hloc. rewrite Hloc in Hl1. destruct (Hat Hl1) as (Ha & Hp & Hc).
      repeat split; try assumption. congruence.
    + destruct (Hat Hl1) as (_ & Hp & _). rewrite Hp, app_nil_r.
      split; [exact Hlen1|]. intros Hloc. rewrite Hloc in Hw. discriminate Hw.
Qed.

Lemma streaming_needs_start_witness :
  streaming (Tasks.dev stopped_in_wait) = false
  /\ Forall no_start (Tasks.schedule quiet_session)
  /\ match Tasks.run stopped_in_wait (Tasks.schedule quiet_session) with
     | Some (s', trace) =>
         streaming (Tasks.dev s') = false /\ length (packets trace) = 1%nat
     | None => False
     end.
Proof.
  assert (H1 : streaming (Tasks.dev stopped_in_wait) = false) by reflexivity.
  assert (H2 : Forall no_start (Tasks.schedule quiet_session)).
  { repeat constructor; cbn; try tauto; intros [_ P]; discriminate P. }
  split; [exact H1|]. split; [exact H2|].
  destruct (Tasks.run stopped_in_wait (Tasks.schedule quiet_session))
    as [[s' trace]|] eqn:Hrun.
  - split; [exact (proj1 (streaming_needs_start _ _ _ _ Hrun H1 H2))|].
    vm_compute in Hrun. injection Hrun as _ <-. reflexivity.
  - vm_compute in Hrun. discriminate Hrun.
Defined.






(** X12.  A packet the host has no buffer for is dropped: the cycle notifies
    nothing, and the counter advances all the same, so that the next
    packet notified starts 25 rows further. *)
Theorem dropped_packet_leaves_gap (d : device) (env1 env2 : Main.cycle_env) :
  well_typed d -> streaming d = true ->
  frame_ok env1 -> frame_ok env2 ->
  Main.om_alloc env1 = false -> Main.om_alloc env2 = true ->
  exists d' trace pkt,
    run d [wake_acquisition env1; wake_acquisition env2] = Some (d', trace)
    /\ notifications (calls_of adc_conv_task trace)
       = [(conn_handle d, data_char_handle d, pkt)]
    /\ byte_at pkt 0 = (counter d + 25) mod 256
    /\ counter d' = (counter d + 50) mod 256.
Proof.
  intros Hwt Hs Hok1 Hok2 Ha1 Ha2.
  destruct (build_packet_rows (Main.result env1) d Hwt) as [Hp1 Hc1].
  set (d1 := set_acquisition (Main.l_counter (Main.build_packet (Main.result env1) d))
                             (Main.l_packet (Main.build_packet (Main.result env1) d)) d).
  assert (Hwt1 : well_typed d1).
  { unfold well_typed, d1. cbn [counter chords_packet set_acquisition].
    rewrite Hc1, Hp1, packet_rows_length. split; [apply Z.mod_pos_bound; lia | reflexivity]. }
  assert (Hs1 : streaming d1 = true) by exact Hs.
  destruct (build_packet_rows (Main.result env2) d1 Hwt1) as [Hp2 Hc2].
  eexists _, _, (Main.l_packet (Main.build_packet (Main.result env2) d1)).
  split; [|split; [|split]].
  - cbn [run step]. rewrite step_while_streaming by exact Hs.
    rewrite adc_cycle_accepted by exact Hok1. rewrite option_bind_Some. fold d1.
    rewrite step_while_streaming by exact Hs1.
    rewrite adc_cycle_accepted by exact Hok2. rewrite !option_bind_Some. reflexivity.
  - rewrite app_nil_r, calls_of_app, notifications_app.
    assert (Hcalls : forall calls, calls_of adc_conv_task (map (pair adc_conv_task) calls) = calls).
    { intros calls. unfold calls_of. induction calls as [|c calls IH]; [reflexivity|].
      cbn. now rewrite IH. }
    rewrite !Hcalls, !notifications_app.
    rewrite (proj2 (battery_check_hands_nothing _)), (proj2 (battery_check_hands_nothing _)).
    rewrite (proj2 (send_packet_hands _ _ _)), (proj2 (send_packet_hands _ _ _)).
    rewrite Ha1, Ha2. cbn [app].
    rewrite take_ge by (rewrite Hp2, packet_rows_length; vm_compute; lia).
    reflexivity.
  - rewrite Hp2. unfold byte_at. change (Z.to_nat 0) with (7 * 0 + 0)%nat.
    rewrite packet_rows_lookup by lia.
    unfold packet_row. cbn [lookup list_lookup default from_option id].
    unfold d1. cbn [counter set_acquisition]. rewrite Hc1.
    change (Z.of_nat 0) with 0. rewrite Z.add_0_r. apply Z.mod_mod. lia.
  - cbn [counter set_acquisition]. rewrite Hc2. unfold d1.
    cbn [counter set_acquisition]. rewrite Hc1, Zplus_mod_idemp_l. f_equal. lia.
Qed.

Lemma dropped_packet_leaves_gap_witness :
  let env1 := Main.mk_cycle_env ESP_OK Main.CONV_FRAME_SIZE (sample_frame 2000) false 0 in
  well_typed streaming_device /\ streaming streaming_device = true
  /\ frame_ok env1 /\ frame_ok (sample_read 2100)
  /\ Main.om_alloc env1 = false /\ Main.om_alloc (sample_read 2100) = true
  /\ exists d' trace pkt,
       run streaming_device [wake_acquisition env1; wake_acquisition (sample_read 2100)]
       = Some (d', trace)
       /\ notifications (calls_of adc_conv_task trace)
          = [(conn_handle streaming_device, data_char_handle streaming_device, pkt)]
       /\ byte_at pkt 0 = (counter streaming_device + 25) mod 256
       /\ counter d' = (counter streaming_device + 50) mod 256.
Proof.
  cbv zeta.
  assert (H1 : well_typed streaming_device).
  { split; [cbn; lia | apply length_replicate]. }
  assert (H2 : streaming streaming_device = true) by reflexivity.
  assert (H3 : frame_ok (Main.mk_cycle_env ESP_OK Main.CONV_FRAME_SIZE (sample_frame 2000) false 0))
    by (split; reflexivity).
  assert (H4 : frame_ok (sample_read 2100)) by (split; reflexivity).
  split; [exact H1|]. split; [exact H2|]. split; [exact H3|]. split; [exact H4|].
  split; [reflexivity|]. split; [reflexivity|].
  exact (dropped_packet_leaves_gap streaming_device _ (sample_read 2100)
           H1 H2 H3 H4 eq_refl eq_refl).
Defined.

(** ** The samples and the battery reading *)

Lemma MAP_inverse (x : Z) : 0 <= x -> (Main.MAP x * 3329 + 4094) / 4095 = x.
Proof.
  intros Hx. unfold Main.MAP. rewrite Z.quot_div_nonneg by lia.
  pose proof (Z.div_mod (x * 4095) 3329 ltac:(lia)) as E.
  pose proof (Z.mod_pos_bound (x * 4095) 3329 ltac:(lia)) as B.
  set (y := x * 4095 / 3329) in *.
  symmetry. apply (Z.div_unique _ 4095 x (y * 3329 + 4094 - 4095 * x)); lia.
Qed.

(** X13.  On every code whose product by 4095 is an [int], so that the
    macro is defined on it, and the codes of 12 bits and their doubles
    are among them, [MAP] loses nothing: the code is recovered from the
    value; and the value stays within 12 bits exactly for the codes up to
    3329. *)
Theorem MAP_loses_nothing (x : Z) :
  0 <= x -> x * 4095 <= INT_MAX ->
  (Main.MAP x * 3329 + 4094) / 4095 = x
  /\ (Main.MAP x <= 4095 <-> x <= 3329)
  /\ 0 <= Main.MAP x <= INT_MAX.
Proof.
  intros Hx Hmax. split; [apply MAP_inverse; exact Hx|].
  unfold Main.MAP, INT_MAX in *. rewrite Z.quot_div_nonneg by lia.
  pose proof (Z.div_mod (x * 4095) 3329 ltac:(lia)) as E.
  pose proof (Z.mod_pos_bound (x * 4095) 3329 ltac:(lia)) as B.
  lia.
Qed.

Lemma MAP_loses_nothing_witness :
  0 <= 8190 /\ 8190 * 4095 <= INT_MAX
  /\ (Main.MAP 8190 * 3329 + 4094) / 4095 = 8190
  /\ (Main.MAP 8190 <= 4095 <-> 8190 <= 3329)
  /\ 0 <= Main.MAP 8190 <= INT_MAX.
Proof.
  assert (H1 : 0 <= 8190) by lia.
  assert (H2 : 8190 * 4095 <= INT_MAX) by (unfold INT_MAX; lia).
  split; [exact H1|]. split; [exact H2|]. exact (MAP_loses_nothing 8190 H1 H2).
Defined.

(** X14.  The receiver recovers every sample: the two bytes of channel [i] in
    row [j] of the packet, read as a 16-bit big-endian number, are the
    rescaled code, from which the 12-bit code of the frame follows. *)
Theorem samples_recoverable (d : device) (env : Main.cycle_env) (j i : Z) :
  well_typed d -> streaming d = true -> frame_ok env ->
  0 <= j < 25 -> 0 <= i < 3 ->
  let pkt := chords_packet (fst (Main.adc_conv_task_step d env)) in
  let y := 256 * byte_at pkt (7 * j + 1 + 2 * i) + byte_at pkt (7 * j + 2 + 2 * i) in
  y = Main.MAP (raw (Main.result env) j i)
  /\ (y * 3329 + 4094) / 4095 = raw (Main.result env) j i.
Proof.
  intros Hwt Hs Hok Hj Hi. cbv zeta.
  rewrite step_while_streaming by exact Hs. rewrite adc_cycle_accepted by exact Hok.
  cbn [fst chords_packet set_acquisition].
  destruct (build_packet_rows (Main.result env) d Hwt) as [Hp _].
  pose proof (raw_range (Main.result env) j i) as Hr.
  destruct (mapped_value _ Hr) as [_ Hv].
  destruct (high_low_bytes _ Hv) as [Hhi Hlo].
  assert (Hv' : uint16_t (Main.MAP (raw (Main.result env) j i))
                = Main.MAP (raw (Main.result env) j i)).
  { unfold uint16_t in *. apply Z.mod_small.
    unfold Main.MAP. rewrite Z.quot_div_nonneg by lia.
    split; [apply Z.div_pos; lia|].
    apply Z.div_lt_upper_bound; lia. }
  assert (Hbytes : byte_at (Main.l_packet (Main.build_packet (Main.result env) d))
                           (7 * j + 1 + 2 * i)
                   = high_byte (uint16_t (Main.MAP (raw (Main.result env) j i)))
                   /\ byte_at (Main.l_packet (Main.build_packet (Main.result env) d))
                              (7 * j + 2 + 2 * i)
                      = low_byte (uint16_t (Main.MAP (raw (Main.result env) j i)))).
  { assert (Hrow : forall k, (k < 7)%nat ->
              Main.l_packet (Main.build_packet (Main.result env) d) !! (7 * Z.to_nat j + k)%nat
              = packet_row (Main.result env) ((counter d + j) mod 256) j !! k).
    { intros k Hk. rewrite Hp, packet_rows_lookup by lia. now rewrite Z2Nat.id by lia. }
    unfold byte_at.
    assert (Hcases : i = 0 \/ i = 1 \/ i = 2) by lia.
    destruct Hcases as [-> | [-> | ->]].
    - replace (Z.to_nat (7 * j + 1 + 2 * 0)) with (7 * Z.to_nat j + 1)%nat by lia.
      replace (Z.to_nat (7 * j + 2 + 2 * 0)) with (7 * Z.to_nat j + 2)%nat by lia.
      rewrite !Hrow by lia. split; reflexivity.
    - replace (Z.to_nat (7 * j + 1 + 2 * 1)) with (7 * Z.to_nat j + 3)%nat by lia.
      replace (Z.to_nat (7 * j + 2 + 2 * 1)) with (7 * Z.to_nat j + 4)%nat by lia.
      rewrite !Hrow by lia. split; reflexivity.
    - replace (Z.to_nat (7 * j + 1 + 2 * 2)) with (7 * Z.to_nat j + 5)%nat by lia.
      replace (Z.to_nat (7 * j + 2 + 2 * 2)) with (7 * Z.to_nat j + 6)%nat by lia.
      rewrite !Hrow by lia. split; reflexivity. }
  destruct Hbytes as [-> ->]. rewrite Hhi, Hlo, Hv'.
  assert (Hy : 256 * (Main.MAP (raw (Main.result env) j i) / 256)
               + Main.MAP (raw (Main.result env) j i) mod 256
               = Main.MAP (raw (Main.result env) j i))
    by (symmetry; apply Z.div_mod; lia).
  rewrite Hy. split; [reflexivity|].
  apply MAP_inverse. lia.
Qed.

Lemma samples_recoverable_witness :
  well_typed streaming_device /\ streaming streaming_device = true
  /\ frame_ok (sample_read 2000) /\ 0 <= 7 < 25 /\ 0 <= 1 < 3
  /\ 256 * byte_at (chords_packet (fst (Main.adc_conv_task_step streaming_device
                                           (sample_read 2000)))) (7 * 7 + 1 + 2 * 1)
     + byte_at (chords_packet (fst (Main.adc_conv_task_step streaming_device
                                      (sample_read 2000)))) (7 * 7 + 2 + 2 * 1)
     = Main.MAP (raw (Main.result (sample_read 2000)) 7 1).
Proof.
  assert (H1 : well_typed streaming_device).
  { split; [cbn; lia | apply length_replicate]. }
  assert (H2 : streaming streaming_device = true) by reflexivity.
  assert (H3 : frame_ok (sample_read 2000)) by (split; reflexivity).
  assert (H4 : 0 <= 7 < 25) by lia.
  assert (H5 : 0 <= 1 < 3) by lia.
  split; [exact H1|]. split; [exact H2|]. split; [exact H3|]. split; [exact H4|].
  split; [exact H5|].
  exact (proj1 (samples_recoverable streaming_device (sample_read 2000) 7 1 H1 H2 H3 H4 H5)).
Defined.

Lemma sum_Z_app (l1 l2 : list Z) : sum_Z (l1 ++ l2) = sum_Z l1 + sum_Z l2.
Proof. unfold sum_Z. induction l1 as [|x l1 IH]; cbn; [reflexivity | rewrite IH; lia]. Qed.

Lemma battery_code_range (result : list Z) (j : Z) :
  0 <= Main.MAP (raw result j 3 * 2) <= 10074.
Proof.
  pose proof (raw_range result j 3) as Hr. unfold Main.MAP.
  rewrite Z.quot_div_nonneg by lia. split; [apply Z.div_pos; lia|].
  apply Z.lt_succ_r. apply Z.div_lt_upper_bound; lia.
Qed.

Lemma tick_body_battery (result : list Z) (j : Z) (s : Main.cycle_locals) :
  Main.l_battery_reading (Main.tick_body result j s)
  = Main.l_battery_reading s + Main.MAP (raw result j 3 * 2).
Proof.
  unfold Main.tick_body. rewrite channel_loop_unrolled, channel_body_battery.
  rewrite !channel_body_sample by lia. cbn [Main.l_battery_reading].
  f_equal. unfold uint16_t. apply Z.mod_small.
  pose proof (battery_code_range result j). lia.
Qed.

Lemma tick_loop_battery (result : list Z) (s : Main.cycle_locals) (n : nat) :
  Main.l_battery_reading (for_loop n (Main.tick_body result) s)
  = Main.l_battery_reading s
    + sum_Z (map (fun j => Main.MAP (raw result (Z.of_nat j) 3 * 2)) (seq 0 n)).
Proof.
  induction n as [|n IH]; [cbn; lia|].
  rewrite for_loop_S, tick_body_battery, IH, seq_S, map_app, sum_Z_app. cbn. lia.
Qed.

Lemma sum_Z_bounds (l : list Z) (lo hi : Z) :
  Forall (fun x => lo <= x <= hi) l ->
  lo * Z.of_nat (length l) <= sum_Z l <= hi * Z.of_nat (length l).
Proof.
  induction 1 as [|x l Hx _ IH]; [cbn; lia|].
  cbn [sum_Z fold_right length]. fold (sum_Z l). lia.
Qed.

(** X15.  The reading handed to [battery_check] is the mean, rounded down, of
    the 25 battery codes of the frame, each doubled and rescaled; it lies
    between 0 and 10074, whatever the frame holds and whatever the state
    is. *)
Theorem battery_reading_is_mean (result : list Z) (d : device) :
  let readings := map (fun j => Main.MAP (raw result (Z.of_nat j) 3 * 2)) (seq 0 25) in
  Z.quot (Main.l_battery_reading (Main.build_packet result d)) Main.PACKET_LEN
  = sum_Z readings / 25
  /\ 0 <= sum_Z readings / 25 <= 10074.
Proof.
  cbv zeta. unfold Main.build_packet. change (Z.to_nat Main.PACKET_LEN) with 25%nat.
  rewrite tick_loop_battery. cbn [Main.l_battery_reading]. rewrite Z.add_0_l.
  pose proof (sum_Z_bounds
                (map (fun j => Main.MAP (raw result (Z.of_nat j) 3 * 2)) (seq 0 25)) 0 10074)
    as Hb.
  rewrite length_map, length_seq in Hb.
  specialize (Hb ltac:(apply Forall_forall; intros x Hx;
                       apply list_elem_of_In, in_map_iff in Hx;
                       destruct Hx as (j & <- & _); apply battery_code_range)).
  change (Z.of_nat 25) with 25 in Hb. change Main.PACKET_LEN with 25.
  rewrite Z.quot_div_nonneg by lia. split; [reflexivity|].
  split; [apply Z.div_pos; lia | apply Z.div_le_upper_bound; lia].
Qed.

Lemma for_loop_ext {S : Type} (n : nat) (f g : Z -> S -> S) (s : S) :
  (forall k s', 0 <= k < Z.of_nat n -> f k s' = g k s') ->
  for_loop n f s = for_loop n g s.
Proof.
  induction n as [|n IH]; intros H; [reflexivity|].
  rewrite !for_loop_S, IH by (intros; apply H; lia). apply H. lia.
Qed.

Lemma codes_lookup (result : list Z) (k : nat) :
  (k < 100)%nat -> codes result !! k = Some (Main.type2_data result (4 * Z.of_nat k)).
Proof.
  intros Hk. unfold codes. rewrite list_lookup_fmap, lookup_seq_lt by exact Hk. reflexivity.
Qed.

Lemma codes_raw (r1 r2 : list Z) (j i : Z) :
  codes r1 = codes r2 -> 0 <= j < 25 -> 0 <= i < 4 -> raw r1 j i = raw r2 j i.
Proof.
  intros Hc Hj Hi. unfold raw.
  pose proof (codes_lookup r1 (Z.to_nat (i + j * 4)) ltac:(lia)) as H1.
  pose proof (codes_lookup r2 (Z.to_nat (i + j * 4)) ltac:(lia)) as H2.
  rewrite Hc, H2 in H1. injection H1 as H1.
  replace ((i + j * Main.NUM_CHANNELS) * Main.SOC_ADC_DIGI_RESULT_BYTES)
    with (4 * Z.of_nat (Z.to_nat (i + j * 4)))
    by (unfold Main.NUM_CHANNELS, Main.SOC_ADC_DIGI_RESULT_BYTES; lia).
  symmetry. exact H1.
Qed.

Lemma channel_body_raw (r1 r2 : list Z) (j i : Z) (s : Main.cycle_locals) :
  raw r1 j i = raw r2 j i -> Main.channel_body r1 j i s = Main.channel_body r2 j i s.
Proof. intros H. unfold Main.channel_body. unfold raw in H. now rewrite H. Qed.

(** X16.  The cycle reads the 12 data bits of each result and nothing else of
    the frame: two reads whose frames hold the same codes, whatever the
    channel and unit tags of the results and whatever follows the frame,
    lead to the same state and the same calls. *)
Theorem cycle_reads_codes_only (d : device) (env1 env2 : Main.cycle_env) :
  codes (Main.result env1) = codes (Main.result env2) ->
  Main.ret env1 = Main.ret env2 -> Main.size_ret env1 = Main.size_ret env2 ->
  Main.om_alloc env1 = Main.om_alloc env2 -> Main.notify_rc env1 = Main.notify_rc env2 ->
  Main.adc_conv_task_step d env1 = Main.adc_conv_task_step d env2.
Proof.
  intros Hc Hret Hsize Ha Hn.
  assert (Hb : Main.build_packet (Main.result env1) d
               = Main.build_packet (Main.result env2) d).
  { unfold Main.build_packet. apply for_loop_ext. intros j s Hj.
    change (Z.of_nat (Z.to_nat Main.PACKET_LEN)) with 25 in Hj.
    unfold Main.tick_body. apply for_loop_ext. intros i s' Hi.
    change (Z.of_nat (Z.to_nat Main.NUM_CHANNELS)) with 4 in Hi.
    apply channel_body_raw. apply codes_raw; [exact Hc | lia | lia]. }
  unfold Main.adc_conv_task_step, Main.adc_cycle, Main.send_packet.
  now rewrite Hb, Hret, Hsize, Ha, Hn.
Qed.

Lemma cycle_reads_codes_only_witness :
  let env2 := Main.mk_cycle_env ESP_OK Main.CONV_FRAME_SIZE (retagged_frame 2000 ++ [255; 255])
                                true 0 in
  codes (Main.result (sample_read 2000)) = codes (Main.result env2)
  /\ Main.result (sample_read 2000) <> Main.result env2
  /\ Main.adc_conv_task_step streaming_device (sample_read 2000)
     = Main.adc_conv_task_step streaming_device env2.
Proof.
  cbv zeta.
  assert (H : codes (Main.result (sample_read 2000))
              = codes (Main.result (Main.mk_cycle_env ESP_OK Main.CONV_FRAME_SIZE
                                      (retagged_frame 2000 ++ [255; 255]) true 0)))
    by (vm_compute; reflexivity).
  split; [exact H|]. split; [intros E; vm_compute in E; discriminate E|].
  exact (cycle_reads_codes_only streaming_device (sample_read 2000) _ H
           eq_refl eq_refl eq_refl eq_refl).
Defined.

(** ** The colour of a pixel *)

Lemma below_spec (n : nat) (x : Z) : 0 <= x < Z.of_nat n -> In x (below n).
Proof.
  intros Hx. unfold below. apply in_map_iff. exists (Z.to_nat x).
  split; [lia | apply in_seq; lia].
Qed.

(** The level of a brightness: the product by [2.55f], computed in
    [float] and truncated, is [v * 255 / 100] in integers, on every
    [uint8_t]. *)
Lemma rgb_max_table :
  forallb (fun v => match Pixels.to_uint32
                            (Float.fmul (Float.float_of_int v) (Pixels.float_const 255 100)) with
                    | Some m => m =? v * 255 / 100
                    | None => false
                    end) (below 256) = true.
Proof. vm_compute. reflexivity. Qed.

Lemma rgb_max_spec (v : Z) :
  0 <= v <= 255 ->
  Pixels.to_uint32 (Float.fmul (Float.float_of_int v) (Pixels.float_const 255 100))
  = Some (v * 255 / 100).
Proof.
  intros Hv. pose proof rgb_max_table as H. rewrite forallb_forall in H.
  specialize (H v (below_spec 256 v ltac:(lia))).
  destruct (Pixels.to_uint32 _) as [m|]; [|discriminate H].
  apply Z.eqb_eq in H. now subst m.
Qed.

Lemma uint32_small (x : Z) : 0 <= x < 4294967296 -> uint32_t x = x.
Proof. intros H. unfold uint32_t. now apply Z.mod_small. Qed.

Lemma rgb_min_saturated :
  Pixels.to_uint32 (Float.fdiv (Float.float_of_int 0) (Float.float_of_int 100)) = Some 0.
Proof. vm_compute. reflexivity. Qed.

(** At saturation 100 the conversion is the one of the integers: the
    level is [v * 255 / 100], the lowest component is 0, and the hue
    moves one component between the two. *)
Lemma hsv2rgb_saturated (h v : Z) :
  0 <= h -> 0 <= v <= 255 ->
  let m := v * 255 / 100 in
  let adj := m * (h mod 360 mod 60) / 60 in
  0 <= adj <= m /\ m <= 650
  /\ Pixels.led_strip_hsv2rgb h 100 v
     = Some (match h mod 360 / 60 with
             | 0 => (m, adj, 0)
             | 1 => (m - adj, m, 0)
             | 2 => (0, m, adj)
             | 3 => (0, m - adj, m)
             | 4 => (adj, 0, m)
             | _ => (m, 0, m - adj)
             end).
Proof.
  intros Hh Hv. cbv zeta.
  assert (Hm : 0 <= v * 255 / 100 <= 650).
  { split; [apply Z.div_pos; lia|]. apply Z.lt_succ_r. apply Z.div_lt_upper_bound; lia. }
  pose proof (Z.mod_pos_bound (h mod 360) 60 ltac:(lia)) as Hd.
  assert (Hadj : 0 <= v * 255 / 100 * (h mod 360 mod 60) / 60 <= v * 255 / 100).
  { split; [apply Z.div_pos; nia | apply Z.div_le_upper_bound; nia]. }
  split; [exact Hadj|]. split; [lia|].
  unfold Pixels.led_strip_hsv2rgb. cbv zeta.
  rewrite (rgb_max_spec v Hv), option_bind_Some.
  change (uint32_t (100 - 100)) with 0. rewrite Z.mul_0_r.
  change (uint32_t 0) with 0. rewrite rgb_min_saturated, option_bind_Some.
  rewrite Z.sub_0_r, (uint32_small (v * 255 / 100)) by lia.
  rewrite (uint32_small (v * 255 / 100 * (h mod 360 mod 60))) by nia.
  rewrite !Z.add_0_l, (uint32_small (v * 255 / 100 * (h mod 360 mod 60) / 60)) by lia.
  rewrite (uint32_small (v * 255 / 100 - v * 255 / 100 * (h mod 360 mod 60) / 60)) by lia.
  reflexivity.
Qed.

(** *** Any saturation *)

(** The quotient of two positive integers below 2^24, as [float]
    computes it. *)
Lemma fdiv_of_int (N K : Z) :
  0 < N < 2 ^ 24 -> 0 < K < 2 ^ 24 ->
  exists t, 0 <= t <= 48 /\ binade N K t
            /\ Float.fdiv (Float.float_of_int N) (Float.float_of_int K) = RN N K t.
Proof.
  intros HN HK.
  change (Float.fdiv (Float.float_of_int N) (Float.float_of_int K))
    with (SFdiv 24 128 (canon N 0) (canon K 0)).
  destruct (shift_exists N HN) as (jN & HjN & HbN).
  destruct (shift_exists K HK) as (jK & HjK & HbK).
  rewrite (canon_form N 0 jN), (canon_form K 0 jK) by lia.
  pose proof (pow2_pos jN ltac:(lia)) as HpN. pose proof (pow2_pos jK ltac:(lia)) as HpK.
  pose proof (shifted_bounds N jN HjN HbN) as HmN.
  pose proof (shifted_bounds K jK HjK HbK) as HmK.
  set (n := if N * 2 ^ jN <? K * 2 ^ jK then 0 else 1).
  assert (Hn : (n = 0 /\ N * 2 ^ jN < K * 2 ^ jK) \/ (n = 1 /\ K * 2 ^ jK <= N * 2 ^ jN)).
  { unfold n. destruct (Z.ltb_spec (N * 2 ^ jN) (K * 2 ^ jK)); [left | right]; lia. }
  rewrite (fdiv_pos _ _ _ _ n) by (rewrite ?Z2Pos.id by lia; lia).
  rewrite !Z2Pos.id by lia.
  exists (24 + jN - jK - n). split; [lia|].
  assert (Hpow : 2 ^ (24 + jN) = 2 ^ (24 + jN - jK - n) * 2 ^ (jK + n)).
  { rewrite <- Z.pow_add_r by lia. f_equal. lia. }
  pose proof (pow2_pos (24 + jN - jK - n) ltac:(lia)) as Hpt.
  pose proof (pow2_pos (jK + n) ltac:(lia)) as Hpc.
  assert (Hscale : N * 2 ^ jN * 2 ^ 24 = N * 2 ^ (24 + jN - jK - n) * 2 ^ (jK + n)).
  { rewrite <- Z.mul_assoc, <- Z.pow_add_r, (Z.add_comm jN 24), Hpow by lia. ring. }
  assert (Hden : K * 2 ^ jK * 2 ^ n = K * 2 ^ (jK + n)).
  { rewrite Z.pow_add_r by lia. ring. }
  split.
  - unfold binade.
    assert (H23 : 2 ^ (23 + n) * (K * 2 ^ jK) <= N * 2 ^ jN * 2 ^ 24
                  < 2 ^ (24 + n) * (K * 2 ^ jK)).
    { destruct Hn as [[-> Hlt]|[-> Hge]]; cbn [Z.add]; change (2 ^ 25) with (2 * 2 ^ 24);
        change (2 ^ 24) with (2 * 2 ^ 23) at 1; nia. }
    rewrite Hscale in H23.
    replace (2 ^ (23 + n) * (K * 2 ^ jK)) with (2 ^ 23 * K * 2 ^ (jK + n)) in H23
      by (rewrite !Z.pow_add_r by lia; ring).
    replace (2 ^ (24 + n) * (K * 2 ^ jK)) with (2 ^ 24 * K * 2 ^ (jK + n)) in H23
      by (rewrite !Z.pow_add_r by lia; ring).
    nia.
  - unfold RN. replace (0 - jN - (0 - jK) - 24 + n) with (- (24 + jN - jK - n)) by lia.
    f_equal. rewrite Hscale, Hden. apply rnd_scale; lia.
Qed.

(** Dividing by [100.0f] and truncating is the division of the
    integers, up to 65000. *)
Lemma div_100_spec (a : Z) :
  0 <= a <= 65000 ->
  Pixels.to_uint32 (Float.fdiv (Float.float_of_int a) (Float.float_of_int 100))
  = Some (a / 100).
Proof.
  intros Ha. destruct (Z.eq_dec a 0) as [->|Hne]; [exact rgb_min_saturated|].
  destruct (fdiv_of_int a 100 ltac:(change (2 ^ 24) with 16777216; lia)
                          ltac:(change (2 ^ 24) with 16777216; lia))
    as (t & Ht & Hbin & ->).
  pose proof (pow2_pos t ltac:(lia)) as Hpt.
  assert (Ht7 : 2 ^ 7 <= 2 ^ t).
  { destruct (Z_le_gt_dec 7 t) as [|Hlt]; [apply Z.pow_le_mono_r; lia | exfalso].
    assert (2 ^ t <= 2 ^ 6) by (apply Z.pow_le_mono_r; lia).
    destruct Hbin as [Hb _]. change (2 ^ 23) with 8388608 in Hb.
    change (2 ^ 6) with 64 in *. nia. }
  change (2 ^ 7) with 128 in Ht7.
  assert (Ht1 : 1 <= t).
  { destruct (Z_le_gt_dec 1 t); [assumption|]. assert (t = 0) as -> by lia.
    change (2 ^ 0) with 1 in Ht7. lia. }
  pose proof (trunc_RN a 100 t ltac:(lia) Ht1 Hbin) as Htr.
  pose proof (Z.div_mod a 100 ltac:(lia)) as Ediv.
  pose proof (Z.mod_pos_bound a 100 ltac:(lia)) as Hmod.
  assert (Hq : 0 <= a / 100 <= 650).
  { split; [apply Z.div_pos; lia | apply Z.div_le_upper_bound; lia]. }
  assert (Hr : a / 100 * 2 ^ t <= rnd (a * 2 ^ t) 100 <= (a / 100 + 1) * 2 ^ t - 1).
  { apply rnd_between; [lia | nia | nia]. }
  assert (Hval : rnd (a * 2 ^ t) 100 / 2 ^ t = a / 100).
  { symmetry. apply (Z.div_unique _ _ _ (rnd (a * 2 ^ t) 100 - a / 100 * 2 ^ t)); lia. }
  rewrite Hval in Htr.
  pose proof (binade_rnd a 100 t ltac:(lia) Hbin) as Hm.
  unfold RN in *.
  destruct (pack_form _ (- t) Hm) as (mq & eq & Hp & _).
  rewrite Hp in *. unfold Pixels.to_uint32. rewrite Htr.
  destruct (Z.leb_spec 0 (a / 100)); [|lia].
  destruct (Z.ltb_spec (a / 100) 4294967296); [reflexivity | lia].
Qed.

(** X17.  For a saturation up to 100 and a brightness a [uint8_t] holds,
    the conversion, which goes through [float], never leaves the range of
    its types and is the conversion of the integers: the highest level
    is [v * 255 / 100], the lowest is its share [100 - s] in a hundred,
    and the hue moves one component between the two. *)
Theorem hsv2rgb_in_integers (h s v : Z) :
  0 <= h -> 0 <= s <= 100 -> 0 <= v <= 255 ->
  let hi := v * 255 / 100 in
  let lo := hi * (100 - s) / 100 in
  let adj := (hi - lo) * (h mod 360 mod 60) / 60 in
  0 <= lo <= hi /\ 0 <= adj <= hi - lo
  /\ Pixels.led_strip_hsv2rgb h s v
     = Some (match h mod 360 / 60 with
             | 0 => (hi, lo + adj, lo)
             | 1 => (hi - adj, hi, lo)
             | 2 => (lo, hi, lo + adj)
             | 3 => (lo, hi - adj, hi)
             | 4 => (lo + adj, lo, hi)
             | _ => (hi, lo, hi - adj)
             end).
Proof.
  intros Hh Hs Hv. cbv zeta.
  assert (Hhi : 0 <= v * 255 / 100 <= 650).
  { split; [apply Z.div_pos; lia|]. apply Z.lt_succ_r. apply Z.div_lt_upper_bound; lia. }
  set (hi := v * 255 / 100) in *.
  assert (Hlo : 0 <= hi * (100 - s) / 100 <= hi).
  { split; [apply Z.div_pos; nia | apply Z.div_le_upper_bound; nia]. }
  set (lo := hi * (100 - s) / 100) in *.
  pose proof (Z.mod_pos_bound (h mod 360) 60 ltac:(lia)) as Hd.
  assert (Hadj : 0 <= (hi - lo) * (h mod 360 mod 60) / 60 <= hi - lo).
  { split; [apply Z.div_pos; nia | apply Z.div_le_upper_bound; nia]. }
  split; [exact Hlo|]. split; [exact Hadj|].
  unfold Pixels.led_strip_hsv2rgb. cbv zeta.
  rewrite (rgb_max_spec v Hv), option_bind_Some. fold hi.
  rewrite (uint32_small (100 - s)), (uint32_small (hi * (100 - s))) by nia.
  rewrite div_100_spec by nia. rewrite option_bind_Some. fold lo.
  rewrite (uint32_small (hi - lo)), (uint32_small ((hi - lo) * (h mod 360 mod 60))) by nia.
  set (adj := (hi - lo) * (h mod 360 mod 60) / 60) in *.
  rewrite (uint32_small (lo + adj)), (uint32_small (hi - adj)) by lia.
  reflexivity.
Qed.

Lemma hsv2rgb_in_integers_witness :
  0 <= 200 /\ 0 <= 75 <= 100 /\ 0 <= 40 <= 255
  /\ Pixels.led_strip_hsv2rgb 200 75 40 = Some (25, 77, 102).
Proof.
  assert (H1 : 0 <= 200) by lia. assert (H2 : 0 <= 75 <= 100) by lia.
  assert (H3 : 0 <= 40 <= 255) by lia.
  split; [exact H1|]. split; [exact H2|]. split; [exact H3|].
  exact (proj2 (proj2 (hsv2rgb_in_integers 200 75 40 H1 H2 H3))).
Defined.

Lemma store3 (pixels : list Z) (p x y z : Z) :
  length pixels = 18%nat -> 0 <= p <= 5 ->
  (pixels ← Gatt.store pixels (Z.to_nat (p * 3 + 0)) x;
   pixels ← Gatt.store pixels (Z.to_nat (p * 3 + 1)) y;
   Gatt.store pixels (Z.to_nat (p * 3 + 2)) z)
  = Some (take (Z.to_nat (3 * p)) pixels ++ [x; y; z] ++ drop (Z.to_nat (3 * p + 3)) pixels).
Proof.
  intros Hlen Hp.
  do 18 (destruct pixels as [|? pixels]; [discriminate Hlen|]).
  destruct pixels; [|discriminate Hlen].
  assert (Hc : p = 0 \/ p = 1 \/ p = 2 \/ p = 3 \/ p = 4 \/ p = 5) by lia.
  destruct Hc as [->|[->|[->|[->|[->| ->]]]]]; reflexivity.
Qed.

(** The bytes [set_pixel] stores for a pixel number it accepts. *)
Lemma set_pixel_bytes (pixels : list Z) (p : Z) (color : color_t) (v : Z) :
  length pixels = 18%nat -> 0 <= p <= 5 -> 0 <= v <= 255 ->
  Pixels.set_pixel pixels p color v
  = Some (take (Z.to_nat (3 * p)) pixels
          ++ color_bytes color (uint8_t (v * 255 / 100))
          ++ drop (Z.to_nat (3 * p + 3)) pixels).
Proof.
  intros Hlen Hp Hv. unfold Pixels.set_pixel.
  replace ((p >? Neopixel.NUM_NEOPIXEL - 1) || (p <? 0)) with false
    by (unfold Neopixel.NUM_NEOPIXEL; symmetry; apply orb_false_intro; lia).
  assert (H0 : uint8_t 0 = 0) by reflexivity.
  assert (Hhue : 0 <= hue color) by (destruct color; cbn; lia).
  destruct (hsv2rgb_saturated (hue color) v Hhue Hv) as (_ & _ & E).
  rewrite E. clear E Hhue.
  destruct color; cbn [hue];
    match goal with
    | |- context [?h mod 360 / 60] =>
        let q := eval vm_compute in (h mod 360 / 60) in change (h mod 360 / 60) with q
    end;
    match goal with
    | |- context [?h mod 360 mod 60] => change (h mod 360 mod 60) with 0
    end;
    rewrite Z.mul_0_r; change (0 / 60) with 0; rewrite ?Z.sub_0_r;
    rewrite option_bind_Some; cbv beta iota;
    rewrite store3 by assumption; rewrite ?H0; reflexivity.
Qed.

(** X18.  A pixel set to one of the six colours gets the bytes of that colour
    at the level of the brightness, reduced to a byte, and no other byte
    of the array changes; up to brightness 100 the level fits a byte as
    it is. *)
Theorem set_pixel_named_colour (pixels : list Z) (p : Z) (color : color_t) (v : Z) :
  length pixels = 18%nat -> 0 <= p <= 5 -> 0 <= v <= 255 ->
  Pixels.set_pixel pixels p color v
  = Some (take (Z.to_nat (3 * p)) pixels
          ++ color_bytes color (uint8_t (v * 255 / 100))
          ++ drop (Z.to_nat (3 * p + 3)) pixels)
  /\ (v <= 100 -> uint8_t (v * 255 / 100) = v * 255 / 100).
Proof.
  intros Hlen Hp Hv. split.
  - exact (set_pixel_bytes pixels p color v Hlen Hp Hv).
  - intros Hv100. unfold uint8_t. apply Z.mod_small.
    split; [apply Z.div_pos; lia|]. apply Z.div_lt_upper_bound; lia.
Qed.

Lemma set_pixel_named_colour_witness :
  length (replicate 18 7) = 18%nat /\ 0 <= 2 <= 5 /\ 0 <= 10 <= 255
  /\ Pixels.set_pixel (replicate 18 7) 2 RED 10
     = Some [7; 7; 7; 7; 7; 7; 0; 25; 0; 7; 7; 7; 7; 7; 7; 7; 7; 7].
Proof.
  assert (H1 : length (replicate 18 7) = 18%nat) by reflexivity.
  assert (H2 : 0 <= 2 <= 5) by lia. assert (H3 : 0 <= 10 <= 255) by lia.
  split; [exact H1|]. split; [exact H2|]. split; [exact H3|].
  exact (proj1 (set_pixel_named_colour (replicate 18 7) 2 RED 10 H1 H2 H3)).
Defined.

(** X19.  [set_pixel] is defined on every pixel number, colour and brightness
    of their types and stays inside the 18 bytes of [pixels]; a pixel
    number above 5 leaves the array as it is, and it is then that the
    strip is not shown. *)
Theorem set_pixel_stays_inside (pixels : list Z) (p : Z) (color : color_t) (v : Z) :
  length pixels = 18%nat -> 0 <= p <= 255 -> 0 <= v <= 255 ->
  exists pixels',
    Pixels.set_pixel pixels p color v = Some pixels'
    /\ length pixels' = 18%nat
    /\ (5 < p -> pixels' = pixels)
    /\ (5 < p <-> ~ In (led_strip_show p color v) (Neopixel.set_pixel p color v)).
Proof.
  intros Hlen Hp Hv. destruct (Z_le_gt_dec p 5) as [Hle|Hgt].
  - pose proof (set_pixel_bytes pixels p color v Hlen ltac:(lia) Hv) as E.
    eexists. split; [exact E|]. split; [|split; [lia|]].
    + rewrite !length_app, length_take, length_drop, Hlen.
      destruct color; cbn [color_bytes length]; lia.
    + unfold Neopixel.set_pixel.
      replace ((p >? Neopixel.NUM_NEOPIXEL - 1) || (p <? 0)) with false
        by (unfold Neopixel.NUM_NEOPIXEL; symmetry; apply orb_false_intro; lia).
      split; [lia|]. intros Hn. exfalso. apply Hn. left; reflexivity.
  - exists pixels. unfold Pixels.set_pixel, Neopixel.set_pixel.
    replace ((p >? Neopixel.NUM_NEOPIXEL - 1) || (p <? 0)) with true
      by (unfold Neopixel.NUM_NEOPIXEL; symmetry; apply orb_true_intro; left; lia).
    repeat split; try assumption; try lia.
    intros _ [Hin|[]]. discriminate Hin.
Qed.

Lemma set_pixel_stays_inside_witness :
  length (replicate 18 7) = 18%nat /\ 0 <= 6 <= 255 /\ 0 <= 200 <= 255
  /\ exists pixels',
       Pixels.set_pixel (replicate 18 7) 6 CYAN 200 = Some pixels'
       /\ length pixels' = 18%nat
       /\ (5 < 6 -> pixels' = replicate 18 7)
       /\ (5 < 6 <-> ~ In (led_strip_show 6 CYAN 200) (Neopixel.set_pixel 6 CYAN 200)).
Proof.
  assert (H1 : length (replicate 18 7) = 18%nat) by reflexivity.
  assert (H2 : 0 <= 6 <= 255) by lia. assert (H3 : 0 <= 200 <= 255) by lia.
  split; [exact H1|]. split; [exact H2|]. split; [exact H3|].
  exact (set_pixel_stays_inside (replicate 18 7) 6 CYAN 200 H1 H2 H3).
Defined.

(** ** The address of the device *)

Lemma hex_digit_char (n : Z) : 0 <= n < 16 -> is_addr_char (GapAddr.hex_digit n).
Proof.
  intros Hn. unfold GapAddr.hex_digit, is_addr_char.
  destruct (Z.ltb_spec n 10); lia.
Qed.

Lemma hex_digit_inj (m n : Z) :
  0 <= m < 16 -> 0 <= n < 16 -> GapAddr.hex_digit m = GapAddr.hex_digit n -> m = n.
Proof.
  intros Hm Hn. unfold GapAddr.hex_digit.
  destruct (Z.ltb_spec m 10); destruct (Z.ltb_spec n 10); lia.
Qed.

Lemma format_02X_inj (a b : Z) :
  is_byte a -> is_byte b -> GapAddr.format_02X a = GapAddr.format_02X b -> a = b.
Proof.
  unfold is_byte, GapAddr.format_02X. intros Ha Hb E. injection E as E1 E2.
  apply hex_digit_inj in E1;
    [|split; [apply Z.div_pos; lia | apply Z.div_lt_upper_bound; lia]..].
  apply hex_digit_inj in E2; [|apply Z.mod_pos_bound; lia..].
  rewrite (Z.div_mod a 16), (Z.div_mod b 16) by lia. congruence.
Qed.

Lemma format_02X_chars (a : Z) : is_byte a -> Forall is_addr_char (GapAddr.format_02X a).
Proof.
  unfold is_byte. intros Ha. unfold GapAddr.format_02X.
  constructor; [|constructor; [|constructor]]; apply hex_digit_char;
    [split; [apply Z.div_pos; lia | apply Z.div_lt_upper_bound; lia]
    | apply Z.mod_pos_bound; lia].
Qed.

Lemma format_addr_chars (addr : list Z) :
  length addr = 6%nat -> Forall is_byte addr ->
  (exists s, forall addr_str, length addr_str = 18%nat ->
               GapAddr.format_addr addr_str addr = Some (s ++ [0])
               /\ length s = 17%nat /\ Forall is_addr_char s)
  /\ (forall addr_str, (length addr_str < 18)%nat ->
        GapAddr.format_addr addr_str addr = None).
Proof.
  intros Hlen Hb.
  destruct addr as [|a0 [|a1 [|a2 [|a3 [|a4 [|a5 [|]]]]]]]; try discriminate Hlen.
  repeat match goal with H : Forall _ (_ :: _) |- _ =>
    let Hx := fresh "Hx" in let Hr := fresh "Hr" in
    inversion H as [|? ? Hx Hr]; subst; clear H end.
  split.
  - exists (GapAddr.format_02X a0 ++ 58 :: GapAddr.format_02X a1 ++ 58 ::
            GapAddr.format_02X a2 ++ 58 :: GapAddr.format_02X a3 ++ 58 ::
            GapAddr.format_02X a4 ++ 58 :: GapAddr.format_02X a5).
    intros addr_str Hs.
    unfold GapAddr.format_addr. cbn [lookup list_lookup]. rewrite !option_bind_Some.
    unfold GapAddr.sprintf. cbn [length app GapAddr.format_02X Nat.add].
    rewrite Hs. cbn [Nat.leb].
    rewrite drop_ge by (rewrite Hs; lia).
    split; [reflexivity|]. split; [reflexivity|].
    repeat match goal with H : is_byte _ |- _ => apply format_02X_chars in H end.
    unfold GapAddr.format_02X in *.
    repeat match goal with H : Forall _ (_ :: _) |- _ =>
      let Hx := fresh "Hx" in let Hr := fresh "Hr" in
      inversion H as [|? ? Hx Hr]; subst; clear H end.
    repeat (apply List.Forall_cons; [first [assumption | unfold is_addr_char; lia]|]).
    apply List.Forall_nil.
  - intros addr_str Hs. unfold GapAddr.format_addr.
    cbn [lookup list_lookup]. rewrite !option_bind_Some.
    unfold GapAddr.sprintf. cbn [length app GapAddr.format_02X Nat.add].
    destruct (Nat.leb_spec 18 (length addr_str)); [lia | reflexivity].
Qed.

(** X20.  [format_addr] fills the 18 bytes of [addr_str] exactly: 17 characters,
    digits and letters from A to F and colons, and the terminator; one
    byte less and the terminator would be stored past the end.  Two
    addresses with the same string are the same address. *)
Theorem format_addr_fits (addr : list Z) :
  length addr = 6%nat -> Forall is_byte addr ->
  (exists s, forall addr_str, length addr_str = 18%nat ->
               GapAddr.format_addr addr_str addr = Some (s ++ [0])
               /\ length s = 17%nat /\ Forall is_addr_char s)
  /\ (forall addr_str, (length addr_str < 18)%nat ->
        GapAddr.format_addr addr_str addr = None)
  /\ (forall addr' addr_str,
        length addr' = 6%nat -> Forall is_byte addr' -> length addr_str = 18%nat ->
        GapAddr.format_addr addr_str addr = GapAddr.format_addr addr_str addr' ->
        addr = addr').
Proof.
  intros Hlen Hb.
  destruct (format_addr_chars addr Hlen Hb) as [H1 H2].
  split; [exact H1|]. split; [exact H2|].
  destruct addr as [|a0 [|a1 [|a2 [|a3 [|a4 [|a5 [|]]]]]]]; try discriminate Hlen.
  repeat match goal with H : Forall _ (_ :: _) |- _ =>
    let Hx := fresh "Hx" in let Hr := fresh "Hr" in
    inversion H as [|? ? Hx Hr]; subst; clear H end.
  clear H1 H2.
  intros addr' addr_str Hlen' Hb' Hs E.
    do 6 (destruct addr' as [|? addr']; [discriminate Hlen'|]).
    destruct addr'; [|discriminate Hlen'].
    repeat match goal with H : Forall _ (_ :: _) |- _ =>
      let Hx := fresh "Hx" in let Hr := fresh "Hr" in
      inversion H as [|? ? Hx Hr]; subst; clear H end.
    unfold GapAddr.format_addr in E. cbn [lookup list_lookup] in E.
    rewrite !option_bind_Some in E.
    unfold GapAddr.sprintf in E. cbn [length app Nat.add GapAddr.format_02X] in E.
    rewrite Hs in E. cbn [Nat.leb] in E. injection E as E.
    repeat match goal with
    | E : _ :: _ :: _ = _ :: _ :: _ |- _ =>
        let E1 := fresh "E" in let E2 := fresh "E" in
        injection E as E1 E2
    end.
    repeat match goal with
    | E1 : GapAddr.hex_digit (?a / 16) = GapAddr.hex_digit (?b / 16),
      E2 : GapAddr.hex_digit (?a mod 16) = GapAddr.hex_digit (?b mod 16) |- _ =>
        assert (a = b)
          by (apply format_02X_inj; [assumption | assumption
                                    | unfold GapAddr.format_02X; now rewrite E1, E2]);
        clear E1 E2; subst a
    end.
    reflexivity.
Qed.

Lemma format_addr_fits_witness :
  length [192; 255; 238; 0; 18; 52] = 6%nat /\ Forall is_byte [192; 255; 238; 0; 18; 52]
  /\ exists s, forall addr_str, length addr_str = 18%nat ->
       GapAddr.format_addr addr_str [192; 255; 238; 0; 18; 52] = Some (s ++ [0])
       /\ length s = 17%nat /\ Forall is_addr_char s.
Proof.
  assert (H1 : length [192; 255; 238; 0; 18; 52] = 6%nat) by reflexivity.
  assert (H2 : Forall is_byte [192; 255; 238; 0; 18; 52])
    by (repeat (apply List.Forall_cons; [unfold is_byte; lia|]); apply List.Forall_nil).
  split; [exact H1|]. split; [exact H2|].
  exact (proj1 (format_addr_fits _ H1 H2)).
Defined.

Example format_addr_sample :
  GapAddr.format_addr (replicate 18 0) [192; 255; 238; 0; 18; 52]
  = Some (bytes_of_string "C0:FF:EE:00:12:34" ++ [0]).
Proof. reflexivity. Qed.

(** X21.  [adv_init] starts advertising exactly when the host has an address,
    infers its type and copies it, the advertising data being taken as
    well; it logs one error and does nothing else when one of the three
    fails; and the address never overruns the string it is printed
    into. *)
Theorem adv_init_advertises_iff (env : GapAddr.adv_env) (genv : Gap.gap_env) :
  length (GapAddr.addr_val env) = 6%nat -> Forall is_byte (GapAddr.addr_val env) ->
  exists calls,
    GapAddr.adv_init env genv = Some calls
    /\ (In ble_gap_adv_set_fields calls
        <-> GapAddr.ensure_addr_rc env = 0 /\ GapAddr.infer_auto_rc env = 0
            /\ GapAddr.copy_addr_rc env = 0)
    /\ (In (ble_gap_adv_start 500 510) calls
        <-> GapAddr.ensure_addr_rc env = 0 /\ GapAddr.infer_auto_rc env = 0
            /\ GapAddr.copy_addr_rc env = 0 /\ Gap.adv_set_fields_rc genv = 0)
    /\ (~ In ble_gap_adv_set_fields calls ->
        exists fmt args, calls = [ESP_LOGE Gap.TAG fmt args]).
Proof.
  intros Hlen Hb. unfold GapAddr.adv_init.
  destruct (Z.eqb_spec (GapAddr.ensure_addr_rc env) 0) as [H1|H1]; cbn [negb].
  2:{ eexists. split; [reflexivity|].
      split; [split; [intros H; in_cases H | tauto]|].
      split; [split; [intros H; in_cases H | tauto]|]. intros _. eauto. }
  destruct (Z.eqb_spec (GapAddr.infer_auto_rc env) 0) as [H2|H2]; cbn [negb].
  2:{ eexists. split; [reflexivity|].
      split; [split; [intros H; in_cases H | tauto]|].
      split; [split; [intros H; in_cases H | tauto]|]. intros _. eauto. }
  destruct (Z.eqb_spec (GapAddr.copy_addr_rc env) 0) as [H3|H3]; cbn [negb].
  2:{ eexists. split; [reflexivity|].
      split; [split; [intros H; in_cases H | tauto]|].
      split; [split; [intros H; in_cases H | tauto]|]. intros _. eauto. }
  destruct (proj1 (format_addr_chars (GapAddr.addr_val env) Hlen Hb)) as (s & Hs).
  destruct (Hs (replicate 18 0) eq_refl) as (-> & _ & _). rewrite option_bind_Some.
  eexists. split; [reflexivity|].
  assert (Hadv : In ble_gap_adv_set_fields (Gap.start_advertising genv)) by (left; reflexivity).
  split; [|split].
  - split; [tauto | intros _; right; exact Hadv].
  - unfold Gap.start_advertising.
    destruct (Z.eqb_spec (Gap.adv_set_fields_rc genv) 0) as [H4|H4].
    + split; [tauto|]. intros _. right; right; left; reflexivity.
    + split; [intros H; in_cases H | tauto].
  - intros Hn. exfalso. apply Hn. right. exact Hadv.
Qed.

Lemma adv_init_advertises_iff_witness :
  let env := GapAddr.mk_adv_env 0 0 0 [192; 255; 238; 0; 18; 52] in
  length (GapAddr.addr_val env) = 6%nat /\ Forall is_byte (GapAddr.addr_val env)
  /\ exists calls,
       GapAddr.adv_init env gap_ok = Some calls
       /\ (In ble_gap_adv_set_fields calls
           <-> GapAddr.ensure_addr_rc env = 0 /\ GapAddr.infer_auto_rc env = 0
               /\ GapAddr.copy_addr_rc env = 0)
       /\ (In (ble_gap_adv_start 500 510) calls
           <-> GapAddr.ensure_addr_rc env = 0 /\ GapAddr.infer_auto_rc env = 0
               /\ GapAddr.copy_addr_rc env = 0 /\ Gap.adv_set_fields_rc gap_ok = 0)
       /\ (~ In ble_gap_adv_set_fields calls ->
           exists fmt args, calls = [ESP_LOGE Gap.TAG fmt args]).
Proof.
  cbv zeta.
  assert (H1 : length (GapAddr.addr_val
                         (GapAddr.mk_adv_env 0 0 0 [192; 255; 238; 0; 18; 52])) = 6%nat)
    by reflexivity.
  assert (H2 : Forall is_byte (GapAddr.addr_val
                                 (GapAddr.mk_adv_env 0 0 0 [192; 255; 238; 0; 18; 52])))
    by (repeat (apply List.Forall_cons; [unfold is_byte; lia|]); apply List.Forall_nil).
  split; [exact H1|]. split; [exact H2|].
  exact (adv_init_advertises_iff _ gap_ok H1 H2).
Defined.

(** ** The registration of the attributes *)

Lemma uuid_eq_data_not_control (u : GattInit.ble_uuid_t) :
  GattInit.ble_uuid_eq u GattInit.data_char_uuid = true ->
  GattInit.ble_uuid_eq u GattInit.control_char_uuid = false.
Proof.
  unfold GattInit.ble_uuid_eq. intros H. apply andb_prop in H as [_ H].
  apply bool_decide_eq_true in H. rewrite H.
  apply andb_false_intro2. reflexivity.
Qed.

(** X22.  However many attributes the host registers and in whatever order,
    each of the two handles ends as the value handle of the last
    registration of its own characteristic, or as it was when there is
    none; the two never get mixed up, and nothing else of the state is
    written. *)
Theorem registration_sets_handles (regs : list GattInit.ble_gatt_register_ctxt) (d : device) :
  let d' := GattInit.register_all d regs in
  data_char_handle d'
    = default (data_char_handle d)
              (GattInit.registered_handle GattInit.data_char_uuid regs)
  /\ control_char_handle d'
     = default (control_char_handle d)
               (GattInit.registered_handle GattInit.control_char_uuid regs)
  /\ streaming d' = streaming d /\ conn_handle d' = conn_handle d
  /\ counter d' = counter d /\ chords_packet d' = chords_packet d.
Proof.
  cbv zeta. induction regs as [|ctxt regs IH] using rev_ind.
  - repeat split.
  - unfold GattInit.register_all, GattInit.registered_handle in *.
    rewrite !fold_left_app. cbn [fold_left].
    destruct IH as (Hd & Hc & Hs & Hn & Hk & Hp).
    set (d1 := fold_left _ regs d) in *.
    destruct ctxt as [u h | u dh vh | u h |]; cbn [GattInit.gatt_svr_register_cb fst];
      try (repeat split; assumption).
    destruct (GattInit.ble_uuid_eq u GattInit.data_char_uuid) eqn:Edata.
    + rewrite (uuid_eq_data_not_control u Edata). cbn. repeat split; assumption.
    + destruct (GattInit.ble_uuid_eq u GattInit.control_char_uuid) eqn:Ectl;
        cbn; repeat split; assumption.
Qed.

Example registration_sample :
  let d := GattInit.register_all (Main.boot 0 0)
             [ GattInit.BLE_GATT_REGISTER_OP_SVC GattInit.svc_uuid 10;
               GattInit.BLE_GATT_REGISTER_OP_CHR GattInit.data_char_uuid 11 12;
               GattInit.BLE_GATT_REGISTER_OP_CHR GattInit.control_char_uuid 13 14 ] in
  d = Main.boot 12 14.
Proof. reflexivity. Qed.
